(** * got: a fluent test runner over Go's testing.T, and its table-driven cases

  The development embeds the package's two source files:
  - the case file: [caseImpl], [NewCase], [CaseBuilder] and its setters, [Build];
  - the runner file: the runner [R], [New], [Case], [Run], [Caser], [Cases],
    [Pass], [Fail], [Fatal], [Require], [FailNow], the error assertions, the
    auxiliary helpers and the [Assert...] family.

  Go objects reached through pointers (the builder, the runner, the bound
  [*testing.T]) live in explicit stores and are passed by address, so that
  sharing is visible.  Calls that can stop the running goroutine are modelled
  in a monad whose outcomes are a normal return, [runtime.Goexit], a panic,
  or the death of the process. *)

From stdpp Require Import gmap strings list pretty.
From Stdlib Require Import ZArith Lia Ascii.

Set Warnings "-register-all".

(** ** Go values *)

Module Go.

Local Open Scope Z_scope.

(** [int] on a 64-bit platform: two's complement, [++] wraps around. *)
Definition intMin : Z := - 2 ^ 63.
Definition intMax : Z := 2 ^ 63 - 1.
Definition wrapInt (z : Z) : Z := (z + 2 ^ 63) mod 2 ^ 64 - 2 ^ 63.

(** [strconv.Itoa]: decimal digits, with a leading minus sign. *)
Definition Itoa (i : Z) : string := pretty i.

(** Dynamic types, as far as the runner inspects them. *)
Inductive type : Type :=
| TBool
| TInt
| TInt64
| TUint32
| TUint64
| TString
| TAny                                  (* interface{} *)
| TError                                (* the error interface *)
| TPtr (elem : type)
| TSlice (elem : type)
| TArray (len : nat) (elem : type)
| TStruct (name : string)
| TNamed (name : string) (underlying : type).

#[global] Instance type_eq_dec : EqDecision type.
Proof. solve_decision. Defined.

(** A value held in an [any] (or [error]) variable.  [VNil] is the nil
    interface: no dynamic type, no value.  Every other constructor is a
    boxed value with a dynamic type; in particular [VPtr T None] is a nil
    pointer of type [*T] inside the box.  Elements of a slice or array whose
    element type is an interface are again such values. *)
Inductive value : Type :=
| VNil
| VBool (b : bool)
| VNum (t : type) (n : Z)
| VString (s : string)
| VPtr (elem : type) (target : option value)
| VSlice (elem : type) (items : option (list value))   (* None: nil slice *)
| VArray (elem : type) (items : list value)
| VStruct (name : string) (fields : list value)
| VNamed (name : string) (v : value).

(** [v == nil] for [v] of an interface type. *)
Definition isNil (v : value) : bool :=
  match v with VNil => true | _ => false end.

(** [reflect.TypeOf]; the nil interface has none. *)
Fixpoint typeOf (v : value) : option type :=
  match v with
  | VNil => None
  | VBool _ => Some TBool
  | VNum t _ => Some t
  | VString _ => Some TString
  | VPtr e _ => Some (TPtr e)
  | VSlice e _ => Some (TSlice e)
  | VArray e items => Some (TArray (length items) e)
  | VStruct n _ => Some (TStruct n)
  | VNamed n v => TNamed n <$> typeOf v
  end.

(** [reflect.DeepEqual].  Two nil interfaces are equal; a nil interface
    equals nothing else; values of different types are never equal; then by
    kind: arrays and structs element-wise, slices when both are nil or both
    are not and their elements are deeply equal, pointers when both are nil
    or their targets are deeply equal, the rest by [==]. *)
Fixpoint DeepEqual (x y : value) : bool :=
  let fix all2 (xs ys : list value) {struct xs} : bool :=
    match xs, ys with
    | [], [] => true
    | p :: xs', q :: ys' => DeepEqual p q && all2 xs' ys'
    | _, _ => false
    end in
  match x, y with
  | VNil, VNil => true
  | VBool a, VBool b => bool_decide (a = b)
  | VNum t a, VNum u b => bool_decide (t = u) && bool_decide (a = b)
  | VString a, VString b => bool_decide (a = b)
  | VPtr e a, VPtr f b =>
      bool_decide (e = f) &&
      match a, b with
      | None, None => true
      | Some p, Some q => DeepEqual p q
      | _, _ => false
      end
  | VSlice e a, VSlice f b =>
      bool_decide (e = f) &&
      match a, b with
      | None, None => true
      | Some xs, Some ys => all2 xs ys
      | _, _ => false
      end
  | VArray e xs, VArray f ys => bool_decide (e = f) && all2 xs ys
  | VStruct n xs, VStruct m ys => bool_decide (n = m) && all2 xs ys
  | VNamed n a, VNamed m b => bool_decide (n = m) && DeepEqual a b
  | _, _ => false
  end.

(** [strings.HasPrefix], [strings.Index] and [strings.Contains]. *)
Fixpoint HasPrefix (s pre : string) : bool :=
  match pre, s with
  | EmptyString, _ => true
  | String b pre', String a s' => bool_decide (a = b) && HasPrefix s' pre'
  | String _ _, EmptyString => false
  end.

Fixpoint Index (s substr : string) : Z :=
  if HasPrefix s substr then 0
  else match s with
       | EmptyString => -1
       | String _ s' => let i := Index s' substr in if i <? 0 then -1 else i + 1
       end.

Definition Contains (s substr : string) : bool := 0 <=? Index s substr.

(** The sequence behind a value whose kind is slice or array
    ([reflect.Value.Kind] looks through defined types); a nil slice has
    length zero. *)
Fixpoint elements (v : value) : option (list value) :=
  match v with
  | VSlice _ items => Some (default [] items)
  | VArray _ items => Some items
  | VNamed _ v' => elements v'
  | _ => None
  end.

(** The loop [for _, v := range c { if reflect.DeepEqual(v, item) { contains
    = true; break } }]. *)
Fixpoint search (c : list value) (item : value) : bool :=
  match c with
  | [] => false
  | v :: rest => if DeepEqual v item then true else search rest item
  end.

(** [msg ...string]: the caller's message, when one was given. *)
Definition message (dflt : string) (msg : list string) : string :=
  match msg with
  | [] => dflt
  | m :: _ => m
  end.

(** A formatter to run the code on concrete inputs: the verbs [%v], [%s],
    [%d] and [%%], with plain renderings of the values above. *)
Fixpoint show (v : value) : string :=
  let fix showAll (vs : list value) : string :=
    match vs with
    | [] => EmptyString
    | [x] => show x
    | x :: rest => show x +:+ " " +:+ showAll rest
    end in
  match v with
  | VNil => "<nil>"
  | VBool b => if b then "true" else "false"
  | VNum _ n => pretty n
  | VString s => s
  | VPtr _ None => "<nil>"
  | VPtr _ (Some p) => "&" +:+ show p
  | VSlice _ None => "[]"
  | VSlice _ (Some items) => "[" +:+ showAll items +:+ "]"
  | VArray _ items => "[" +:+ showAll items +:+ "]"
  | VStruct _ fields => "{" +:+ showAll fields +:+ "}"
  | VNamed _ v' => show v'
  end.

Definition isVerb (c : Ascii.ascii) : bool :=
  bool_decide (c = "v"%char) || bool_decide (c = "s"%char) || bool_decide (c = "d"%char).

Fixpoint sampleSprintf (format : string) (args : list value) : string :=
  match format with
  | EmptyString => EmptyString
  | String c rest =>
      if bool_decide (c = "%"%char) then
        match rest with
        | EmptyString => "%!(NOVERB)"
        | String d rest' =>
            if isVerb d then
              match args with
              | a :: args' => show a +:+ sampleSprintf rest' args'
              | [] => "%!" +:+ String d "(MISSING)" +:+ sampleSprintf rest' []
              end
            else if bool_decide (d = "%"%char) then String d (sampleSprintf rest' args)
            else String c (String d (sampleSprintf rest' args))
        end
      else String c (sampleSprintf rest args)
  end.

End Go.

(** ** The case file *)

Module CaseFile.

Import Go.

(** [caseImpl], the one implementation of the [Case] interface. *)
Record caseImpl : Type := mkCase {
  name : string;
  input : value;
  want : value;
  wantErr : bool;
  err : value;
}.

(** The heap of case objects.  A [Case] interface value and a [*caseBuilder]
    are both addresses into it: [caseBuilder] consists of its embedded
    [caseImpl] alone, so [&b.caseImpl] is the address of [b] itself.
    Address 0 is the nil pointer and is never allocated. *)
Abbreviation Heap := (gmap nat caseImpl).

Definition alloc (o : caseImpl) (h : Heap) : nat * Heap :=
  let a := fresh ({[0%nat]} ∪ dom h) in (a, <[a := o]> h).

(** A write through a pointer; [None] is the nil-pointer panic. *)
Definition update (f : caseImpl → caseImpl) (b : nat) (h : Heap) : option (nat * Heap) :=
  o ← h !! b; Some (b, <[b := f o]> h).

(** Accessors of the [Case] interface; [None] is the nil-pointer panic. *)
Definition Name (h : Heap) (c : nat) : option string := name <$> h !! c.
Definition Input (h : Heap) (c : nat) : option value := input <$> h !! c.
Definition Want (h : Heap) (c : nat) : option value := want <$> h !! c.
Definition WantErr (h : Heap) (c : nat) : option bool := wantErr <$> h !! c.
Definition Err (h : Heap) (c : nat) : option value := err <$> h !! c.

Definition NewCase (name : string) (input want : value) (wantErr : bool) (err : value)
    (h : Heap) : nat * Heap :=
  alloc (mkCase name input want wantErr err) h.

(** [&caseBuilder{caseImpl: caseImpl{name: name}}]: the other fields have
    their zero values. *)
Definition CaseBuilder (name : string) (h : Heap) : nat * Heap :=
  alloc (mkCase name VNil VNil false VNil) h.

Definition SetName (b : nat) (v : string) (h : Heap) : option (nat * Heap) :=
  update (λ o, mkCase v (input o) (want o) (wantErr o) (err o)) b h.
Definition SetInput (b : nat) (v : value) (h : Heap) : option (nat * Heap) :=
  update (λ o, mkCase (name o) v (want o) (wantErr o) (err o)) b h.
Definition SetWant (b : nat) (v : value) (h : Heap) : option (nat * Heap) :=
  update (λ o, mkCase (name o) (input o) v (wantErr o) (err o)) b h.
Definition SetWantErr (b : nat) (v : bool) (h : Heap) : option (nat * Heap) :=
  update (λ o, mkCase (name o) (input o) (want o) v (err o)) b h.
Definition SetErr (b : nat) (v : value) (h : Heap) : option (nat * Heap) :=
  update (λ o, mkCase (name o) (input o) (want o) (wantErr o) v) b h.

(** [return &b.caseImpl]: no copy is made, no store is touched. *)
Definition Build (b : nat) (h : Heap) : nat * Heap := (b, h).

(** One call of a builder setter, and a chain of them in call order. *)
Inductive setter : Type :=
| CallName (v : string)
| CallInput (v : value)
| CallWant (v : value)
| CallWantErr (v : bool)
| CallErr (v : value).

Definition call (s : setter) (b : nat) (h : Heap) : option (nat * Heap) :=
  match s with
  | CallName v => SetName b v h
  | CallInput v => SetInput b v h
  | CallWant v => SetWant b v h
  | CallWantErr v => SetWantErr b v h
  | CallErr v => SetErr b v h
  end.

Fixpoint chain (ss : list setter) (b : nat) (h : Heap) : option (nat * Heap) :=
  match ss with
  | [] => Some (b, h)
  | s :: rest => '(b', h') ← call s b h; chain rest b' h'
  end.

(** What a setter writes into a case object. *)
Definition write (s : setter) (o : caseImpl) : caseImpl :=
  match s with
  | CallName v => mkCase v (input o) (want o) (wantErr o) (err o)
  | CallInput v => mkCase (name o) v (want o) (wantErr o) (err o)
  | CallWant v => mkCase (name o) (input o) v (wantErr o) (err o)
  | CallWantErr v => mkCase (name o) (input o) (want o) v (err o)
  | CallErr v => mkCase (name o) (input o) (want o) (wantErr o) v
  end.

(** The value a chain leaves in each field: that of the last call of the
    field's setter, or the starting value when the chain has none. *)
Fixpoint lastName (d : string) (ss : list setter) : string :=
  match ss with
  | [] => d
  | CallName v :: rest => lastName v rest
  | _ :: rest => lastName d rest
  end.
Fixpoint lastInput (d : value) (ss : list setter) : value :=
  match ss with
  | [] => d
  | CallInput v :: rest => lastInput v rest
  | _ :: rest => lastInput d rest
  end.
Fixpoint lastWant (d : value) (ss : list setter) : value :=
  match ss with
  | [] => d
  | CallWant v :: rest => lastWant v rest
  | _ :: rest => lastWant d rest
  end.
Fixpoint lastWantErr (d : bool) (ss : list setter) : bool :=
  match ss with
  | [] => d
  | CallWantErr v :: rest => lastWantErr v rest
  | _ :: rest => lastWantErr d rest
  end.
Fixpoint lastErr (d : value) (ss : list setter) : value :=
  match ss with
  | [] => d
  | CallErr v :: rest => lastErr v rest
  | _ :: rest => lastErr d rest
  end.

(** The field a setter assigns. *)
Inductive field : Type := FName | FInput | FWant | FWantErr | FErr.

Definition fieldOf (s : setter) : field :=
  match s with
  | CallName _ => FName
  | CallInput _ => FInput
  | CallWant _ => FWant
  | CallWantErr _ => FWantErr
  | CallErr _ => FErr
  end.

(** The builder path of the package documentation:
    [CaseBuilder(name).Input(input).Want(want).WantErr(wantErr).Err(err).Build()]. *)
Definition built (name : string) (input want : value) (wantErr : bool) (err : value)
    (h : Heap) : option (nat * Heap) :=
  let '(b, h0) := CaseBuilder name h in
  '(b1, h1) ← SetInput b input h0;
  '(b2, h2) ← SetWant b1 want h1;
  '(b3, h3) ← SetWantErr b2 wantErr h2;
  '(b4, h4) ← SetErr b3 err h3;
  Some (Build b4 h4).

End CaseFile.

(** ** The host: Go's testing.T, and the runner file *)

Module Got.

Import Go.
Export CaseFile.

Local Open Scope Z_scope.

(** *** Outcomes of a call

    A call returns, or ends the goroutine it runs in ([runtime.Goexit], the
    way [FailNow] and [SkipNow] stop a test), or panics, or the process dies
    (a panic that reached the top of a goroutine). *)
Inductive outcome (A : Type) : Type :=
| Returns (a : A)
| Goexit
| Panics (v : value)
| Dies (v : value).
Arguments Returns {A} a.
Arguments Goexit {A}.
Arguments Panics {A} v.
Arguments Dies {A} v.

(** *** The state of one [testing.T]

    [t_ancestors] is the chain of [parent] pointers, nearest first. *)
Record TState : Type := mkT {
  t_name : string;
  t_ancestors : list nat;
  t_failed : bool;
  t_skipped : bool;
  t_finished : bool;
  t_isParallel : bool;
  t_isEnvSet : bool;
  t_cleanups : nat;
}.

(** *** The runner, [type R struct] *)
Record R : Type := mkR {
  title : string;
  caseNum : Z;
  prefix : string;
  startTime : Z;
  benchmark : bool;
  parallel : bool;
  T : nat;                               (* the embedded *testing.T *)
}.

(** What the host sees, in the order it happens: the lines logged on a
    test, the calls of [Fail] on it, and the start and end of each subtest. *)
Inductive Event : Type :=
| EvLog (t : nat) (line : string)
| EvFail (t : nat)
| EvStart (parent : nat) (name : string) (sub : nat)
| EvEnd (sub : nat).

(** [runtime.MemStats], the four fields the runner reads. *)
Record MemStats : Type := mkMemStats {
  Alloc : Z;
  TotalAlloc : Z;
  Sys : Z;
  NumGC : Z;
}.

(** The process: the tests and runners allocated so far (address 0 is nil
    and never allocated), the log, the environment variables, and what the
    surroundings would answer to the runner's queries. *)
Record World : Type := mkWorld {
  tests : gmap nat TState;
  runners : gmap nat R;
  trace : list Event;
  environ : gmap string string;
  clock : Z;                             (* time.Now, in nanoseconds *)
  memStats : MemStats;
  numGoroutine : Z;
  deadline : option Z;
  tempDir : string + string;             (* os.MkdirTemp: the parent made, or the error *)
  tempDirs : gmap nat nat;               (* per test, the directories handed out so far *)
  overruns : list Z;                     (* how much longer than asked the sleeps to come take *)
}.

Definition withTests (ts : gmap nat TState) (w : World) : World :=
  mkWorld ts (runners w) (trace w) (environ w) (clock w)
          (memStats w) (numGoroutine w) (deadline w) (tempDir w) (tempDirs w) (overruns w).
Definition withRunners (rs : gmap nat R) (w : World) : World :=
  mkWorld (tests w) rs (trace w) (environ w) (clock w)
          (memStats w) (numGoroutine w) (deadline w) (tempDir w) (tempDirs w) (overruns w).
Definition withTrace (tr : list Event) (w : World) : World :=
  mkWorld (tests w) (runners w) tr (environ w) (clock w)
          (memStats w) (numGoroutine w) (deadline w) (tempDir w) (tempDirs w) (overruns w).
Definition withEnviron (e : gmap string string) (w : World) : World :=
  mkWorld (tests w) (runners w) (trace w) e (clock w)
          (memStats w) (numGoroutine w) (deadline w) (tempDir w) (tempDirs w) (overruns w).
Definition withClock (c : Z) (w : World) : World :=
  mkWorld (tests w) (runners w) (trace w) (environ w) c
          (memStats w) (numGoroutine w) (deadline w) (tempDir w) (tempDirs w) (overruns w).
Definition withTempDirs (ds : gmap nat nat) (w : World) : World :=
  mkWorld (tests w) (runners w) (trace w) (environ w) (clock w)
          (memStats w) (numGoroutine w) (deadline w) (tempDir w) ds (overruns w).
Definition withOverruns (os : list Z) (w : World) : World :=
  mkWorld (tests w) (runners w) (trace w) (environ w) (clock w)
          (memStats w) (numGoroutine w) (deadline w) (tempDir w) (tempDirs w) os.

(** *** The monad of calls *)
Definition M (A : Type) : Type := World → outcome A * World.

#[global] Instance M_ret : MRet M := λ A a w, (Returns a, w).
#[global] Instance M_bind : MBind M := λ A B f m w,
  match m w with
  | (Returns a, w') => f a w'
  | (Goexit, w') => (Goexit, w')
  | (Panics v, w') => (Panics v, w')
  | (Dies v, w') => (Dies v, w')
  end.

(** A state transformer written out, as a call. *)
Definition act {A} (f : World → outcome A * World) : M A := f.

Definition panic {A} (v : value) : M A := λ w, (Panics v, w).
Definition goexit {A} : M A := λ w, (Goexit, w).

(** The run-time panic of a nil (or dangling) pointer dereference. *)
Definition nilDeref : value :=
  VNamed "runtime.Error" (VString "invalid memory address or nil pointer dereference").

Definition getT (t : nat) : M TState := λ w,
  match tests w !! t with
  | Some s => (Returns s, w)
  | None => (Panics nilDeref, w)
  end.
Definition setT (t : nat) (s : TState) : M unit := λ w,
  (Returns (), withTests (<[t := s]> (tests w)) w).
Definition emit (e : Event) : M unit := λ w,
  (Returns (), withTrace (trace w ++ [e]) w).

(** A write of some fields of a test, from its current state. *)
Definition modifyT (t : nat) (f : TState → TState) : M unit :=
  s ← getT t; setT t (f s).

Definition getR (r : nat) : M R := λ w,
  match runners w !! r with
  | Some x => (Returns x, w)
  | None => (Panics nilDeref, w)
  end.
Definition setR (r : nat) (x : R) : M unit := λ w,
  (Returns (), withRunners (<[r := x]> (runners w)) w).
Definition allocR (x : R) : M nat := λ w,
  let a := fresh ({[0%nat]} ∪ dom (runners w)) in
  (Returns a, withRunners (<[a := x]> (runners w)) w).

Definition setFailed (s : TState) : TState :=
  mkT (t_name s) (t_ancestors s) true (t_skipped s) (t_finished s)
      (t_isParallel s) (t_isEnvSet s) (t_cleanups s).
Definition setFinished (s : TState) : TState :=
  mkT (t_name s) (t_ancestors s) (t_failed s) (t_skipped s) true
      (t_isParallel s) (t_isEnvSet s) (t_cleanups s).
Definition setSkipped (s : TState) : TState :=
  mkT (t_name s) (t_ancestors s) (t_failed s) true (t_finished s)
      (t_isParallel s) (t_isEnvSet s) (t_cleanups s).
Definition setParallel (s : TState) : TState :=
  mkT (t_name s) (t_ancestors s) (t_failed s) (t_skipped s) (t_finished s)
      true (t_isEnvSet s) (t_cleanups s).
Definition setEnvSet (s : TState) : TState :=
  mkT (t_name s) (t_ancestors s) (t_failed s) (t_skipped s) (t_finished s)
      (t_isParallel s) true (t_cleanups s).
Definition addCleanup (s : TState) : TState :=
  mkT (t_name s) (t_ancestors s) (t_failed s) (t_skipped s) (t_finished s)
      (t_isParallel s) (t_isEnvSet s) (S (t_cleanups s)).

(** Observations on a world. *)
Definition failed (w : World) (t : nat) : bool :=
  match tests w !! t with Some s => t_failed s | None => false end.
Definition finished (w : World) (t : nat) : bool :=
  match tests w !! t with Some s => t_finished s | None => false end.
Definition skipped (w : World) (t : nat) : bool :=
  match tests w !! t with Some s => t_skipped s | None => false end.
Definition counter (w : World) (r : nat) : option Z := caseNum <$> runners w !! r.

(** *** Sample data for concrete runs

    A process with one test at address 1, before and after
    [got.New(t, "Sample")], and the two cases of the package's example. *)
Definition sampleT : TState := mkT "TestSample" [] false false false false false 0.
Definition sampleWorld : World :=
  mkWorld {[ 1%nat := sampleT ]} ∅ [] ∅ 1000 (mkMemStats 2048 4096 8192 3) 2 None
          (inl "/tmp/TestSample123") ∅ [7].
Definition sampleBound : World :=
  mkWorld {[ 1%nat := sampleT ]} {[ 1%nat := mkR "Sample" 0 EmptyString 1000 false false 1 ]}
          [EvLog 1 "Test Case => Sample"] ∅ 1000 (mkMemStats 2048 4096 8192 3) 2 None
          (inl "/tmp/TestSample123") ∅ [7].
Definition sampleCases : list caseImpl :=
  [ mkCase "case1" (VNum TInt 1) (VNum TInt 1) false VNil;
    mkCase "case2" (VNum TInt 2) (VNum TInt 3) false VNil ].
(** The same two cases, the one whose input differs from its expected
    output first. *)
Definition sampleCasesFailingFirst : list caseImpl :=
  [ mkCase "case2" (VNum TInt 2) (VNum TInt 3) false VNil;
    mkCase "case1" (VNum TInt 1) (VNum TInt 1) false VNil ].

(** The names of the subtests started in a trace, and the lines logged on
    a test, in order. *)
Fixpoint started (tr : list Event) : list string :=
  match tr with
  | [] => []
  | EvStart _ name _ :: rest => name :: started rest
  | _ :: rest => started rest
  end.
Fixpoint logs (t : nat) (tr : list Event) : list string :=
  match tr with
  | [] => []
  | EvLog t' line :: rest => if bool_decide (t' = t) then line :: logs t rest else logs t rest
  | _ :: rest => logs t rest
  end.

(** *** The host's operations

    [fmt.Sprintf] is the formatter of the standard library; the development
    is carried out for an arbitrary one. *)
Section WithFormatter.

Variable Sprintf : string → list value → string.

(** [t.Log(s)] for one string, and [t.Logf]. *)
Definition T_Log (t : nat) (s : string) : M unit :=
  _ ← getT t; emit (EvLog t s).
Definition T_Logf (t : nat) (format : string) (args : list value) : M unit :=
  T_Log t (Sprintf format args).

(** [t.Fail]: the test and every enclosing test are marked failed; the
    goroutine goes on. *)
Definition T_Fail (t : nat) : M unit :=
  s ← getT t;
  _ ← emit (EvFail t);
  act (λ w, (Returns (), withTests (foldr (alter setFailed) (tests w) (t :: t_ancestors s)) w)).
Definition T_Errorf (t : nat) (format : string) (args : list value) : M unit :=
  _ ← T_Logf t format args; T_Fail t.

(** [t.FailNow]: [Fail], then the test is marked finished and the calling
    goroutine exits. *)
Definition T_FailNow (t : nat) : M unit :=
  _ ← T_Fail t;
  s ← getT t;
  _ ← setT t (setFinished s);
  goexit.
Definition T_Fatalf (t : nat) (format : string) (args : list value) : M unit :=
  _ ← T_Logf t format args; T_FailNow t.

(** [t.SkipNow] and [t.Skipf]. *)
Definition T_SkipNow (t : nat) : M unit :=
  s ← getT t;
  _ ← setT t (setFinished (setSkipped s));
  goexit.
Definition T_Skipf (t : nat) (format : string) (args : list value) : M unit :=
  _ ← T_Logf t format args; T_SkipNow t.

Definition newT (s : TState) : M nat := λ w,
  let a := fresh ({[0%nat]} ∪ dom (tests w)) in
  (Returns a, withTests (<[a := s]> (tests w)) w).

Definition errNilPanicOrGoexit : value :=
  VString "test executed panic(nil) or runtime.Goexit".

(** The end of a subtest whose goroutine was not torn down from outside:
    it is finished, and [Run] reports whether it passed. *)
Definition endT (sub : nat) : M bool :=
  s ← getT sub;
  _ ← setT sub (setFinished s);
  _ ← emit (EvEnd sub);
  mret (negb (t_failed s)).

(** [t.Run(name, f)].  The subtest gets a fresh [testing.T] whose parent is
    [t]; [f] runs on it in a goroutine of its own, and [Run] waits for it.
    - [f] returns: the subtest is finished.
    - The goroutine exits and the subtest is finished (its own [FailNow] or
      [SkipNow]): likewise.
    - The goroutine exits and the subtest is not finished, but an enclosing
      test is (a [FailNow] or [SkipNow] was called on it from inside the
      subtest): the subtest records an error saying so and [Run] exits the
      calling goroutine in turn, aborting up the chain.
    - The goroutine exits for no such reason, or panics: the process dies.
    No subtest is filtered out ([-run]) or cut short ([-failfast]). *)
Definition T_Run (t : nat) (name : string) (f : nat → M unit) : M bool :=
  s ← getT t;
  sub ← newT (mkT (t_name s +:+ "/" +:+ name) (t :: t_ancestors s)
                  false false false false false 0);
  _ ← emit (EvStart t name sub);
  act (λ w,
    match f sub w with
    | (Returns _, w1) => endT sub w1
    | (Goexit, w1) =>
        if finished w1 sub then endT sub w1
        else if existsb (finished w1) (t :: t_ancestors s) then
          (_ ← T_Errorf sub "%v: subtest may have called FailNow on a parent test"
                        [errNilPanicOrGoexit];
           _ ← emit (EvEnd sub);
           goexit) w1
        else (Dies errNilPanicOrGoexit, w1)
    | (Panics v, w1) => (Dies v, w1)
    | (Dies v, w1) => (Dies v, w1)
    end).

(** [t.Parallel]: refused (by a panic) when called twice or after
    [Setenv]; the pause until the sequential tests are done is not shown. *)
Definition T_Parallel (t : nat) : M unit :=
  s ← getT t;
  if t_isParallel s then panic (VString "testing: t.Parallel called multiple times")
  else if t_isEnvSet s then panic (VString "testing: t.Parallel called after t.Setenv")
  else modifyT t setParallel.

(** [os.Setenv] rejects an empty key, a key with [=] or NUL, and a value
    with NUL. *)
Definition NUL : string := String (Ascii.ascii_of_nat 0) EmptyString.
Definition invalidEnv (key val : string) : bool :=
  bool_decide (key = EmptyString) || Contains key "=" || Contains key NUL || Contains val NUL.

(** [t.Setenv]: refused (by a panic) in a parallel test or under a parallel
    ancestor; fatal when [os.Setenv] fails; otherwise the variable is set
    and a cleanup restoring it is registered. *)
Definition T_Setenv (t : nat) (key val : string) : M unit :=
  s ← getT t;
  isParallel ← act (λ w,
    (Returns (existsb (λ a, match tests w !! a with
                            | Some x => t_isParallel x
                            | None => false
                            end) (t :: t_ancestors s)), w));
  if (isParallel : bool)
  then panic (VString "testing: t.Setenv called after t.Parallel")
  else
    _ ← modifyT t setEnvSet;
    if invalidEnv key val
    then T_Fatalf t "cannot set environment variable: %v" [VString "setenv: invalid argument"]
    else
      _ ← act (λ w, (Returns (), withEnviron (<[key := val]> (environ w)) w));
      modifyT t addCleanup.

(** [os.Getenv]. *)
Definition os_Getenv (key : string) : M string := λ w,
  (Returns (default EmptyString (environ w !! key)), w).

(** [t.Cleanup(fn)]: [fn] is kept for the end of the test; the store only
    counts the registrations. *)
Definition T_Cleanup {F : Type} (t : nat) (fn : F) : M unit :=
  modifyT t addCleanup.

Definition T_Helper (t : nat) : M unit :=
  _ ← getT t; mret ().

(** [t.TempDir].  The first call on a test makes the test's parent
    directory and registers the cleanup that removes it; every call then
    makes the next numbered directory under the parent,
    [fmt.Sprintf("%s%c%03d", parent, os.PathSeparator, seq)], and returns
    it.  When the host cannot make a directory the test is failed and
    halted. *)
Definition pad3 (seq : nat) : string :=
  (if (seq <? 10)%nat then "00" else if (seq <? 100)%nat then "0" else "") +:+ pretty seq.
Definition T_TempDir (t : nat) : M string :=
  _ ← getT t;
  act (λ w,
    match tempDir w with
    | inl parent =>
        (_ ← (if tempDirs w !! t is Some _ then mret () else modifyT t addCleanup);
         act (λ w1,
           let seq := S (default 0%nat (tempDirs w1 !! t)) in
           (Returns (parent +:+ "/" +:+ pad3 seq),
            withTempDirs (<[t := seq]> (tempDirs w1)) w1))) w
    | inr e => (_ ← T_Fatalf t "TempDir: %v" [VString e]; mret EmptyString) w
    end).

Definition T_Deadline (t : nat) : M (option Z) :=
  _ ← getT t; act (λ w, (Returns (deadline w), w)).

Definition T_Name (t : nat) : M string :=
  s ← getT t; mret (t_name s).

Definition time_Now : M Z := λ w, (Returns (clock w), w).
Definition time_Since (start : Z) : M Z := λ w, (Returns (clock w - start), w).
(** [time.Sleep(d)] pauses for at least [d]; how much longer is up to the
    scheduler, and the world holds that for the sleeps to come. *)
Definition time_Sleep (d : Z) : M unit := λ w,
  (Returns (),
   withOverruns (tail (overruns w))
     (withClock (clock w + Z.max 0 d + Z.max 0 (hd 0 (overruns w))) w)).

Definition Time (ns : Z) : value := VStruct "time.Time" [VNum TInt64 ns].
Definition Duration (ns : Z) : value := VNamed "time.Duration" (VNum TInt64 ns).

(** *** The runner file *)

Definition ESC : string := String (Ascii.ascii_of_nat 27) EmptyString.
Definition TAB : string := String (Ascii.ascii_of_nat 9) EmptyString.
Definition checkMark : string := ESC +:+ "[32m✓" +:+ ESC +:+ "[0m".
Definition ballotX : string := ESC +:+ "[31m✗" +:+ ESC +:+ "[0m".

Definition nil : nat := 0%nat.

Definition withCaseNum (n : Z) (x : R) : R :=
  mkR (title x) n (prefix x) (startTime x) (benchmark x) (parallel x) (T x).
Definition withPrefix (p : string) (x : R) : R :=
  mkR (title x) (caseNum x) p (startTime x) (benchmark x) (parallel x) (T x).
Definition withStartTime (t0 : Z) (x : R) : R :=
  mkR (title x) (caseNum x) (prefix x) t0 (benchmark x) (parallel x) (T x).
Definition withBenchmark (b : bool) (x : R) : R :=
  mkR (title x) (caseNum x) (prefix x) (startTime x) b (parallel x) (T x).
Definition withParallel (b : bool) (x : R) : R :=
  mkR (title x) (caseNum x) (prefix x) (startTime x) (benchmark x) b (T x).

(** A field assignment [r.f = v]. *)
Definition modifyR (r : nat) (f : R → R) : M unit :=
  x ← getR r; setR r (f x).

Definition New (t : nat) (title : string) : M nat :=
  _ ← T_Log t ("Test Case => " +:+ title);
  now ← time_Now;
  allocR (mkR title 0 EmptyString now false false t).

Definition Case (r : nat) (format : string) (args : list value) : M nat :=
  _ ← modifyR r (λ x, withCaseNum (wrapInt (caseNum x + 1)) x);
  _ ← modifyR r (λ x, withPrefix ("Case " +:+ Itoa (caseNum x) +:+ " -> ") x);
  x ← getR r;
  _ ← T_Logf (T x) (prefix x +:+ format) args;
  mret r.

Definition Run (r : nat) (name : string) (f : nat → M unit) : M nat :=
  x ← getR r;
  _ ← T_Run (T x) name (λ tt, f tt);
  mret r.

Definition Caser (r : nat) (name : string) (f : nat → M unit) : M nat :=
  _ ← Case r name [];
  _ ← Run r name f;
  mret r.

(** A case is read through its accessors; the record holds what they
    return. *)
Fixpoint Cases (r : nat) (cases : list caseImpl) (f : caseImpl → nat → M unit) : M unit :=
  match cases with
  | [] => mret ()
  | c :: rest =>
      _ ← Case r (name c) [];
      _ ← Run r (name c) (λ tt, f c tt);
      Cases r rest f
  end.

Definition prependTag (tag : value) (args : list value) : list value :=
  if bool_decide (length args = 0%nat) then [tag]
  else [] ++ [tag] ++ args.

Definition Pass (r : nat) (format : string) (args : list value) : M unit :=
  x ← getR r;
  T_Logf (T x) (TAB +:+ "%s " +:+ format) (prependTag (VString checkMark) args).

Definition Fail (r : nat) (format : string) (args : list value) : M unit :=
  x ← getR r;
  T_Errorf (T x) (TAB +:+ "%s " +:+ format) (prependTag (VString ballotX) args).

Definition Fatal (r : nat) (format : string) (args : list value) : M unit :=
  x ← getR r;
  T_Fatalf (T x) (TAB +:+ "%s " +:+ format) (prependTag (VString ballotX) args).

Definition Require (r : nat) (cond : bool) (desc : string) (args : list value) : M unit :=
  if cond then Pass r desc args
  else Fail r desc args.

Definition FailNow (r : nat) (cond : bool) (desc : string) (args : list value) : M unit :=
  if cond then Pass r desc args
  else
    _ ← Fail r desc args;
    x ← getR r;
    T_FailNow (T x).

Definition AssertNoErrf (r : nat) (err : value) (desc : string) (args : list value) : M unit :=
  if isNil err then Pass r desc args
  else
    _ ← Fail r desc args;
    x ← getR r;
    _ ← T_Logf (T x) "requires no error, but found: %v" [err];
    T_FailNow (T x).

Definition AssertNoErr (r : nat) (err : value) : M unit :=
  AssertNoErrf r err "error unexpected" [].

Definition AssertErrf (r : nat) (err : value) (desc : string) (args : list value) : M unit :=
  if isNil err then
    _ ← Fail r desc args;
    x ← getR r;
    _ ← T_Logf (T x) "requires error, but found nil" [];
    T_FailNow (T x)
  else Pass r desc args.

Definition AssertErr (r : nat) (err : value) : M unit :=
  AssertErrf r err "error expected" [].

Definition StartTimer (r : nat) : M nat :=
  now ← time_Now;
  _ ← modifyR r (withStartTime now);
  _ ← Case r "Starting test timer" [];
  mret r.

Definition StopTimer (r : nat) : M nat :=
  x ← getR r;
  duration ← time_Since (startTime x);
  _ ← Case r "Test completed in %v" [Duration duration];
  mret r.

(** The callback [f] is never called. *)
Definition Benchmark {F : Type} (r : nat) (name : string) (f : F) : M nat :=
  _ ← Case r "Benchmark: %s" [VString name];
  _ ← modifyR r (withBenchmark true);
  _ ← Run r name (λ t,
        x ← getR r;
        T_Logf (T x) "Running benchmark: %s" [VString name]);
  _ ← modifyR r (withBenchmark false);
  mret r.

Definition Parallel (r : nat) : M nat :=
  _ ← modifyR r (withParallel true);
  x ← getR r;
  _ ← T_Parallel (T x);
  _ ← Case r "Test marked as parallel" [];
  mret r.

Definition Skip (r : nat) (reason : string) (args : list value) : M nat :=
  _ ← Case r ("Skipping test: " +:+ reason) args;
  x ← getR r;
  _ ← T_Skipf (T x) reason args;
  mret r.

Definition SkipIf (r : nat) (condition : bool) (reason : string) (args : list value) : M nat :=
  _ ← (if condition then _ ← Skip r reason args; mret () else mret ());
  mret r.

Definition SkipUnless (r : nat) (condition : bool) (reason : string) (args : list value) : M nat :=
  _ ← (if negb condition then _ ← Skip r reason args; mret () else mret ());
  mret r.

Definition Cleanup {F : Type} (r : nat) (fn : F) : M nat :=
  x ← getR r;
  _ ← T_Cleanup (T x) fn;
  _ ← Case r "Cleanup function registered" [];
  mret r.

Definition Helper (r : nat) : M nat :=
  x ← getR r;
  _ ← T_Helper (T x);
  mret r.

Definition TempDir (r : nat) : M string :=
  x ← getR r;
  T_TempDir (T x).

Definition Setenv (r : nat) (key val : string) : M nat :=
  x ← getR r;
  _ ← T_Setenv (T x) key val;
  _ ← Case r "Environment variable set: %s=%s" [VString key; VString val];
  mret r.

(** The receiver is not used. *)
Definition Getenv (r : nat) (key : string) : M string :=
  os_Getenv key.

Definition Deadline (r : nat) : M (option Z) :=
  x ← getR r;
  T_Deadline (T x).

(** The callback [fn] is never called. *)
Definition RunParallel {F : Type} (r : nat) (fn : F) : M nat :=
  _ ← Case r "Running tests in parallel" [];
  mret r.

Definition MemoryUsage (r : nat) : M nat :=
  m ← act (λ w, (Returns (memStats w), w));
  _ ← Case r "Memory Usage" [];
  x ← getR r;
  _ ← T_Logf (T x) "Alloc: %d KB" [VNum TUint64 (Alloc m / 1024)];
  _ ← T_Logf (T x) "TotalAlloc: %d KB" [VNum TUint64 (TotalAlloc m / 1024)];
  _ ← T_Logf (T x) "Sys: %d KB" [VNum TUint64 (Sys m / 1024)];
  _ ← T_Logf (T x) "NumGC: %d" [VNum TUint32 (NumGC m)];
  mret r.

Definition GoroutineCount (r : nat) : M nat :=
  count ← act (λ w, (Returns (numGoroutine w), w));
  _ ← Case r "Goroutine count: %d" [VNum TInt count];
  mret r.

Definition TestInfo (r : nat) : M nat :=
  _ ← Case r "Test Information" [];
  x ← getR r;
  testName ← T_Name (T x);
  _ ← T_Logf (T x) "Test Name: %s" [VString testName];
  _ ← T_Logf (T x) "Start Time: %v" [Time (startTime x)];
  since ← time_Since (startTime x);
  _ ← T_Logf (T x) "Duration: %v" [Duration since];
  _ ← T_Logf (T x) "Parallel: %v" [VBool (parallel x)];
  _ ← T_Logf (T x) "Benchmark: %v" [VBool (benchmark x)];
  _ ← GoroutineCount r;
  _ ← MemoryUsage r;
  mret r.

Definition AssertEqual (r : nat) (expected actual : value) (msg : list string) : M nat :=
  _ ← (if negb (DeepEqual expected actual)
       then Fail r (message (Sprintf "Expected %v, got %v" [expected; actual]) msg) []
       else Pass r "Values are equal" []);
  mret r.

Definition AssertNotEqual (r : nat) (expected actual : value) (msg : list string) : M nat :=
  _ ← (if DeepEqual expected actual
       then Fail r (message (Sprintf "Expected values to be different, but both are %v"
                                     [expected]) msg) []
       else Pass r "Values are not equal" []);
  mret r.

Definition AssertNil (r : nat) (v : value) (msg : list string) : M nat :=
  _ ← (if negb (isNil v)
       then Fail r (message (Sprintf "Expected nil, got %v" [v]) msg) []
       else Pass r "Value is nil" []);
  mret r.

Definition AssertNotNil (r : nat) (v : value) (msg : list string) : M nat :=
  _ ← (if isNil v
       then Fail r (message "Expected non-nil value, got nil" msg) []
       else Pass r "Value is not nil" []);
  mret r.

Definition AssertTrue (r : nat) (condition : bool) (msg : list string) : M nat :=
  _ ← (if negb condition
       then Fail r (message "Expected condition to be true" msg) []
       else Pass r "Condition is true" []);
  mret r.

Definition AssertFalse (r : nat) (condition : bool) (msg : list string) : M nat :=
  _ ← (if condition
       then Fail r (message "Expected condition to be false" msg) []
       else Pass r "Condition is false" []);
  mret r.

(** The type switch shared by [AssertContains] and [AssertNotContains]:
    a [string] container with a [string] item, a [[]any] container, and by
    reflection any other slice or array. *)
Definition contains (container item : value) : bool :=
  match container with
  | VString c =>
      match item with
      | VString itemStr => Contains c itemStr
      | _ => false
      end
  | VSlice TAny c => search (default [] c) item
  | _ =>
      match elements container with
      | Some c => search c item
      | None => false
      end
  end.

Definition AssertContains (r : nat) (container item : value) (msg : list string) : M nat :=
  _ ← (if negb (contains container item)
       then Fail r (message (Sprintf "Expected %v to contain %v" [container; item]) msg) []
       else Pass r "Container contains item" []);
  mret r.

Definition AssertNotContains (r : nat) (container item : value) (msg : list string) : M nat :=
  _ ← (if contains container item
       then Fail r (message (Sprintf "Expected %v not to contain %v" [container; item]) msg) []
       else Pass r "Container does not contain item" []);
  mret r.

(** A function body with one deferred call that recovers: the deferred call
    sees [nil] unless the body panicked; a recovered panic makes the function
    return its zero results; an exiting goroutine keeps exiting. *)
Definition withRecover {A} (body : M A) (deferred : value → M unit) (zero : A) : M A :=
  act (λ w,
    match body w with
    | (Returns a, w1) => (_ ← deferred VNil; mret a) w1
    | (Goexit, w1) => (_ ← deferred VNil; goexit) w1
    | (Panics v, w1) => (_ ← deferred v; mret zero) w1
    | (Dies v, w1) => (Dies v, w1)
    end).

Definition AssertPanics (r : nat) (fn : M unit) (msg : list string) : M nat :=
  withRecover
    (_ ← fn;
     _ ← Fail r "Expected function to panic" [];
     mret r)
    (λ recovered,
       if isNil recovered
       then Fail r (message "Expected function to panic" msg) []
       else Pass r "Function panicked as expected" [])
    nil.

Definition AssertNotPanics (r : nat) (fn : M unit) (msg : list string) : M nat :=
  withRecover
    (_ ← fn;
     mret r)
    (λ recovered,
       if negb (isNil recovered)
       then Fail r (message (Sprintf "Expected function not to panic, but it panicked with %v"
                                     [recovered]) msg) []
       else Pass r "Function did not panic" [])
    nil.

(** [prependTag] as the earlier revision of the runner file has it: the
    test is [args == nil] instead of [len(args) == 0].  [None] is the nil
    slice of a call without arguments. *)
Definition prependTag_v1 (tag : value) (args : option (list value)) : list value :=
  match args with
  | None => [tag]
  | Some args => [tag] ++ args
  end.

(** *** Test bodies

    The code of a test or subtest function that drives the runner [r]: a
    sequence of calls on [r], of calls on the [*testing.T] the function was
    given, of sleeps and of panics.  [exec r p tt] runs the body [p] on the
    test [tt]. *)
Inductive Op : Type :=
| OCase (format : string) (args : list value)
| OPass (format : string) (args : list value)
| OFail (format : string) (args : list value)
| OFatal (format : string) (args : list value)
| ORequire (cond : bool) (desc : string) (args : list value)
| OFailNow (cond : bool) (desc : string) (args : list value)
| OAssertNoErr (err : value)
| OAssertNoErrf (err : value) (desc : string) (args : list value)
| OAssertErr (err : value)
| OAssertErrf (err : value) (desc : string) (args : list value)
| OStartTimer
| OStopTimer
| OBenchmark (name : string)
| OParallel
| OSkip (reason : string) (args : list value)
| OSkipIf (condition : bool) (reason : string) (args : list value)
| OSkipUnless (condition : bool) (reason : string) (args : list value)
| OHelper
| OTempDir
| OSetenv (key val : string)
| OGetenv (key : string)
| ODeadline
| ORunParallel
| OMemoryUsage
| OGoroutineCount
| OTestInfo
| OAssertEqual (expected actual : value) (msg : list string)
| OAssertNotEqual (expected actual : value) (msg : list string)
| OAssertNil (v : value) (msg : list string)
| OAssertNotNil (v : value) (msg : list string)
| OAssertTrue (condition : bool) (msg : list string)
| OAssertFalse (condition : bool) (msg : list string)
| OAssertContains (container item : value) (msg : list string)
| OAssertNotContains (container item : value) (msg : list string)
| TLogf (format : string) (args : list value)        (* tt.Logf *)
| TErrorf (format : string) (args : list value)      (* tt.Errorf *)
| TFatalf (format : string) (args : list value)      (* tt.Fatalf *)
| TFailNow                                           (* tt.FailNow *)
| TSkipNow                                           (* tt.SkipNow *)
| OSleep (d : Z)                                     (* time.Sleep *)
| OPanic (v : value).                                (* panic(v) *)

Inductive Prog : Type :=
| Done
| Do (o : Op) (k : Prog)
| DoRun (name : string) (body : Prog) (k : Prog)
| DoCaser (name : string) (body : Prog) (k : Prog)
| DoCases (cases : list caseImpl) (f : caseImpl → Prog) (k : Prog)
| DoCleanup (fn : Prog) (k : Prog)
| DoAssertPanics (fn : Prog) (msg : list string) (k : Prog)
| DoAssertNotPanics (fn : Prog) (msg : list string) (k : Prog).

(** [panic(nil)] is turned into a [*runtime.PanicNilError] (Go 1.21). *)
Definition PanicNilError : value :=
  VPtr (TStruct "runtime.PanicNilError") (Some (VStruct "runtime.PanicNilError" [])).
Definition go_panic {A} (v : value) : M A :=
  panic (if isNil v then PanicNilError else v).

Definition void {A} (m : M A) : M unit := _ ← m; mret ().

Definition execOp (r tt : nat) (o : Op) : M unit :=
  match o with
  | OCase format args => void (Case r format args)
  | OPass format args => Pass r format args
  | OFail format args => Fail r format args
  | OFatal format args => Fatal r format args
  | ORequire cond desc args => Require r cond desc args
  | OFailNow cond desc args => FailNow r cond desc args
  | OAssertNoErr err => AssertNoErr r err
  | OAssertNoErrf err desc args => AssertNoErrf r err desc args
  | OAssertErr err => AssertErr r err
  | OAssertErrf err desc args => AssertErrf r err desc args
  | OStartTimer => void (StartTimer r)
  | OStopTimer => void (StopTimer r)
  | OBenchmark name => void (Benchmark r name ())
  | OParallel => void (Parallel r)
  | OSkip reason args => void (Skip r reason args)
  | OSkipIf condition reason args => void (SkipIf r condition reason args)
  | OSkipUnless condition reason args => void (SkipUnless r condition reason args)
  | OHelper => void (Helper r)
  | OTempDir => void (TempDir r)
  | OSetenv key val => void (Setenv r key val)
  | OGetenv key => void (Getenv r key)
  | ODeadline => void (Deadline r)
  | ORunParallel => void (RunParallel r ())
  | OMemoryUsage => void (MemoryUsage r)
  | OGoroutineCount => void (GoroutineCount r)
  | OTestInfo => void (TestInfo r)
  | OAssertEqual expected actual msg => void (AssertEqual r expected actual msg)
  | OAssertNotEqual expected actual msg => void (AssertNotEqual r expected actual msg)
  | OAssertNil v msg => void (AssertNil r v msg)
  | OAssertNotNil v msg => void (AssertNotNil r v msg)
  | OAssertTrue condition msg => void (AssertTrue r condition msg)
  | OAssertFalse condition msg => void (AssertFalse r condition msg)
  | OAssertContains container item msg => void (AssertContains r container item msg)
  | OAssertNotContains container item msg => void (AssertNotContains r container item msg)
  | TLogf format args => T_Logf tt format args
  | TErrorf format args => T_Errorf tt format args
  | TFatalf format args => T_Fatalf tt format args
  | TFailNow => T_FailNow tt
  | TSkipNow => T_SkipNow tt
  | OSleep d => time_Sleep d
  | OPanic v => go_panic v
  end.

Fixpoint exec (r : nat) (p : Prog) (tt : nat) {struct p} : M unit :=
  match p with
  | Done => mret ()
  | Do o k => _ ← execOp r tt o; exec r k tt
  | DoRun name body k =>
      _ ← Run r name (λ sub, exec r body sub); exec r k tt
  | DoCaser name body k =>
      _ ← Caser r name (λ sub, exec r body sub); exec r k tt
  | DoCases cases f k =>
      _ ← Cases r cases (λ c sub, exec r (f c) sub); exec r k tt
  | DoCleanup fn k =>
      _ ← Cleanup r fn; exec r k tt
  | DoAssertPanics fn msg k =>
      _ ← AssertPanics r (exec r fn tt) msg; exec r k tt
  | DoAssertNotPanics fn msg k =>
      _ ← AssertNotPanics r (exec r fn tt) msg; exec r k tt
  end.

(** The calls of [Case] a body can make at most, counting those made inside
    the helpers. *)
Definition announcesOp (o : Op) : nat :=
  match o with
  | OCase _ _ | OStartTimer | OStopTimer | OBenchmark _ | OParallel
  | OSkip _ _ | OSkipIf _ _ _ | OSkipUnless _ _ _ | OSetenv _ _
  | ORunParallel | OMemoryUsage | OGoroutineCount => 1
  | OTestInfo => 3
  | _ => 0
  end.

Fixpoint announces (p : Prog) : nat :=
  match p with
  | Done => 0
  | Do o k => announcesOp o + announces k
  | DoRun _ body k => announces body + announces k
  | DoCaser _ body k => 1 + announces body + announces k
  | DoCases cases f k =>
      foldr (λ c n, 1 + announces (f c) + n)%nat 0%nat cases + announces k
  | DoCleanup _ k => 1 + announces k
  | DoAssertPanics fn _ k => announces fn + announces k
  | DoAssertNotPanics fn _ k => announces fn + announces k
  end.

(** *** Vocabulary of the statements *)

(** The runner [r] is alive and bound to the live test [t]. *)
Definition bound (w : World) (r t : nat) : Prop :=
  ∃ x s, runners w !! r = Some x ∧ T x = t ∧ tests w !! t = Some s.

(** The lines of a pass, of a failure and of a case announcement. *)
Definition passLine (desc : string) (args : list value) : string :=
  Sprintf (TAB +:+ "%s " +:+ desc) (VString checkMark :: args).
Definition failLine (desc : string) (args : list value) : string :=
  Sprintf (TAB +:+ "%s " +:+ desc) (VString ballotX :: args).
Definition casePrefix (n : Z) : string := "Case " +:+ Itoa n +:+ " -> ".
Definition caseLine (n : Z) (format : string) (args : list value) : string :=
  Sprintf (casePrefix n +:+ format) args.

(** Worlds after a line was logged on [t], after [t] was marked failed (it
    and its ancestors), and after [t] was marked finished. *)
Definition logged (t : nat) (line : string) (w : World) : World :=
  withTrace (trace w ++ [EvLog t line]) w.
Definition markedFailed (t : nat) (w : World) : World :=
  match tests w !! t with
  | Some s =>
      withTests (foldr (alter setFailed) (tests w) (t :: t_ancestors s))
                (withTrace (trace w ++ [EvFail t]) w)
  | None => w
  end.
Definition markedFinished (t : nat) (w : World) : World :=
  match tests w !! t with
  | Some s => withTests (<[t := setFinished s]> (tests w)) w
  | None => w
  end.

(** A recorded pass: the pass line is logged and nothing else changes.
    A recorded failure: the failure line is logged and the test is marked
    failed.  A halt: the failure is recorded once more by [FailNow], the
    test is finished, and the goroutine exits. *)
Definition passed (t : nat) (desc : string) (args : list value) (w : World) : World :=
  logged t (passLine desc args) w.
Definition failedWith (t : nat) (desc : string) (args : list value) (w : World) : World :=
  markedFailed t (logged t (failLine desc args) w).
Definition halted (t : nat) (w : World) : World :=
  markedFinished t (markedFailed t w).

(** The world after a case announcement on the runner [r] bound to [t]:
    the counter has moved, the prefix is the one of the new number, and
    the announcement is logged on [t]. *)
Definition announced (r t : nat) (format : string) (args : list value) (w : World) : World :=
  match runners w !! r with
  | Some x =>
      let n := wrapInt (caseNum x + 1) in
      logged t (caseLine n format args)
             (withRunners (<[r := withPrefix (casePrefix n) (withCaseNum n x)]> (runners w)) w)
  | None => w
  end.

(** A run of calls of [Case], one per format and arguments. *)
Fixpoint CaseCalls (r : nat) (calls : list (string * list value)) : M unit :=
  match calls with
  | [] => mret ()
  | (format, args) :: rest => _ ← Case r format args; CaseCalls r rest
  end.

(** Bodies that end where they stand: no call halts through the runner
    (which is bound to the enclosing test), asks the host for something it
    may refuse, or panics.  Failures recorded through the runner or the
    subtest, and halts of the subtest through its own [*testing.T], are
    allowed. *)
Definition calmOp (o : Op) : bool :=
  match o with
  | OFatal _ _ | OParallel | OSkip _ _ | OTempDir | OSetenv _ _ | OPanic _ => false
  | OFailNow cond _ _ => cond
  | OAssertNoErr err | OAssertNoErrf err _ _ => isNil err
  | OAssertErr err | OAssertErrf err _ _ => negb (isNil err)
  | OSkipIf condition _ _ => negb condition
  | OSkipUnless condition _ _ => condition
  | _ => true
  end.

Fixpoint calm (p : Prog) : bool :=
  match p with
  | Done => true
  | Do o k => calmOp o && calm k
  | DoRun _ body k => calm body && calm k
  | DoCaser _ body k => calm body && calm k
  | DoCases cases f k => forallb (λ c, calm (f c)) cases && calm k
  | DoCleanup _ k => calm k
  | DoAssertPanics fn _ k => calm fn && calm k
  | DoAssertNotPanics fn _ k => calm fn && calm k
  end.

(** The events of one case of a batch: its announcement, the start of its
    subtest, the events of the callback, the end of the subtest. *)
Definition caseEvents (t : nat) (n : Z) (c : caseImpl) (sub : nat) (body : list Event)
    : list Event :=
  EvLog t (caseLine n (name c) []) :: EvStart t (name c) sub :: body ++ [EvEnd sub].

(** What every call keeps: the tests stay allocated, a finished test stays
    finished, the trace only grows. *)
Definition extends (w w' : World) : Prop :=
  (∀ a, is_Some (tests w !! a) → is_Some (tests w' !! a)) ∧
  (∀ a, finished w a = true → finished w' a = true) ∧
  (∃ evs, trace w' = trace w ++ evs).

Definition returned {A} (o : outcome A) : bool :=
  match o with Returns _ => true | _ => false end.

(** What a call does to the runner [r]: it stays allocated and bound to the
    same test, and, as long as the [int] does not overflow, its counter
    moves up by at most [hi], and by at least [lo] when the call returns. *)
Definition counts (r : nat) (lo hi : nat) {A} (w : World) (res : outcome A * World) : Prop :=
  ∀ x, runners w !! r = Some x →
    ∃ x', runners (snd res) !! r = Some x' ∧ T x' = T x ∧
      (intMin ≤ caseNum x → caseNum x + Z.of_nat hi ≤ intMax →
         caseNum x ≤ caseNum x' ≤ caseNum x + Z.of_nat hi ∧
         (returned (fst res) = true → caseNum x + Z.of_nat lo ≤ caseNum x')).

Definition sound (r : nat) (lo hi : nat) {A} (m : M A) : Prop :=
  ∀ w, extends w (snd (m w)) ∧ counts r lo hi w (m w).

(** A call that leaves the runners alone. *)
Definition host {A} (m : M A) : Prop :=
  ∀ w, runners (snd (m w)) = runners w ∧ extends w (snd (m w)).

(** A body that ends where it stands: it returns, or it has halted the test
    [tt] it runs on. *)
Definition local {A} (tt : nat) (res : outcome A * World) : Prop :=
  returned (fst res) = true ∨ (fst res = Goexit ∧ finished (snd res) tt = true).

(** A call that returns whenever the runner is alive, and a body that ends
    where it stands whenever the runner is alive and its test allocated. *)
Definition alive (r t : nat) {A} (m : M A) : Prop :=
  ∀ w, bound w r t → returned (fst (m w)) = true.
Definition stays (r t tt : nat) {A} (m : M A) : Prop :=
  ∀ w, bound w r t → is_Some (tests w !! tt) → local tt (m w).

(** Two callbacks for a batch: one asserts with [Require] that the input
    equals the expected output, the other with [FailNow]. *)
Definition requireEqual (c : caseImpl) : Prog :=
  Do (ORequire (DeepEqual (input c) (want c)) "input equals want" []) Done.
Definition failNowUnlessEqual (c : caseImpl) : Prog :=
  Do (OFailNow (DeepEqual (input c) (want c)) "input equals want" []) Done.


(** The test [t] is parallel or has a parallel ancestor. *)
Definition underParallel (w : World) (t : nat) : bool :=
  match tests w !! t with
  | Some s => existsb (λ a, match tests w !! a with
                            | Some x => t_isParallel x
                            | None => false
                            end) (t :: t_ancestors s)
  | None => false
  end.

(** The world after a successful [t.Setenv(key, val)]. *)
Definition envSet (t : nat) (key val : string) (w : World) : World :=
  match tests w !! t with
  | Some s =>
      withTests (<[t := addCleanup (setEnvSet s)]> (tests w))
                (withEnviron (<[key := val]> (environ w)) w)
  | None => w
  end.

(** The address of the next test to be allocated, and the world in which
    the body of a subtest of [t] starts: the subtest is allocated, with [t]
    as its parent, and its start is on record. *)
Definition nextTest (w : World) : nat := fresh ({[0%nat]} ∪ dom (tests w)).
Definition entered (t : nat) (name : string) (w : World) : World :=
  match tests w !! t with
  | Some s =>
      withTrace (trace w ++ [EvStart t name (nextTest w)])
        (withTests (<[nextTest w := mkT (t_name s +:+ "/" +:+ name) (t :: t_ancestors s)
                                        false false false false false 0]> (tests w)) w)
  | None => w
  end.

(** The world after the subtest [sub] has ended: it is finished and its end
    is on record. *)
Definition ended (sub : nat) (w : World) : World :=
  match tests w !! sub with
  | Some s => withTrace (trace w ++ [EvEnd sub]) (withTests (<[sub := setFinished s]> (tests w)) w)
  | None => w
  end.

(** The error the host records on a subtest whose goroutine was torn down
    by a halt of an enclosing test. *)
Definition tornDown (sub : nat) (w : World) : World :=
  withTrace (trace (markedFailed sub (logged sub
               (Sprintf "%v: subtest may have called FailNow on a parent test"
                        [errNilPanicOrGoexit]) w)) ++ [EvEnd sub])
    (markedFailed sub (logged sub
       (Sprintf "%v: subtest may have called FailNow on a parent test"
                [errNilPanicOrGoexit]) w)).


(** One case of a batch, as [Cases] runs it from the world [w]: the subtest
    it gets, the world in which the callback starts (the case announced,
    the subtest allocated and started), and the world after the case (the
    callback has run, the subtest has ended). *)
Definition caseSub (r t : nat) (c : caseImpl) (w : World) : nat :=
  nextTest (announced r t (name c) [] w).
Definition caseStart (r t : nat) (c : caseImpl) (w : World) : World :=
  entered t (name c) (announced r t (name c) [] w).
Definition afterCase (f : caseImpl → nat → M unit) (r t : nat) (c : caseImpl) (w : World)
    : World :=
  ended (caseSub r t c w) (snd (f c (caseSub r t c w) (caseStart r t c w))).

(** Every callback of the batch, run where the batch runs it, ends where
    it stands: it returns, or it has halted its own subtest. *)
Fixpoint endLocally (f : caseImpl → nat → M unit) (r t : nat) (cases : list caseImpl)
    (w : World) : Prop :=
  match cases with
  | [] => True
  | c :: rest =>
      local (caseSub r t c w) (f c (caseSub r t c w) (caseStart r t c w)) ∧
      endLocally f r t rest (afterCase f r t c w)
  end.

(** The cases ran in list order from [w] to [w'], one segment of events
    each.  A case whose turn comes with the counter at [k] is announced
    under the number after [k], which the counter then holds; its subtest
    is a new one; the callback is applied to the case and that subtest and
    ends where it stands; the next case starts from the world the ended
    subtest leaves. *)
Inductive ranInOrder (f : caseImpl → nat → M unit) (r t : nat)
    : World → list caseImpl → list (list Event) → World → Prop :=
| ran_none w : ranInOrder f r t w [] [] w
| ran_case w c rest k body segments w' :
    counter w r = Some k →
    counter (caseStart r t c w) r = Some (wrapInt (k + 1)) →
    tests w !! caseSub r t c w = None →
    local (caseSub r t c w) (f c (caseSub r t c w) (caseStart r t c w)) →
    trace (snd (f c (caseSub r t c w) (caseStart r t c w))) =
      trace (caseStart r t c w) ++ body →
    ranInOrder f r t (afterCase f r t c w) rest segments w' →
    ranInOrder f r t w (c :: rest)
               (caseEvents t (wrapInt (k + 1)) c (caseSub r t c w) body :: segments) w'.
(** ** Properties *)

(** *** The monad and the stores *)

Lemma bind_returns {A B} (m : M A) (f : A → M B) w a w' :
  m w = (Returns a, w') → (m ≫= f) w = f a w'.
Proof. intros H. unfold mbind, M_bind. by rewrite H. Qed.

Lemma bind_goexit {A B} (m : M A) (f : A → M B) w w' :
  m w = (Goexit, w') → (m ≫= f) w = (Goexit, w').
Proof. intros H. unfold mbind, M_bind. by rewrite H. Qed.

Lemma bind_panics {A B} (m : M A) (f : A → M B) w v w' :
  m w = (Panics v, w') → (m ≫= f) w = (Panics v, w').
Proof. intros H. unfold mbind, M_bind. by rewrite H. Qed.

Lemma bind_dies {A B} (m : M A) (f : A → M B) w v w' :
  m w = (Dies v, w') → (m ≫= f) w = (Dies v, w').
Proof. intros H. unfold mbind, M_bind. by rewrite H. Qed.

Lemma getR_some w r x : runners w !! r = Some x → getR r w = (Returns x, w).
Proof. intros H. unfold getR. by rewrite H. Qed.

Lemma getT_some w t s : tests w !! t = Some s → getT t w = (Returns s, w).
Proof. intros H. unfold getT. by rewrite H. Qed.

Lemma prependTag_cons tag args : prependTag tag args = tag :: args.
Proof. by destruct args. Qed.

(** The earlier revision's [prependTag] builds the same argument list. *)
Lemma prependTag_v1_agrees tag args :
  prependTag_v1 tag (Some args) = prependTag tag args ∧
  prependTag_v1 tag None = prependTag tag [].
Proof. split; [by rewrite prependTag_cons | done]. Qed.

Lemma foldr_alter_is_Some {V} (f : V → V) (l : list nat) (m : gmap nat V) k :
  is_Some (m !! k) → is_Some (foldr (alter f) m l !! k).
Proof.
  intros H. induction l as [|a l IH]; [done|]. simpl.
  rewrite lookup_alter. case_decide; [subst a|done].
  destruct IH as [y ->]. by eexists.
Qed.

Lemma foldr_alter_failed (l : list nat) (m : gmap nat TState) k s :
  m !! k = Some s → k ∈ l → ∃ s', foldr (alter setFailed) m l !! k = Some s' ∧ t_failed s' = true.
Proof.
  intros Hk. induction l as [|a l IH]; [by intros ?%elem_of_nil|].
  intros Hin. simpl. rewrite lookup_alter. case_decide as Hd.
  - subst a. destruct (foldr_alter_is_Some setFailed l m k) as [y Hy]; [by eexists|].
    rewrite Hy. by eexists.
  - apply elem_of_cons in Hin as [->|Hin]; [done|]. by apply IH.
Qed.

(** *** Pass and Fail *)

Lemma Pass_bound w r t desc args :
  bound w r t → Pass r desc args w = (Returns (), passed t desc args w).
Proof.
  intros (x & s & Hr & <- & Ht). unfold Pass, T_Logf, T_Log.
  rewrite (bind_returns _ _ _ _ _ (getR_some _ _ _ Hr)).
  rewrite (bind_returns _ _ _ _ _ (getT_some _ _ _ Ht)).
  by rewrite prependTag_cons.
Qed.

Lemma T_Fail_some w t s :
  tests w !! t = Some s → T_Fail t w = (Returns (), markedFailed t w).
Proof.
  intros Ht. unfold T_Fail, markedFailed.
  rewrite (bind_returns _ _ _ _ _ (getT_some _ _ _ Ht)). by rewrite Ht.
Qed.

Lemma Fail_bound w r t desc args :
  bound w r t → Fail r desc args w = (Returns (), failedWith t desc args w).
Proof.
  intros (x & s & Hr & <- & Ht). unfold Fail, T_Errorf, T_Logf, T_Log.
  rewrite (bind_returns _ _ _ _ _ (getR_some _ _ _ Hr)).
  rewrite prependTag_cons.
  erewrite (bind_returns (_ ≫= _)); last by rewrite (bind_returns _ _ _ _ _ (getT_some _ _ _ Ht)).
  by erewrite T_Fail_some.
Qed.

Lemma bound_logged w r t t' line : bound w r t → bound (logged t' line w) r t.
Proof. intros (x & s & ? & ? & ?). by exists x, s. Qed.

Lemma bound_markedFailed w r t t' : bound w r t → bound (markedFailed t' w) r t.
Proof.
  intros (x & s & Hr & HT & Ht). unfold markedFailed.
  destruct (tests w !! t') as [s'|] eqn:E; [|by exists x, s].
  destruct (foldr_alter_is_Some setFailed (t' :: t_ancestors s') (tests w) t) as [y Hy];
    [by eexists|].
  by exists x, y.
Qed.

Lemma failed_markedFailed w t s : tests w !! t = Some s → failed (markedFailed t w) t = true.
Proof.
  intros Ht. unfold failed, markedFailed. rewrite Ht.
  destruct (foldr_alter_failed (t :: t_ancestors s) (tests w) t s Ht) as (s' & Hs' & Hf);
    [by left|].
  cbn [tests withTests]. by rewrite Hs'.
Qed.

Lemma tests_logged w t line : tests (logged t line w) = tests w.
Proof. done. Qed.

Lemma markedFailed_lookup w t s :
  tests w !! t = Some s → ∃ s', tests (markedFailed t w) !! t = Some s' ∧ t_failed s' = true.
Proof.
  intros Ht. unfold markedFailed. rewrite Ht. cbn [tests withTests].
  apply (foldr_alter_failed _ _ _ s); [done | by left].
Qed.

Lemma T_FailNow_some w t s :
  tests w !! t = Some s → T_FailNow t w = (Goexit, halted t w).
Proof.
  intros Ht. unfold T_FailNow, halted.
  rewrite (bind_returns _ _ _ _ _ (T_Fail_some _ _ _ Ht)).
  destruct (markedFailed_lookup _ _ _ Ht) as (s' & Hs' & _).
  rewrite (bind_returns _ _ _ _ _ (getT_some _ _ _ Hs')).
  unfold markedFinished. by rewrite Hs'.
Qed.

Lemma halted_flags w t s :
  tests w !! t = Some s → failed (halted t w) t = true ∧ finished (halted t w) t = true.
Proof.
  intros Ht. destruct (markedFailed_lookup _ _ _ Ht) as (s' & Hs' & Hf).
  unfold halted, markedFinished, failed, finished. rewrite Hs'. cbn [tests withTests].
  by rewrite lookup_insert_eq.
Qed.

Lemma bound_failedWith w r t desc args : bound w r t → bound (failedWith t desc args w) r t.
Proof. intros H. by apply bound_markedFailed, bound_logged. Qed.

Lemma not_goexit_panics {A} (v : value) : Panics v ≠ (Goexit : outcome A).
Proof. done. Qed.

(** Neither [Pass] nor [Fail] ever exits the goroutine, whatever the state
    of the runner. *)
Lemma Pass_no_goexit w r desc args : fst (Pass r desc args w) ≠ Goexit.
Proof.
  unfold Pass, T_Logf, T_Log, getR, getT, emit, mbind, M_bind.
  destruct (runners w !! r) as [x|]; [|done].
  by destruct (tests w !! T x).
Qed.

Lemma Fail_no_goexit w r desc args : fst (Fail r desc args w) ≠ Goexit.
Proof.
  unfold Fail, T_Errorf, T_Logf, T_Log, T_Fail, getR, getT, emit, act, mbind, M_bind.
  destruct (runners w !! r) as [x|]; [|done].
  destruct (tests w !! T x) as [s|] eqn:E; [|done].
  cbn [tests withTrace]. by rewrite E.
Qed.

(** C5.  [Require(cond, desc, args...)] is [Pass(desc, args...)] when [cond]
    holds and [Fail(desc, args...)] when it does not; it never exits the
    goroutine; on a live runner it returns, with the pass or the failure
    recorded, and the statements after it run. *)
Theorem Require_is_Pass_or_Fail w r cond desc args :
  Require r cond desc args w = (if cond then Pass r desc args w else Fail r desc args w) ∧
  fst (Require r cond desc args w) ≠ Goexit ∧
  ∀ t, bound w r t →
    Require r cond desc args w =
      (Returns (), if cond then passed t desc args w else failedWith t desc args w) ∧
    failed (failedWith t desc args w) t = true ∧
    ∀ B (k : unit → M B),
      (Require r cond desc args ≫= k) w =
        k () (if cond then passed t desc args w else failedWith t desc args w).
Proof.
  split; [by destruct cond|]. split.
  - destruct cond; [apply Pass_no_goexit | apply Fail_no_goexit].
  - intros t Hb.
    assert (Require r cond desc args w =
              (Returns (), if cond then passed t desc args w else failedWith t desc args w)) as E.
    { destruct cond; unfold Require; [by apply Pass_bound | by apply Fail_bound]. }
    split; [done|]. split.
    + destruct Hb as (x & s & _ & _ & Ht). unfold failedWith.
      by apply (failed_markedFailed _ _ s).
    + intros B k. by rewrite (bind_returns _ _ _ _ _ E).
Qed.

(** C6.  On a live runner, [FailNow(true, ...)] is a recorded pass and the
    statements after it run; [FailNow(false, ...)] records the failure,
    marks the bound test failed and finished, and exits the goroutine: no
    statement after it is reached. *)
Theorem FailNow_halts_on_false w r t desc args :
  bound w r t →
  FailNow r true desc args w = (Returns (), passed t desc args w) ∧
  (∀ B (k : unit → M B), (FailNow r true desc args ≫= k) w = k () (passed t desc args w)) ∧
  FailNow r false desc args w = (Goexit, halted t (failedWith t desc args w)) ∧
  failed (halted t (failedWith t desc args w)) t = true ∧
  finished (halted t (failedWith t desc args w)) t = true ∧
  (∀ B (k : unit → M B),
     (FailNow r false desc args ≫= k) w = (Goexit, halted t (failedWith t desc args w))) ∧
  (∀ tt rest,
     exec r (Do (OFailNow false desc args) rest) tt w =
       (Goexit, halted t (failedWith t desc args w))).
Proof.
  intros Hb.
  assert (FailNow r true desc args w = (Returns (), passed t desc args w)) as Et
    by (by apply Pass_bound).
  assert (FailNow r false desc args w = (Goexit, halted t (failedWith t desc args w))) as Ef.
  { unfold FailNow. rewrite (bind_returns _ _ _ _ _ (Fail_bound _ _ _ _ _ Hb)).
    destruct (bound_failedWith _ _ _ desc args Hb) as (x & s & Hr & <- & Ht).
    rewrite (bind_returns _ _ _ _ _ (getR_some _ _ _ Hr)).
    by apply (T_FailNow_some _ _ s). }
  destruct (bound_failedWith _ _ _ desc args Hb) as (x & s & Hr & HT & Ht).
  destruct (halted_flags _ _ _ Ht) as [Hfa Hfi].
  repeat split; try done.
  - intros B k. by rewrite (bind_returns _ _ _ _ _ Et).
  - intros B k. by rewrite (bind_goexit _ _ _ _ Ef).
  - intros tt rest. cbn [exec execOp]. by rewrite (bind_goexit _ _ _ _ Ef).
Qed.

(** *** The error assertions *)

Lemma isNil_true v : isNil v = true ↔ v = VNil.
Proof. by destruct v. Qed.

Lemma isNil_false v : isNil v = false ↔ v ≠ VNil.
Proof. by destruct v. Qed.

Lemma T_Logf_some w t s format args :
  tests w !! t = Some s → T_Logf t format args w = (Returns (), logged t (Sprintf format args) w).
Proof.
  intros Ht. unfold T_Logf, T_Log. by rewrite (bind_returns _ _ _ _ _ (getT_some _ _ _ Ht)).
Qed.

(** A recorded failure, one more line, and the halt. *)
Lemma fail_log_halt w r t desc args line_format line_args :
  bound w r t →
  (_ ← Fail r desc args;
   x ← getR r;
   _ ← T_Logf (T x) line_format line_args;
   T_FailNow (T x)) w =
  (Goexit, halted t (logged t (Sprintf line_format line_args) (failedWith t desc args w))).
Proof.
  intros Hb. rewrite (bind_returns _ _ _ _ _ (Fail_bound _ _ _ _ _ Hb)).
  destruct (bound_failedWith _ _ _ desc args Hb) as (x & s & Hr & <- & Ht).
  rewrite (bind_returns _ _ _ _ _ (getR_some _ _ _ Hr)).
  rewrite (bind_returns _ _ _ _ _ (T_Logf_some _ _ _ _ _ Ht)).
  by apply (T_FailNow_some _ _ s).
Qed.

(** C7.  On a live runner, the two "no error" assertions record a pass
    exactly when the error is nil; otherwise they record the failure, log
    the error under [%v], mark the test failed and finished and exit the
    goroutine.  The two "error present" assertions record a pass exactly
    when the error is not nil; otherwise they record the failure, log that
    nil was found, and halt in the same way. *)
Theorem error_assertions_pass_or_halt w r t err desc args :
  bound w r t →
  let noErrHalt :=
    halted t (logged t (Sprintf "requires no error, but found: %v" [err])
                     (failedWith t desc args w)) in
  let errHalt :=
    halted t (logged t (Sprintf "requires error, but found nil" [])
                     (failedWith t desc args w)) in
  AssertNoErrf r err desc args w =
    (if isNil err then (Returns (), passed t desc args w) else (Goexit, noErrHalt)) ∧
  AssertErrf r err desc args w =
    (if isNil err then (Goexit, errHalt) else (Returns (), passed t desc args w)) ∧
  AssertNoErr r err = AssertNoErrf r err "error unexpected" [] ∧
  AssertErr r err = AssertErrf r err "error expected" [] ∧
  (fst (AssertNoErrf r err desc args w) = Returns () ↔ err = VNil) ∧
  (fst (AssertErrf r err desc args w) = Returns () ↔ err ≠ VNil) ∧
  (fst (AssertNoErr r err w) = Returns () ↔ err = VNil) ∧
  (fst (AssertErr r err w) = Returns () ↔ err ≠ VNil) ∧
  failed noErrHalt t = true ∧ finished noErrHalt t = true ∧
  failed errHalt t = true ∧ finished errHalt t = true ∧
  (∀ B (k : unit → M B), err ≠ VNil →
     (AssertNoErrf r err desc args ≫= k) w = (Goexit, noErrHalt)) ∧
  (∀ B (k : unit → M B), err = VNil →
     (AssertErrf r err desc args ≫= k) w = (Goexit, errHalt)).
Proof.
  intros Hb noErrHalt errHalt.
  assert (∀ d a, AssertNoErrf r err d a w =
    (if isNil err then (Returns (), passed t d a w)
     else (Goexit, halted t (logged t (Sprintf "requires no error, but found: %v" [err])
                                    (failedWith t d a w))))) as E1.
  { intros d a. unfold AssertNoErrf. destruct (isNil err); [by apply Pass_bound|].
    by apply fail_log_halt. }
  assert (∀ d a, AssertErrf r err d a w =
    (if isNil err
     then (Goexit, halted t (logged t (Sprintf "requires error, but found nil" [])
                                    (failedWith t d a w)))
     else (Returns (), passed t d a w))) as E2.
  { intros d a. unfold AssertErrf. destruct (isNil err); [|by apply Pass_bound].
    by apply fail_log_halt. }
  assert (∀ line, ∃ s, tests (logged t line (failedWith t desc args w)) !! t = Some s) as Hs.
  { intros line. destruct (bound_failedWith _ _ _ desc args Hb) as (x & s & _ & _ & Ht).
    by exists s. }
  destruct (Hs (Sprintf "requires no error, but found: %v" [err])) as [s1 Hs1].
  destruct (Hs (Sprintf "requires error, but found nil" [])) as [s2 Hs2].
  destruct (halted_flags _ _ _ Hs1) as [? ?], (halted_flags _ _ _ Hs2) as [? ?].
  repeat split; try done.
  - rewrite E1. destruct err; naive_solver.
  - rewrite E1. intros ->. done.
  - rewrite E2. destruct err; naive_solver.
  - rewrite E2. destruct err; naive_solver.
  - unfold AssertNoErr. rewrite E1. destruct err; naive_solver.
  - unfold AssertNoErr. rewrite E1. intros ->. done.
  - unfold AssertErr. rewrite E2. destruct err; naive_solver.
  - unfold AssertErr. rewrite E2. destruct err; naive_solver.
  - intros B k Hne. apply bind_goexit. rewrite E1. by destruct err.
  - intros B k ->. apply bind_goexit. by rewrite E2.
Qed.

(** *** The nil assertions *)

Lemma trace_failedWith w t s desc args :
  tests w !! t = Some s →
  trace (failedWith t desc args w) = trace w ++ [EvLog t (failLine desc args); EvFail t].
Proof.
  intros Ht. unfold failedWith, markedFailed. rewrite tests_logged, Ht.
  cbn [trace withTests withTrace logged]. by rewrite <- app_assoc.
Qed.

(** A recorded pass is never a recorded failure. *)
Lemma passed_ne_failedWith w t s desc args desc' args' :
  tests w !! t = Some s → passed t desc args w ≠ failedWith t desc' args' w.
Proof.
  intros Ht E. apply (f_equal trace) in E. rewrite (trace_failedWith _ _ s) in E by done.
  apply (f_equal length) in E. unfold passed, logged in E. cbn [trace withTrace] in E.
  rewrite !length_app in E. simpl in E. lia.
Qed.

(** C1, as the code has it.  On a live runner, [AssertNil] records a pass
    exactly when the value is the nil interface, the [any] that holds
    nothing, and a failure for every other value; [AssertNotNil] does the
    opposite.  A nil pointer stored in the [any] is not the nil interface:
    [AssertNil] records a failure for it and [AssertNotNil] a pass. *)
Theorem AssertNil_passes_on_nil_interface_only w r t v msg :
  bound w r t →
  let nilFailure := failedWith t (message (Sprintf "Expected nil, got %v" [v]) msg) [] w in
  let notNilFailure := failedWith t (message "Expected non-nil value, got nil" msg) [] w in
  AssertNil r v msg w =
    (Returns r, if isNil v then passed t "Value is nil" [] w else nilFailure) ∧
  AssertNotNil r v msg w =
    (Returns r, if isNil v then notNilFailure else passed t "Value is not nil" [] w) ∧
  (snd (AssertNil r v msg w) = passed t "Value is nil" [] w ↔ v = VNil) ∧
  (snd (AssertNil r v msg w) = nilFailure ↔ v ≠ VNil) ∧
  (snd (AssertNotNil r v msg w) = notNilFailure ↔ v = VNil) ∧
  (snd (AssertNotNil r v msg w) = passed t "Value is not nil" [] w ↔ v ≠ VNil) ∧
  failed nilFailure t = true ∧
  failed notNilFailure t = true ∧
  (∀ elem, v = VPtr elem None →
     snd (AssertNil r v msg w) = nilFailure ∧
     snd (AssertNotNil r v msg w) = passed t "Value is not nil" [] w).
Proof.
  intros Hb nilFailure notNilFailure.
  assert (AssertNil r v msg w =
    (Returns r, if isNil v then passed t "Value is nil" [] w else nilFailure)) as E1.
  { unfold AssertNil. destruct (isNil v); cbn [negb].
    - by rewrite (bind_returns _ _ _ _ _ (Pass_bound _ _ _ _ _ Hb)).
    - by rewrite (bind_returns _ _ _ _ _ (Fail_bound _ _ _ _ _ Hb)). }
  assert (AssertNotNil r v msg w =
    (Returns r, if isNil v then notNilFailure else passed t "Value is not nil" [] w)) as E2.
  { unfold AssertNotNil. destruct (isNil v).
    - by rewrite (bind_returns _ _ _ _ _ (Fail_bound _ _ _ _ _ Hb)).
    - by rewrite (bind_returns _ _ _ _ _ (Pass_bound _ _ _ _ _ Hb)). }
  destruct Hb as (x & s & Hr & HT & Ht).
  pose proof (passed_ne_failedWith w t s) as Hne.
  rewrite E1, E2. cbn [snd].
  split_and!; try done.
  - destruct (isNil v) eqn:Ev; [by rewrite <- isNil_true|].
    apply isNil_false in Ev. split; [|done].
    intros E. symmetry in E. by apply Hne in E.
  - destruct (isNil v) eqn:Ev; [|by rewrite <- isNil_false].
    apply isNil_true in Ev. split; [|done].
    intros E. by apply Hne in E.
  - destruct (isNil v) eqn:Ev; [by rewrite <- isNil_true|].
    apply isNil_false in Ev. split; [|done].
    intros E. by apply Hne in E.
  - destruct (isNil v) eqn:Ev; [|by rewrite <- isNil_false].
    apply isNil_true in Ev. split; [|done].
    intros E. symmetry in E. by apply Hne in E.
  - by apply (failed_markedFailed _ _ s).
  - by apply (failed_markedFailed _ _ s).
  - by intros elem ->.
Qed.

(** *** Containment *)

Lemma HasPrefix_spec s pre : HasPrefix s pre = true ↔ ∃ post, s = pre +:+ post.
Proof.
  revert s. induction pre as [|b pre IH]; intros s; simpl.
  - split; [intros _; by exists s | by destruct s].
  - destruct s as [|a s]; simpl.
    + split; [done | by intros [? ?]].
    + rewrite andb_true_iff, bool_decide_eq_true, IH. split.
      * intros [-> [post ->]]. by exists post.
      * intros [post E]. simpl in E. injection E as -> ->. split; [done | by exists post].
Qed.

Lemma Index_unfold s sub :
  Index s sub =
    if HasPrefix s sub then 0%Z
    else match s with
         | EmptyString => (-1)%Z
         | String _ s' => let i := Index s' sub in if (i <? 0)%Z then (-1)%Z else (i + 1)%Z
         end.
Proof. by destruct s. Qed.

Lemma Index_lower s sub : (-1 ≤ Index s sub)%Z.
Proof.
  induction s as [|a s IH]; rewrite Index_unfold; destruct (HasPrefix _ sub); try lia.
  cbv zeta. destruct (Z.ltb_spec (Index s sub) 0); lia.
Qed.

(** [strings.Contains] is the substring test. *)
Lemma Contains_spec s sub :
  Contains s sub = true ↔ ∃ pre post, s = pre +:+ sub +:+ post.
Proof.
  unfold Contains. rewrite Z.leb_le.
  induction s as [|a s IH]; rewrite Index_unfold.
  - destruct (HasPrefix EmptyString sub) eqn:E.
    + split; [|done]. intros _. apply HasPrefix_spec in E as [post E].
      by exists EmptyString, post.
    + split; [lia|]. intros (pre & post & E'). destruct pre; [|done]. simpl in E'.
      assert (HasPrefix EmptyString sub = true) by (apply HasPrefix_spec; by exists post).
      congruence.
  - destruct (HasPrefix (String a s) sub) eqn:E.
    + split; [|done]. intros _. apply HasPrefix_spec in E as [post E].
      by exists EmptyString, post.
    + pose proof (Index_lower s sub). cbv zeta.
      destruct (Z.ltb_spec (Index s sub) 0) as [Hlt|Hge].
      * split; [lia|]. intros (pre & post & E'). destruct pre as [|b pre]; simpl in E'.
        -- assert (HasPrefix (String a s) sub = true) by (apply HasPrefix_spec; by exists post).
           congruence.
        -- injection E' as -> E'. assert (0 ≤ Index s sub)%Z; [|lia].
           apply IH. by exists pre, post.
      * split; [|lia]. intros _. destruct IH as [IH _].
        destruct (IH Hge) as (pre & post & ->). by exists (String a pre), post.
Qed.

Lemma search_spec l item :
  search l item = true ↔ ∃ v, v ∈ l ∧ DeepEqual v item = true.
Proof.
  induction l as [|x l IH]; simpl.
  - split; [done|]. by intros (v & ?%elem_of_nil & _).
  - destruct (DeepEqual x item) eqn:E.
    + split; [|done]. intros _. exists x. split; [by left | done].
    + rewrite IH. split.
      * intros (v & Hin & Hv). exists v. split; [by right | done].
      * intros (v & Hin & Hv). apply elem_of_cons in Hin as [->|Hin]; [congruence|].
        by exists v.
Qed.

(** C8.  On a live runner, [AssertContains] records a pass exactly when the
    container holds the item, and a failure otherwise, where
    - a [string] holds the item when the item is a [string] and a
      substring of it;
    - a slice of any element type, [[]any] or, by reflection, [[]string],
      [[]int] and so on, holds it when one of its elements is deeply equal
      to it; a nil slice holds nothing;
    - an array of any element type likewise;
    - a value of a defined type holds what the slice or array under it
      holds, and nothing when a string is under it;
    - nothing else holds anything.
    The three calls of the specification and the call of the package's
    tests on a [[]string] are instances. *)
Theorem AssertContains_by_container_shape w r t container item msg :
  bound w r t →
  let failure :=
    failedWith t (message (Sprintf "Expected %v to contain %v" [container; item]) msg) [] w in
  AssertContains r container item msg w =
    (Returns r, if contains container item
                then passed t "Container contains item" [] w else failure) ∧
  (snd (AssertContains r container item msg w) = passed t "Container contains item" [] w
     ↔ contains container item = true) ∧
  (snd (AssertContains r container item msg w) = failure
     ↔ contains container item = false) ∧
  failed failure t = true ∧
  (∀ s, container = VString s →
     (contains container item = true ↔
        ∃ sub pre post, item = VString sub ∧ s = pre +:+ sub +:+ post)) ∧
  (∀ e items, container = VSlice e (Some items) →
     (contains container item = true ↔ ∃ v, v ∈ items ∧ DeepEqual v item = true)) ∧
  (∀ e, container = VSlice e None → contains container item = false) ∧
  (∀ e items, container = VArray e items →
     (contains container item = true ↔ ∃ v, v ∈ items ∧ DeepEqual v item = true)) ∧
  (∀ n inner, container = VNamed n inner →
     contains container item =
       match inner with
       | VString _ => false
       | _ => contains inner item
       end) ∧
  (container = VNil ∨ (∃ b, container = VBool b) ∨ (∃ ty n, container = VNum ty n) ∨
   (∃ e target, container = VPtr e target) ∨ (∃ n fields, container = VStruct n fields) →
   contains container item = false) ∧
  contains (VString "hello world") (VString "world") = true ∧
  contains (VString "hello world") (VString "foo") = false ∧
  contains (VSlice TAny (Some [VString "a"; VString "b"])) (VString "b") = true ∧
  contains (VSlice TString (Some [VString "hello"; VString "world"; VString "test"]))
           (VString "hello") = true ∧
  contains (VSlice TString (Some [VString "hello"; VString "world"; VString "test"]))
           (VString "foo") = false ∧
  contains (VArray TInt [VNum TInt 1; VNum TInt 2]) (VNum TInt 2) = true ∧
  contains (VNamed "Names" (VSlice TString (Some [VString "a"]))) (VString "a") = true.
Proof.
  intros Hb failure.
  assert (AssertContains r container item msg w =
    (Returns r, if contains container item
                then passed t "Container contains item" [] w else failure)) as E.
  { unfold AssertContains. destruct (contains container item); cbn [negb].
    - by rewrite (bind_returns _ _ _ _ _ (Pass_bound _ _ _ _ _ Hb)).
    - by rewrite (bind_returns _ _ _ _ _ (Fail_bound _ _ _ _ _ Hb)). }
  destruct Hb as (x & s & Hr & HT & Ht).
  pose proof (passed_ne_failedWith w t s) as Hne.
  rewrite E. cbn [snd].
  split; [done|].
  split; [|split; [|split; [|split; [|split; [|split; [|split; [|split; [|split]]]]]]]].
  - destruct (contains container item); [done|]. split; [|done].
    intros E'. symmetry in E'. by apply Hne in E'.
  - destruct (contains container item); [|done]. split; [|done].
    intros E'. by apply Hne in E'.
  - by apply (failed_markedFailed _ _ s).
  - intros c ->. simpl. destruct item; try (split; [done | by intros (? & ? & ? & ? & ?)]).
    rewrite Contains_spec. split.
    + intros (pre & post & ->). by eexists _, pre, post.
    + intros (sub & pre & post & [= <-] & ->). by exists pre, post.
  - intros e items ->.
    assert (contains (VSlice e (Some items)) item = search items item) as ->
      by (by destruct e).
    apply search_spec.
  - intros e ->. by destruct e.
  - intros e items ->. apply search_spec.
  - intros n inner ->.
    destruct inner as [| | |str| |e items| | |]; try done. by destruct e.
  - intros [->|[[b ->]|[(ty & n & ->)|[(e & target & ->)|(n & fields & ->)]]]]; done.
  - repeat split; by vm_compute.
Qed.

(** *** The case file *)

Lemma alloc_spec (o : caseImpl) (h : gmap nat caseImpl) :
  ∃ a, alloc o h = (a, <[a := o]> h) ∧ a ≠ 0%nat ∧ h !! a = None.
Proof.
  unfold alloc. eexists. split; [done|].
  pose proof (is_fresh ({[0%nat]} ∪ dom h)) as Hf. split.
  - set_solver.
  - apply not_elem_of_dom. set_solver.
Qed.

Lemma call_write (s : setter) (b : nat) (h : gmap nat caseImpl) o :
  h !! b = Some o → call s b h = Some (b, <[b := write s o]> h).
Proof. intros Hb. destruct s; simpl; unfold SetName, SetInput, SetWant, SetWantErr, SetErr, update;
  by rewrite Hb. Qed.

Lemma call_other (s : setter) (b b' r' : nat) (h h' : gmap nat caseImpl) :
  b' ≠ b → call s b' h = Some (r', h') → h' !! b = h !! b.
Proof.
  intros Hne. destruct s; simpl; unfold SetName, SetInput, SetWant, SetWantErr, SetErr, update;
    destruct (h !! b') eqn:E; simpl; intros [= <- <-]; by rewrite lookup_insert_ne.
Qed.

Lemma chain_write (ss : list setter) (b : nat) (h : gmap nat caseImpl) o :
  h !! b = Some o → chain ss b h = Some (b, <[b := foldl (λ o s, write s o) o ss]> h).
Proof.
  revert h o. induction ss as [|s ss IH]; intros h o Hb; simpl.
  - by rewrite insert_id.
  - rewrite (call_write _ _ _ _ Hb). simpl.
    rewrite (IH _ (write s o)) by apply lookup_insert_eq.
    by rewrite insert_insert_eq.
Qed.

Lemma foldl_write_last (ss : list setter) o :
  foldl (λ o s, write s o) o ss =
    mkCase (lastName (name o) ss) (lastInput (input o) ss) (lastWant (want o) ss)
           (lastWantErr (wantErr o) ss) (lastErr (err o) ss).
Proof.
  revert o. induction ss as [|s ss IH]; intros o; simpl; [by destruct o|].
  rewrite IH. by destruct s.
Qed.

Lemma write_commute s1 s2 o :
  fieldOf s1 ≠ fieldOf s2 → write s2 (write s1 o) = write s1 (write s2 o).
Proof. by destruct s1, s2. Qed.

(** C2.  The case made by [NewCase(name, input, want, wantErr, err)] and the
    case built by [CaseBuilder(name).Input(input).Want(want).WantErr(wantErr)
    .Err(err).Build()] answer every accessor alike.  After any chain of
    setter calls, the built case holds in each field the value of the last
    call of that field's setter (the name given to [CaseBuilder], or the
    zero value, when there was none); two neighbouring calls of setters of
    different fields can be swapped without changing the result. *)
Theorem NewCase_and_builder_agree (h : gmap nat caseImpl) name input want wantErr err :
  (∃ c1 h1 c2 h2,
     NewCase name input want wantErr err h = (c1, h1) ∧
     built name input want wantErr err h = Some (c2, h2) ∧
     Name h1 c1 = Some name ∧ Name h2 c2 = Some name ∧
     Input h1 c1 = Some input ∧ Input h2 c2 = Some input ∧
     Want h1 c1 = Some want ∧ Want h2 c2 = Some want ∧
     WantErr h1 c1 = Some wantErr ∧ WantErr h2 c2 = Some wantErr ∧
     Err h1 c1 = Some err ∧ Err h2 c2 = Some err) ∧
  (∀ ss, ∃ b h0 h' c hc,
     CaseBuilder name h = (b, h0) ∧
     chain ss b h0 = Some (b, h') ∧
     Build b h' = (c, hc) ∧
     Name hc c = Some (lastName name ss) ∧
     Input hc c = Some (lastInput VNil ss) ∧
     Want hc c = Some (lastWant VNil ss) ∧
     WantErr hc c = Some (lastWantErr false ss) ∧
     Err hc c = Some (lastErr VNil ss)) ∧
  (∀ ss1 s1 s2 ss2,
     fieldOf s1 ≠ fieldOf s2 →
     let '(b, h0) := CaseBuilder name h in
     chain (ss1 ++ s1 :: s2 :: ss2) b h0 = chain (ss1 ++ s2 :: s1 :: ss2) b h0).
Proof.
  split_and!.
  - destruct (alloc_spec (mkCase name input want wantErr err) h) as (c1 & E1 & _ & _).
    destruct (alloc_spec (mkCase name VNil VNil false VNil) h) as (b & E2 & _ & _).
    exists c1, (<[c1 := mkCase name input want wantErr err]> h), b,
           (<[b := mkCase name input want wantErr err]> h).
    split; [done|]. split.
    + unfold built, CaseBuilder. rewrite E2.
      unfold SetInput, SetWant, SetWantErr, SetErr, update, Build.
      repeat (rewrite lookup_insert_eq; simpl; rewrite insert_insert_eq). done.
    + unfold Name, Input, Want, WantErr, Err. by rewrite !lookup_insert_eq.
  - intros ss.
    destruct (alloc_spec (mkCase name VNil VNil false VNil) h) as (b & E & _ & _).
    eexists b, _, _, b, _. split; [exact E|]. split.
    + apply chain_write. apply lookup_insert_eq.
    + split; [done|]. unfold Name, Input, Want, WantErr, Err.
      rewrite !lookup_insert_eq, foldl_write_last. done.
  - intros ss1 s1 s2 ss2 Hne.
    destruct (alloc_spec (mkCase name VNil VNil false VNil) h) as (b & E & _ & _).
    unfold CaseBuilder. rewrite E.
    rewrite !(chain_write _ _ _ _ (lookup_insert_eq _ _ _)).
    rewrite !foldl_app. simpl. by rewrite (write_commute s1 s2).
Qed.

(** C3, as the code has it.  [Build] makes no copy: the case it returns is
    the builder's own object and the heap is left as it was.  So the values
    seen through the case stay the same under another [Build] and under
    calls on other builders, and a later setter call on the same builder is
    seen through the case. *)
Theorem Build_returns_the_builders_object (h : gmap nat caseImpl) b o :
  h !! b = Some o →
  Build b h = (b, h) ∧
  Name h b = Some (name o) ∧ Input h b = Some (input o) ∧ Want h b = Some (want o) ∧
  WantErr h b = Some (wantErr o) ∧ Err h b = Some (err o) ∧
  Build b (snd (Build b h)) = Build b h ∧
  (∀ s, ∃ h2, call s b h = Some (b, h2) ∧ h2 !! b = Some (write s o)) ∧
  (∀ s b' r' h2, b' ≠ b → call s b' h = Some (r', h2) → h2 !! b = Some o) ∧
  (∀ name' h2 b', CaseBuilder name' h = (b', h2) → b' ≠ b ∧ h2 !! b = Some o).
Proof.
  intros Hb. unfold Name, Input, Want, WantErr, Err. rewrite Hb. split_and!; try done.
  - intros s. eexists. split; [by apply call_write|]. apply lookup_insert_eq.
  - intros s b' r' h2 Hne Hc. by rewrite (call_other _ _ _ _ _ _ Hne Hc).
  - intros name' h2 b'. unfold CaseBuilder.
    destruct (alloc_spec (mkCase name' VNil VNil false VNil) h) as (a & -> & _ & Hfresh).
    intros [= <- <-]. assert (a ≠ b) by congruence.
    split; [done|]. by rewrite lookup_insert_ne.
Qed.

(** *** What every call keeps *)

Lemma extends_refl w : extends w w.
Proof. split_and!; [done | done | exists []; by rewrite app_nil_r]. Qed.

Lemma extends_trans w1 w2 w3 : extends w1 w2 → extends w2 w3 → extends w1 w3.
Proof.
  intros (A1 & F1 & e1 & E1) (A2 & F2 & e2 & E2). split_and!.
  - intros a H. by apply A2, A1.
  - intros a H. by apply F2, F1.
  - exists (e1 ++ e2). by rewrite E2, E1, app_assoc.
Qed.

Lemma extends_same w w' :
  tests w' = tests w → trace w' = trace w → extends w w'.
Proof.
  intros Ht Htr. unfold extends, finished. rewrite Ht, Htr. split_and!; try done.
  exists []. by rewrite app_nil_r.
Qed.

Lemma extends_logged w evs : extends w (withTrace (trace w ++ evs) w).
Proof. split_and!; [done | done | by exists evs]. Qed.

Lemma extends_insert w t s s' :
  tests w !! t = Some s → (t_finished s = true → t_finished s' = true) →
  extends w (withTests (<[t := s']> (tests w)) w).
Proof.
  intros Ht Hf. split_and!.
  - intros a H. cbn [tests withTests]. rewrite lookup_insert. by case_decide.
  - intros a. unfold finished. cbn [tests withTests]. rewrite lookup_insert.
    case_decide; [subst a; rewrite Ht; by intros ?%Hf | done].
  - exists []. by rewrite app_nil_r.
Qed.

Lemma extends_fresh w a s' :
  tests w !! a = None → extends w (withTests (<[a := s']> (tests w)) w).
Proof.
  intros Ha. split_and!.
  - intros b H. cbn [tests withTests]. rewrite lookup_insert. by case_decide.
  - intros b. unfold finished. cbn [tests withTests]. rewrite lookup_insert.
    case_decide; [subst b; by rewrite Ha | done].
  - exists []. by rewrite app_nil_r.
Qed.

Lemma foldr_alter_finished (l : list nat) (m : gmap nat TState) k s :
  m !! k = Some s → ∃ s', foldr (alter setFailed) m l !! k = Some s' ∧
                           t_finished s' = t_finished s.
Proof.
  intros Hk. induction l as [|a l (s' & IH & Hf)]; simpl; [by exists s|].
  rewrite lookup_alter. case_decide; [subst a|by exists s'].
  rewrite IH. by eexists.
Qed.

Lemma extends_failed w l : extends w (withTests (foldr (alter setFailed) (tests w) l) w).
Proof.
  split_and!.
  - intros a H. cbn [tests withTests]. by apply foldr_alter_is_Some.
  - intros a. unfold finished. cbn [tests withTests].
    destruct (tests w !! a) as [s|] eqn:E; [|done].
    destruct (foldr_alter_finished l _ _ _ E) as (s' & -> & ->). done.
  - exists []. by rewrite app_nil_r.
Qed.

Lemma counts_refl r {A} (o : outcome A) w : counts r 0 0 w (o, w).
Proof. intros x Hx. exists x. split_and!; [done | done |]. intros. cbn. lia. Qed.

Lemma counts_same r {A} (o : outcome A) w w' :
  runners w' = runners w → counts r 0 0 w (o, w').
Proof. intros E x Hx. exists x. cbn [snd]. rewrite E. split_and!; [done | done |]. intros. cbn. lia. Qed.

Lemma counts_trans r {A B} lo1 hi1 lo2 hi2 w (o1 : outcome A) w1 (o2 : outcome B) w2 :
  counts r lo1 hi1 w (o1, w1) → counts r lo2 hi2 w1 (o2, w2) →
  (returned o2 = true → returned o1 = true) →
  counts r (lo1 + lo2) (hi1 + hi2) w (o2, w2).
Proof.
  intros C1 C2 Hret x Hx.
  destruct (C1 x Hx) as (x1 & Hx1 & HT1 & B1).
  destruct (C2 x1 Hx1) as (x2 & Hx2 & HT2 & B2).
  exists x2. split_and!; [done | congruence |].
  intros Hlo Hhi. cbn [fst snd] in *.
  destruct B1 as [B1 L1]; [done | lia |].
  destruct B2 as [B2 L2]; [lia | lia |].
  split; [lia|]. intros Hr. specialize (L2 Hr). specialize (L1 (Hret Hr)). lia.
Qed.

Lemma counts_stop r {A B} lo hi lo' hi' w (o : outcome A) (o' : outcome B) w' :
  counts r lo hi w (o, w') → (hi ≤ hi')%nat → returned o' = false →
  counts r lo' hi' w (o', w').
Proof.
  intros C Hle Hnr x Hx. destruct (C x Hx) as (x' & Hx' & HT & Bd).
  exists x'. split_and!; [done | done |]. intros Hlo Hhi. cbn [fst snd] in *.
  destruct Bd as [Bd _]; [done | lia |]. split; [lia|]. by rewrite Hnr.
Qed.

Lemma sound_weaken r {A} lo hi lo' hi' (m : M A) :
  sound r lo hi m → (lo' ≤ lo)%nat → (hi ≤ hi')%nat → sound r lo' hi' m.
Proof.
  intros S Hlo Hhi w. destruct (S w) as [E C]. split; [done|].
  intros x Hx. destruct (C x Hx) as (x' & Hx' & HT & Bd).
  exists x'. split_and!; [done | done |]. intros Hmin Hmax.
  destruct Bd as [Bd L]; [done | lia |]. split; [lia|].
  intros Hr. specialize (L Hr). lia.
Qed.

Lemma sound_bind r {A B} lo1 hi1 lo2 hi2 (m : M A) (f : A → M B) :
  sound r lo1 hi1 m → (∀ a, sound r lo2 hi2 (f a)) →
  sound r (lo1 + lo2) (hi1 + hi2) (m ≫= f).
Proof.
  intros S1 S2 w. destruct (S1 w) as [E1 C1]. unfold mbind, M_bind.
  destruct (m w) as [[a| |v|v] w1] eqn:Em; cbn [fst snd] in *.
  - destruct (S2 a w1) as [E2 C2]. split; [by eapply extends_trans|].
    destruct (f a w1) as [o2 w2]. by eapply counts_trans.
  - split; [done|]. eapply counts_stop; [exact C1 | lia | done].
  - split; [done|]. eapply counts_stop; [exact C1 | lia | done].
  - split; [done|]. eapply counts_stop; [exact C1 | lia | done].
Qed.

Lemma host_sound r {A} (m : M A) : host m → sound r 0 0 m.
Proof.
  intros H w. destruct (H w) as [Hr He]. split; [done|].
  destruct (m w) as [o w']. by apply counts_same.
Qed.

Lemma host_mret {A} (a : A) : host (mret a).
Proof. intros w. split; [done | apply extends_refl]. Qed.

Lemma host_bind {A B} (m : M A) (f : A → M B) :
  host m → (∀ a, host (f a)) → host (m ≫= f).
Proof.
  intros H1 H2 w. destruct (H1 w) as [R1 E1]. unfold mbind, M_bind.
  destruct (m w) as [[a| |v|v] w1]; cbn [fst snd] in *; try done.
  destruct (H2 a w1) as [R2 E2]. split; [congruence | by eapply extends_trans].
Qed.

Lemma host_getT t : host (getT t).
Proof. intros w. unfold getT. destruct (tests w !! t); (split; [done | apply extends_refl]). Qed.

Lemma host_emit e : host (emit e).
Proof. intros w. split; [done | apply extends_logged]. Qed.

Lemma host_panic {A} v : host (panic v : M A).
Proof. intros w. split; [done | apply extends_refl]. Qed.

Lemma host_goexit {A} : host (goexit : M A).
Proof. intros w. split; [done | apply extends_refl]. Qed.

(** A write of a test's state that is computed from its current state and
    keeps it finished. *)
Lemma host_modifyT t (g : TState → TState) :
  (∀ s, t_finished s = true → t_finished (g s) = true) →
  host (modifyT t g).
Proof.
  intros Hg w. unfold modifyT, getT, setT, mbind, M_bind.
  destruct (tests w !! t) as [s|] eqn:E; cbn [fst snd].
  - split; [done|]. apply (extends_insert _ _ s); [done | apply Hg].
  - split; [done | apply extends_refl].
Qed.

Lemma host_setFinished t s : host (setT t (setFinished s)).
Proof.
  intros w. unfold setT. cbn [fst snd]. split; [done|].
  destruct (tests w !! t) as [s0|] eqn:E.
  - by apply (extends_insert _ _ s0).
  - by apply extends_fresh.
Qed.

Lemma host_act_read {A} (f : World → A) : host (act (λ w, (Returns (f w), w))).
Proof. intros w. split; [done | apply extends_refl]. Qed.

Lemma host_T_Log t line : host (T_Log t line).
Proof. apply host_bind; [apply host_getT | intros; apply host_emit]. Qed.

Lemma host_T_Logf t format args : host (T_Logf t format args).
Proof. apply host_T_Log. Qed.

Lemma host_T_Fail t : host (T_Fail t).
Proof.
  apply host_bind; [apply host_getT | intros s].
  apply host_bind; [apply host_emit | intros _].
  intros w. split; [done | apply extends_failed].
Qed.

Lemma host_T_Errorf t format args : host (T_Errorf t format args).
Proof. apply host_bind; [apply host_T_Logf | intros; apply host_T_Fail]. Qed.

Lemma host_T_FailNow t : host (T_FailNow t).
Proof.
  apply host_bind; [apply host_T_Fail | intros _].
  apply host_bind; [apply host_getT | intros s].
  apply host_bind; [apply host_setFinished | intros; apply host_goexit].
Qed.

Lemma host_T_Fatalf t format args : host (T_Fatalf t format args).
Proof. apply host_bind; [apply host_T_Logf | intros; apply host_T_FailNow]. Qed.

Lemma host_T_SkipNow t : host (T_SkipNow t).
Proof.
  apply host_bind; [apply host_getT | intros s].
  apply host_bind; [apply host_setFinished | intros; apply host_goexit].
Qed.

Lemma host_T_Skipf t format args : host (T_Skipf t format args).
Proof. apply host_bind; [apply host_T_Logf | intros; apply host_T_SkipNow]. Qed.

Lemma newT_fresh w s :
  ∃ a, newT s w = (Returns a, withTests (<[a := s]> (tests w)) w) ∧
       a ≠ 0%nat ∧ tests w !! a = None.
Proof.
  unfold newT. eexists. split; [done|].
  pose proof (is_fresh ({[0%nat]} ∪ dom (tests w))) as Hf. split.
  - set_solver.
  - apply not_elem_of_dom. set_solver.
Qed.

Lemma host_newT s : host (newT s).
Proof.
  intros w. destruct (newT_fresh w s) as (a & -> & _ & Ha).
  split; [done | by apply extends_fresh].
Qed.

Lemma host_endT sub : host (endT sub).
Proof.
  apply host_bind; [apply host_getT | intros s].
  apply host_bind; [apply host_setFinished | intros _].
  apply host_bind; [apply host_emit | intros; apply host_mret].
Qed.

Lemma host_T_Parallel t : host (T_Parallel t).
Proof.
  apply host_bind; [apply host_getT | intros s].
  destruct (t_isParallel s); [apply host_panic|].
  destruct (t_isEnvSet s); [apply host_panic|].
  by apply host_modifyT.
Qed.

Lemma host_T_Setenv t key val : host (T_Setenv t key val).
Proof.
  apply host_bind; [apply host_getT | intros s].
  apply host_bind; [apply host_act_read | intros [|]]; [apply host_panic|].
  apply host_bind; [by apply host_modifyT | intros _].
  destruct (invalidEnv key val); [apply host_T_Fatalf|].
  apply host_bind; [|intros; by apply host_modifyT].
  intros w. split; [done | by apply extends_same].
Qed.

Lemma host_os_Getenv key : host (os_Getenv key).
Proof. intros w. split; [done | apply extends_refl]. Qed.

Lemma host_T_Cleanup {F} t (fn : F) : host (T_Cleanup t fn).
Proof. by apply host_modifyT. Qed.

Lemma host_T_Helper t : host (T_Helper t).
Proof. apply host_bind; [apply host_getT | intros; apply host_mret]. Qed.

Lemma host_T_TempDir t : host (T_TempDir t).
Proof.
  apply host_bind; [apply host_getT | intros _].
  intros w. unfold act. destruct (tempDir w) as [parent|e].
  - apply (host_bind (if tempDirs w !! t is Some _ then mret () else modifyT t addCleanup)).
    + destruct (tempDirs w !! t); [apply host_mret | by apply host_modifyT].
    + intros _ w1. split; [done | by apply extends_same].
  - apply (host_bind (T_Fatalf t _ _)); [apply host_T_Fatalf | intros; apply host_mret].
Qed.

Lemma host_T_Deadline t : host (T_Deadline t).
Proof. apply host_bind; [apply host_getT | intros; apply host_act_read]. Qed.

Lemma host_T_Name t : host (T_Name t).
Proof. apply host_bind; [apply host_getT | intros; apply host_mret]. Qed.

Lemma host_time_Now : host time_Now.
Proof. intros w. split; [done | apply extends_refl]. Qed.

Lemma host_time_Since start : host (time_Since start).
Proof. intros w. split; [done | apply extends_refl]. Qed.

Lemma host_time_Sleep d : host (time_Sleep d).
Proof. intros w. split; [done | by apply extends_same]. Qed.

(** *** What the runner's methods do to the counter *)

Lemma wrapInt_id z : intMin ≤ z ≤ intMax → wrapInt z = z.
Proof.
  unfold wrapInt, intMin, intMax. intros H.
  rewrite Z.mod_small; lia.
Qed.

Lemma host_getR r' : host (getR r').
Proof. intros w. unfold getR. destruct (runners w !! r'); (split; [done | apply extends_refl]). Qed.

Lemma sound_mret r {A} (a : A) : sound r 0 0 (mret a).
Proof. apply host_sound, host_mret. Qed.

Lemma sound_modifyR r r' (g : R → R) :
  (∀ x, T (g x) = T x ∧ caseNum (g x) = caseNum x) → sound r 0 0 (modifyR r' g).
Proof.
  intros Hg w. unfold modifyR, getR, setR, mbind, M_bind.
  destruct (runners w !! r') as [x'|] eqn:E; cbn [fst snd].
  - split; [by apply extends_same|]. intros x Hx. cbn [runners withRunners].
    destruct (decide (r' = r)) as [->|Hne].
    + exists (g x'). assert (x' = x) as -> by congruence.
      destruct (Hg x) as [-> ->]. cbn [fst snd runners withRunners].
      split_and!; [apply lookup_insert_eq | done |]. intros. lia.
    + exists x. cbn [fst snd runners withRunners].
      split_and!; [by rewrite lookup_insert_ne | done |]. intros. lia.
  - split; [apply extends_refl | apply counts_refl].
Qed.

Lemma sound_increment r :
  sound r 1 1 (modifyR r (λ x, withCaseNum (wrapInt (caseNum x + 1)) x)).
Proof.
  intros w. unfold modifyR, getR, setR, mbind, M_bind.
  destruct (runners w !! r) as [x'|] eqn:E; cbn [fst snd].
  - split; [by apply extends_same|]. intros x Hx. cbn [runners withRunners].
    assert (x' = x) as -> by congruence.
    eexists. cbn [fst snd runners withRunners].
    split_and!; [apply lookup_insert_eq | done |].
    intros Hlo Hhi. cbn [caseNum withCaseNum].
    rewrite wrapInt_id by (unfold intMin, intMax in *; lia). lia.
  - split; [apply extends_refl|]. intros x Hx. congruence.
Qed.

Ltac bind_sound lo1 hi1 lo2 hi2 :=
  eapply (sound_weaken _ (lo1 + lo2) (hi1 + hi2));
  [apply (sound_bind _ lo1 hi1 lo2 hi2) | lia | lia].

Lemma sound_Case r format args : sound r 1 1 (Case r format args).
Proof.
  unfold Case. bind_sound 1%nat 1%nat 0%nat 0%nat; [apply sound_increment | intros _].
  bind_sound 0%nat 0%nat 0%nat 0%nat; [by apply sound_modifyR | intros _].
  apply host_sound.
  apply host_bind; [apply host_getR | intros x].
  apply host_bind; [apply host_T_Logf | intros; apply host_mret].
Qed.

Lemma counts_then_host r {A B} hi w (o1 : outcome A) w1 (o2 : outcome B) w2 :
  counts r 0 hi w (o1, w1) → runners w2 = runners w1 → counts r 0 hi w (o2, w2).
Proof.
  intros C E x Hx. destruct (C x Hx) as (x' & Hx' & HT & Bd). cbn [fst snd] in *.
  exists x'. rewrite E. split_and!; [done | done |]. intros Hlo Hhi.
  destruct Bd as [Bd _]; [done | done |]. split; [done | lia].
Qed.

(** A subtest moves the counter as far as its body does. *)
Lemma sound_T_Run r t name (f : nat → M unit) lo hi :
  (∀ sub, sound r lo hi (f sub)) → sound r 0 hi (T_Run t name f).
Proof.
  intros Hf. unfold T_Run.
  bind_sound 0%nat 0%nat 0%nat hi; [apply host_sound, host_getT | intros s].
  bind_sound 0%nat 0%nat 0%nat hi; [apply host_sound, host_newT | intros sub].
  bind_sound 0%nat 0%nat 0%nat hi; [apply host_sound, host_emit | intros _].
  intros w. unfold act.
  destruct (sound_weaken _ _ _ 0 hi _ (Hf sub) ltac:(lia) ltac:(lia) w) as [E1 C1].
  destruct (f sub w) as [[[]| |v|v] w1] eqn:Ef; cbn [fst snd] in *.
  - destruct (host_endT sub w1) as [R2 E2]. split; [by eapply extends_trans|].
    destruct (endT sub w1) as [o2 w2]. by eapply counts_then_host.
  - destruct (finished w1 sub).
    + destruct (host_endT sub w1) as [R2 E2]. split; [by eapply extends_trans|].
      destruct (endT sub w1) as [o2 w2]. by eapply counts_then_host.
    + destruct (existsb _ _).
      * match goal with |- context [(?m w1)] =>
          assert (host m) as Hm
        end.
        { apply host_bind; [apply host_T_Errorf | intros _].
          apply host_bind; [apply host_emit | intros; apply host_goexit]. }
        destruct (Hm w1) as [R2 E2]. split; [by eapply extends_trans|].
        match goal with |- context [(?m w1)] => destruct (m w1) as [o2 w2] end.
        by eapply counts_then_host.
      * split; [done|]. by eapply counts_then_host.
  - split; [done|]. by eapply counts_then_host.
  - split; [done|]. by eapply counts_then_host.
Qed.

Lemma sound_Run r name (f : nat → M unit) lo hi :
  (∀ sub, sound r lo hi (f sub)) → sound r 0 hi (Run r name f).
Proof.
  intros Hf. unfold Run.
  bind_sound 0%nat 0%nat 0%nat hi; [apply host_sound, host_getR | intros x].
  bind_sound 0%nat hi 0%nat 0%nat; [by eapply sound_T_Run | intros; apply sound_mret].
Qed.

Lemma sound_Caser r name (f : nat → M unit) lo hi :
  (∀ sub, sound r lo hi (f sub)) → sound r 1 (1 + hi) (Caser r name f).
Proof.
  intros Hf. unfold Caser.
  bind_sound 1%nat 1%nat 0%nat hi; [apply sound_Case | intros _].
  bind_sound 0%nat hi 0%nat 0%nat; [by eapply sound_Run | intros; apply sound_mret].
Qed.

Lemma sound_Cases r cases (f : caseImpl → nat → M unit) (hi : caseImpl → nat) :
  (∀ c sub, sound r 0 (hi c) (f c sub)) →
  sound r 0 (foldr (λ c n, 1 + hi c + n)%nat 0%nat cases) (Cases r cases f).
Proof.
  intros Hf. induction cases as [|c cases IH]; [apply sound_mret|].
  cbn [Cases foldr]. set (n := foldr _ _ cases) in *.
  bind_sound 1%nat 1%nat 0%nat (hi c + n)%nat; [apply sound_Case | intros _].
  bind_sound 0%nat (hi c) 0%nat n; [by eapply sound_Run | intros _; apply IH].
Qed.

Ltac host_step :=
  lazymatch goal with
  | |- host (mret _) => apply host_mret
  | |- host (getR _) => apply host_getR
  | |- host (getT _) => apply host_getT
  | |- host (emit _) => apply host_emit
  | |- host goexit => apply host_goexit
  | |- host (panic _) => apply host_panic
  | |- host (act _) => apply host_act_read
  | |- host (T_Logf _ _ _) => apply host_T_Logf
  | |- host (T_Log _ _) => apply host_T_Log
  | |- host (T_Errorf _ _ _) => apply host_T_Errorf
  | |- host (T_Fail _) => apply host_T_Fail
  | |- host (T_Fatalf _ _ _) => apply host_T_Fatalf
  | |- host (T_FailNow _) => apply host_T_FailNow
  | |- host (T_Skipf _ _ _) => apply host_T_Skipf
  | |- host (T_SkipNow _) => apply host_T_SkipNow
  | |- host (T_Parallel _) => apply host_T_Parallel
  | |- host (T_Setenv _ _ _) => apply host_T_Setenv
  | |- host (T_Cleanup _ _) => apply host_T_Cleanup
  | |- host (T_Helper _) => apply host_T_Helper
  | |- host (T_TempDir _) => apply host_T_TempDir
  | |- host (T_Deadline _) => apply host_T_Deadline
  | |- host (T_Name _) => apply host_T_Name
  | |- host (os_Getenv _) => apply host_os_Getenv
  | |- host time_Now => apply host_time_Now
  | |- host (time_Since _) => apply host_time_Since
  | |- host (time_Sleep _) => apply host_time_Sleep
  | |- host (modifyT _ _) => by apply host_modifyT
  | |- host (_ ≫= _) => apply host_bind; [|intros ?]
  end.
Ltac host_run := repeat host_step.

Lemma host_Pass r format args : host (Pass r format args).
Proof. unfold Pass. host_run. Qed.

Lemma host_Fail r format args : host (Fail r format args).
Proof. unfold Fail. host_run. Qed.

Lemma host_Fatal r format args : host (Fatal r format args).
Proof. unfold Fatal. host_run. Qed.

Lemma host_Require r cond desc args : host (Require r cond desc args).
Proof. unfold Require. destruct cond; [apply host_Pass | apply host_Fail]. Qed.

Lemma host_FailNow r cond desc args : host (FailNow r cond desc args).
Proof.
  unfold FailNow. destruct cond; [apply host_Pass|].
  apply host_bind; [apply host_Fail | intros _]. host_run.
Qed.

Lemma host_AssertNoErrf r err desc args : host (AssertNoErrf r err desc args).
Proof.
  unfold AssertNoErrf. destruct (isNil err); [apply host_Pass|].
  apply host_bind; [apply host_Fail | intros _]. host_run.
Qed.

Lemma host_AssertErrf r err desc args : host (AssertErrf r err desc args).
Proof.
  unfold AssertErrf. destruct (isNil err); [|apply host_Pass].
  apply host_bind; [apply host_Fail | intros _]. host_run.
Qed.

Lemma host_verdict r (b : bool) d1 d2 :
  host (_ ← (if b then Fail r d1 [] else Pass r d2 []); mret r).
Proof.
  apply host_bind; [|intros; apply host_mret].
  destruct b; [apply host_Fail | apply host_Pass].
Qed.

Lemma sound_StartTimer r : sound r 1 1 (StartTimer r).
Proof.
  unfold StartTimer.
  bind_sound 0%nat 0%nat 1%nat 1%nat; [apply host_sound, host_time_Now | intros now].
  bind_sound 0%nat 0%nat 1%nat 1%nat; [by apply sound_modifyR | intros _].
  bind_sound 1%nat 1%nat 0%nat 0%nat; [apply sound_Case | intros; apply sound_mret].
Qed.

Lemma sound_StopTimer r : sound r 1 1 (StopTimer r).
Proof.
  unfold StopTimer.
  bind_sound 0%nat 0%nat 1%nat 1%nat; [apply host_sound, host_getR | intros x].
  bind_sound 0%nat 0%nat 1%nat 1%nat; [apply host_sound, host_time_Since | intros d].
  bind_sound 1%nat 1%nat 0%nat 0%nat; [apply sound_Case | intros; apply sound_mret].
Qed.

Lemma sound_Benchmark r {F} name (f : F) : sound r 1 1 (Benchmark r name f).
Proof.
  unfold Benchmark.
  bind_sound 1%nat 1%nat 0%nat 0%nat; [apply sound_Case | intros _].
  bind_sound 0%nat 0%nat 0%nat 0%nat; [by apply sound_modifyR | intros _].
  bind_sound 0%nat 0%nat 0%nat 0%nat; [|intros _].
  - apply (sound_Run r name _ 0 0). intros sub. apply host_sound. host_run.
  - bind_sound 0%nat 0%nat 0%nat 0%nat; [by apply sound_modifyR | intros; apply sound_mret].
Qed.

Lemma sound_Parallel r : sound r 1 1 (Parallel r).
Proof.
  unfold Parallel.
  bind_sound 0%nat 0%nat 1%nat 1%nat; [by apply sound_modifyR | intros _].
  bind_sound 0%nat 0%nat 1%nat 1%nat; [apply host_sound, host_getR | intros x].
  bind_sound 0%nat 0%nat 1%nat 1%nat; [apply host_sound, host_T_Parallel | intros _].
  bind_sound 1%nat 1%nat 0%nat 0%nat; [apply sound_Case | intros; apply sound_mret].
Qed.

Lemma sound_Skip r reason args : sound r 1 1 (Skip r reason args).
Proof.
  unfold Skip.
  bind_sound 1%nat 1%nat 0%nat 0%nat; [apply sound_Case | intros _].
  apply host_sound. host_run.
Qed.

Lemma sound_SkipIf r condition reason args : sound r 0 1 (SkipIf r condition reason args).
Proof.
  unfold SkipIf.
  bind_sound 0%nat 1%nat 0%nat 0%nat; [|intros; apply sound_mret].
  destruct condition; [|apply (sound_weaken _ 0 0); [apply sound_mret | lia | lia]].
  bind_sound 0%nat 1%nat 0%nat 0%nat; [|intros; apply sound_mret].
  apply (sound_weaken _ 1 1); [apply sound_Skip | lia | lia].
Qed.

Lemma sound_SkipUnless r condition reason args :
  sound r 0 1 (SkipUnless r condition reason args).
Proof.
  unfold SkipUnless.
  bind_sound 0%nat 1%nat 0%nat 0%nat; [|intros; apply sound_mret].
  destruct condition; cbn [negb];
    [apply (sound_weaken _ 0 0); [apply sound_mret | lia | lia]|].
  bind_sound 0%nat 1%nat 0%nat 0%nat; [|intros; apply sound_mret].
  apply (sound_weaken _ 1 1); [apply sound_Skip | lia | lia].
Qed.

Lemma sound_Cleanup r {F} (fn : F) : sound r 1 1 (Cleanup r fn).
Proof.
  unfold Cleanup.
  bind_sound 0%nat 0%nat 1%nat 1%nat; [apply host_sound, host_getR | intros x].
  bind_sound 0%nat 0%nat 1%nat 1%nat; [apply host_sound, host_T_Cleanup | intros _].
  bind_sound 1%nat 1%nat 0%nat 0%nat; [apply sound_Case | intros; apply sound_mret].
Qed.

Lemma sound_Setenv r key val : sound r 1 1 (Setenv r key val).
Proof.
  unfold Setenv.
  bind_sound 0%nat 0%nat 1%nat 1%nat; [apply host_sound, host_getR | intros x].
  bind_sound 0%nat 0%nat 1%nat 1%nat; [apply host_sound, host_T_Setenv | intros _].
  bind_sound 1%nat 1%nat 0%nat 0%nat; [apply sound_Case | intros; apply sound_mret].
Qed.

Lemma sound_RunParallel r {F} (fn : F) : sound r 1 1 (RunParallel r fn).
Proof.
  unfold RunParallel.
  bind_sound 1%nat 1%nat 0%nat 0%nat; [apply sound_Case | intros; apply sound_mret].
Qed.

Lemma sound_MemoryUsage r : sound r 1 1 (MemoryUsage r).
Proof.
  unfold MemoryUsage.
  bind_sound 0%nat 0%nat 1%nat 1%nat; [apply host_sound, host_act_read | intros m].
  bind_sound 1%nat 1%nat 0%nat 0%nat; [apply sound_Case | intros _].
  apply host_sound. host_run.
Qed.

Lemma sound_GoroutineCount r : sound r 1 1 (GoroutineCount r).
Proof.
  unfold GoroutineCount.
  bind_sound 0%nat 0%nat 1%nat 1%nat; [apply host_sound, host_act_read | intros m].
  bind_sound 1%nat 1%nat 0%nat 0%nat; [apply sound_Case | intros; apply sound_mret].
Qed.

Lemma sound_TestInfo r : sound r 3 3 (TestInfo r).
Proof.
  unfold TestInfo.
  bind_sound 1%nat 1%nat 2%nat 2%nat; [apply sound_Case | intros _].
  bind_sound 0%nat 0%nat 2%nat 2%nat; [apply host_sound, host_getR | intros x].
  bind_sound 0%nat 0%nat 2%nat 2%nat; [apply host_sound, host_T_Name | intros nm].
  bind_sound 0%nat 0%nat 2%nat 2%nat; [apply host_sound, host_T_Logf | intros _].
  bind_sound 0%nat 0%nat 2%nat 2%nat; [apply host_sound, host_T_Logf | intros _].
  bind_sound 0%nat 0%nat 2%nat 2%nat; [apply host_sound, host_time_Since | intros d].
  bind_sound 0%nat 0%nat 2%nat 2%nat; [apply host_sound, host_T_Logf | intros _].
  bind_sound 0%nat 0%nat 2%nat 2%nat; [apply host_sound, host_T_Logf | intros _].
  bind_sound 0%nat 0%nat 2%nat 2%nat; [apply host_sound, host_T_Logf | intros _].
  bind_sound 1%nat 1%nat 1%nat 1%nat; [apply sound_GoroutineCount | intros _].
  bind_sound 1%nat 1%nat 0%nat 0%nat; [apply sound_MemoryUsage | intros; apply sound_mret].
Qed.

(** A recovering function moves the counter as far as its body does, when
    the deferred call leaves the runners alone. *)
Lemma sound_withRecover r {A} (body : M A) (deferred : value → M unit) (zero : A) lo hi :
  sound r lo hi body → (∀ v, host (deferred v)) →
  sound r 0 hi (withRecover body deferred zero).
Proof.
  intros Hb Hd w. unfold withRecover, act.
  destruct (sound_weaken _ _ _ 0 hi _ Hb ltac:(lia) ltac:(lia) w) as [E1 C1].
  assert (∀ v (k : M A), host k → host (_ ← deferred v; k)) as Hk.
  { intros v k Hk. apply host_bind; [apply Hd | by intros]. }
  destruct (body w) as [[a| |v|v] w1]; cbn [fst snd] in *.
  - destruct (Hk VNil (mret a) (host_mret a) w1) as [R2 E2].
    split; [by eapply extends_trans|].
    destruct ((_ ← deferred VNil; mret a) w1) as [o2 w2]. by eapply counts_then_host.
  - destruct (Hk VNil goexit host_goexit w1) as [R2 E2].
    split; [by eapply extends_trans|].
    destruct ((_ ← deferred VNil; goexit) w1) as [o2 w2]. by eapply counts_then_host.
  - destruct (Hk v (mret zero) (host_mret zero) w1) as [R2 E2].
    split; [by eapply extends_trans|].
    destruct ((_ ← deferred v; mret zero) w1) as [o2 w2]. by eapply counts_then_host.
  - split; [done|]. by eapply counts_then_host.
Qed.

Lemma sound_AssertPanics r (fn : M unit) msg hi :
  sound r 0 hi fn → sound r 0 hi (AssertPanics r fn msg).
Proof.
  intros Hfn. unfold AssertPanics. apply (sound_withRecover r _ _ _ 0 hi).
  - bind_sound 0%nat hi 0%nat 0%nat; [done | intros _].
    apply host_sound. apply host_bind; [apply host_Fail | intros; apply host_mret].
  - intros v. destruct (isNil v); [apply host_Fail | apply host_Pass].
Qed.

Lemma sound_AssertNotPanics r (fn : M unit) msg hi :
  sound r 0 hi fn → sound r 0 hi (AssertNotPanics r fn msg).
Proof.
  intros Hfn. unfold AssertNotPanics. apply (sound_withRecover r _ _ _ 0 hi).
  - bind_sound 0%nat hi 0%nat 0%nat; [done | intros; apply sound_mret].
  - intros v. destruct (negb (isNil v)); [apply host_Fail | apply host_Pass].
Qed.

Lemma sound_void r {A} (m : M A) lo hi : sound r lo hi m → sound r lo hi (void m).
Proof.
  intros H. unfold void. bind_sound lo hi 0%nat 0%nat; [done | intros; apply sound_mret].
Qed.

Ltac host_method_step :=
  lazymatch goal with
  | |- host (Pass _ _ _) => apply host_Pass
  | |- host (Fail _ _ _) => apply host_Fail
  | |- host (Fatal _ _ _) => apply host_Fatal
  | |- host (Require _ _ _ _) => apply host_Require
  | |- host (FailNow _ _ _ _) => apply host_FailNow
  | |- host (AssertNoErrf _ _ _ _) => apply host_AssertNoErrf
  | |- host (AssertErrf _ _ _ _) => apply host_AssertErrf
  | |- host (if ?b then _ else _) => destruct b
  | |- _ => host_step
  end.
Ltac host_method :=
  unfold Helper, TempDir, Getenv, Deadline, AssertNoErr, AssertErr,
    AssertEqual, AssertNotEqual, AssertNil, AssertNotNil, AssertTrue, AssertFalse,
    AssertContains, AssertNotContains, go_panic;
  repeat host_method_step.

Ltac one_case L := apply sound_void; apply (sound_weaken _ 1 1); [apply L | lia | lia].

Lemma sound_execOp r tt o : sound r 0 (announcesOp o) (execOp r tt o).
Proof.
  destruct o; cbn [execOp announcesOp];
    lazymatch goal with
    | |- sound _ _ _ (void (Case _ _ _)) => one_case sound_Case
    | |- sound _ _ _ (void (StartTimer _)) => one_case sound_StartTimer
    | |- sound _ _ _ (void (StopTimer _)) => one_case sound_StopTimer
    | |- sound _ _ _ (void (Benchmark _ _ _)) =>
        apply sound_void; apply (sound_weaken _ 1 1); [apply sound_Benchmark | lia | lia]
    | |- sound _ _ _ (void (Parallel _)) => one_case sound_Parallel
    | |- sound _ _ _ (void (Skip _ _ _)) => one_case sound_Skip
    | |- sound _ _ _ (void (Setenv _ _ _)) => one_case sound_Setenv
    | |- sound _ _ _ (void (RunParallel _ _)) =>
        apply sound_void; apply (sound_weaken _ 1 1); [apply sound_RunParallel | lia | lia]
    | |- sound _ _ _ (void (MemoryUsage _)) => one_case sound_MemoryUsage
    | |- sound _ _ _ (void (GoroutineCount _)) => one_case sound_GoroutineCount
    | |- sound _ _ _ (void (TestInfo _)) =>
        apply sound_void; apply (sound_weaken _ 3 3); [apply sound_TestInfo | lia | lia]
    | |- sound _ _ _ (void (SkipIf _ _ _ _)) => apply sound_void; apply sound_SkipIf
    | |- sound _ _ _ (void (SkipUnless _ _ _ _)) => apply sound_void; apply sound_SkipUnless
    | |- sound _ _ _ (void _) => apply sound_void; apply host_sound; host_method
    | |- _ => apply host_sound; host_method
    end.
Qed.

(** A body moves the counter up, by the number of its announcements at
    most. *)
Lemma sound_exec r p : ∀ tt, sound r 0 (announces p) (exec r p tt).
Proof.
  induction p as [|o k IHk|name body IHb k IHk|name body IHb k IHk|cases f IHf k IHk
                 |fn _ k IHk|fn IHfn msg k IHk|fn IHfn msg k IHk];
    intros tt; cbn [exec announces].
  - apply sound_mret.
  - bind_sound 0%nat (announcesOp o) 0%nat (announces k); [apply sound_execOp | by intros].
  - bind_sound 0%nat (announces body) 0%nat (announces k); [|by intros].
    by apply (sound_Run r name _ 0).
  - bind_sound 0%nat (1 + announces body)%nat 0%nat (announces k); [|by intros].
    apply (sound_weaken _ 1 (1 + announces body)); [|lia|lia].
    by apply (sound_Caser r name _ 0).
  - bind_sound 0%nat (foldr (λ c n, 1 + announces (f c) + n) 0 cases)%nat 0%nat (announces k);
      [|by intros].
    apply (sound_Cases r cases _ (λ c, announces (f c))). intros c sub. apply IHf.
  - bind_sound 0%nat 1%nat 0%nat (announces k); [|by intros].
    apply (sound_weaken _ 1 1); [apply sound_Cleanup | lia | lia].
  - bind_sound 0%nat (announces fn) 0%nat (announces k); [|by intros].
    by apply sound_AssertPanics.
  - bind_sound 0%nat (announces fn) 0%nat (announces k); [|by intros].
    by apply sound_AssertNotPanics.
Qed.

(** *** Case announcements *)

Lemma modifyR_some w r x (g : R → R) :
  runners w !! r = Some x →
  modifyR r g w = (Returns (), withRunners (<[r := g x]> (runners w)) w).
Proof. intros Hr. unfold modifyR. by rewrite (bind_returns _ _ _ _ _ (getR_some _ _ _ Hr)). Qed.

Lemma Case_bound w r t format args :
  bound w r t → Case r format args w = (Returns r, announced r t format args w).
Proof.
  intros (x & s & Hr & <- & Ht). unfold Case, announced. rewrite Hr.
  rewrite (bind_returns _ _ _ _ _ (modifyR_some _ _ _ _ Hr)).
  erewrite (bind_returns (modifyR _ _)); last by apply modifyR_some, lookup_insert_eq.
  cbn [runners withRunners]. rewrite insert_insert_eq.
  erewrite (bind_returns (getR r)); last by apply getR_some, lookup_insert_eq.
  cbn [T withPrefix withCaseNum prefix caseNum].
  erewrite (bind_returns (T_Logf _ _ _)); last by apply (T_Logf_some _ _ s).
  done.
Qed.

Lemma bound_announced w r t format args :
  bound w r t → bound (announced r t format args w) r t.
Proof.
  intros (x & s & Hr & HT & Ht). unfold announced. rewrite Hr.
  eexists _, s. split_and!; [apply lookup_insert_eq | done | done].
Qed.

Lemma counter_announced w r t format args c :
  counter w r = Some c → intMin ≤ c → c + 1 ≤ intMax →
  counter (announced r t format args w) r = Some (c + 1) ∧
  prefix <$> runners (announced r t format args w) !! r = Some (casePrefix (c + 1)) ∧
  trace (announced r t format args w) = trace w ++ [EvLog t (caseLine (c + 1) format args)].
Proof.
  unfold counter, announced. destruct (runners w !! r) as [x|]; [|done].
  intros [= <-] Hlo Hhi. cbn [runners withRunners logged withTrace trace].
  rewrite lookup_insert_eq. cbn.
  by rewrite wrapInt_id by (unfold intMin, intMax in *; lia).
Qed.

Lemma New_bound w t title r w0 :
  New t title w = (Returns r, w0) →
  bound w0 r t ∧ counter w0 r = Some 0 ∧ r ≠ nil ∧ runners w !! r = None ∧
  trace w0 = trace w ++ [EvLog t ("Test Case => " +:+ title)].
Proof.
  unfold New, T_Log, time_Now, allocR, getT, emit, mbind, M_bind.
  destruct (tests w !! t) as [s|] eqn:Ht; [|done]. cbn.
  intros [= <- <-].
  pose proof (is_fresh ({[0%nat]} ∪ dom (runners w))) as Hf.
  split_and!.
  - eexists _, s. cbn. split_and!; [apply lookup_insert_eq | done | done].
  - unfold counter. cbn. by rewrite lookup_insert_eq.
  - unfold nil. set_solver.
  - apply not_elem_of_dom. set_solver.
  - done.
Qed.

Lemma CaseCalls_counts w r t calls c :
  bound w r t → counter w r = Some c → intMin ≤ c →
  c + Z.of_nat (length calls) ≤ intMax →
  ∃ w1, CaseCalls r calls w = (Returns (), w1) ∧ bound w1 r t ∧
        counter w1 r = Some (c + Z.of_nat (length calls)).
Proof.
  revert w c. induction calls as [|[format args] calls IH]; intros w c Hb Hc Hlo Hhi.
  - exists w. simpl. rewrite Z.add_0_r. done.
  - cbn [CaseCalls]. rewrite (bind_returns _ _ _ _ _ (Case_bound _ _ _ format args Hb)).
    cbn [length] in Hhi.
    destruct (counter_announced w r t format args c) as (Hc' & _ & _); [done | done | lia |].
    destruct (IH (announced r t format args w) (c + 1)) as (w1 & E & Hb1 & Hc1);
      [by apply bound_announced | done | lia | lia |].
    exists w1. split_and!; [done | done |].
    rewrite Hc1. f_equal. cbn [length]. lia.
Qed.

(** C4.  A runner made by [New] starts with the counter at zero.  After
    any run of calls of [Case] on it, the next call, the n-th, returns the
    same runner, sets the counter to n and the prefix to "Case n -> ", and
    logs the message with that prefix in front on the bound test.  Over
    any test body driving the runner, the counter does not decrease: it
    moves up by the announcements made, at most those the body contains.
    Both hold as long as the counter stays within the range of [int]. *)
Theorem Case_counts_announcements t title w r w0 :
  New t title w = (Returns r, w0) →
  counter w0 r = Some 0 ∧
  (∀ calls format args,
     Z.of_nat (length calls) < intMax →
     let n := Z.of_nat (length calls) + 1 in
     ∃ w1 w2,
       CaseCalls r calls w0 = (Returns (), w1) ∧
       counter w1 r = Some (Z.of_nat (length calls)) ∧
       Case r format args w1 = (Returns r, w2) ∧
       counter w2 r = Some n ∧
       prefix <$> runners w2 !! r = Some (casePrefix n) ∧
       trace w2 = trace w1 ++ [EvLog t (caseLine n format args)]) ∧
  (∀ p tt w1 c,
     counter w1 r = Some c → intMin ≤ c → c + Z.of_nat (announces p) ≤ intMax →
     ∃ c', counter (snd (exec r p tt w1)) r = Some c' ∧
           c ≤ c' ≤ c + Z.of_nat (announces p)).
Proof.
  intros HNew. destruct (New_bound _ _ _ _ _ HNew) as (Hb & Hc & _ & _ & _).
  split_and!; [done | |].
  - intros calls format args Hlen n.
    destruct (CaseCalls_counts w0 r t calls 0 Hb Hc) as (w1 & E1 & Hb1 & Hc1);
      [unfold intMin; lia | lia |].
    rewrite Z.add_0_l in Hc1.
    destruct (counter_announced w1 r t format args _ Hc1) as (Hc2 & Hp & Htr);
      [unfold intMin; lia | lia |].
    exists w1, (announced r t format args w1).
    split_and!; try done. by apply Case_bound.
  - intros p tt w1 c Hc1 Hlo Hhi.
    destruct (sound_exec r p tt w1) as [_ C].
    unfold counter in Hc1. destruct (runners w1 !! r) as [x|] eqn:Hx; [|done].
    injection Hc1 as <-.
    destruct (C x Hx) as (x' & Hx' & _ & Bd). destruct Bd as [Bd _]; [done | done |].
    exists (caseNum x'). unfold counter. by rewrite Hx'.
Qed.

(** *** Calls that return, bodies that end where they stand *)

Lemma bound_sound r t {A} (m : M A) lo hi w :
  sound r lo hi m → bound w r t → bound (snd (m w)) r t.
Proof.
  intros S (x & s & Hr & HT & Ht). destruct (S w) as [(Ha & _ & _) C].
  destruct (C x Hr) as (x' & Hx' & HT' & _).
  destruct (Ha t) as [s' Hs']; [by eexists|].
  exists x', s'. split_and!; [done | congruence | done].
Qed.

Lemma returned_inv {A} (o : outcome A) : returned o = true → ∃ a, o = Returns a.
Proof. destruct o; [by eexists | done | done | done]. Qed.

Lemma alive_stays r t tt {A} (m : M A) : alive r t m → stays r t tt m.
Proof. intros H w Hb _. left. by apply H. Qed.

Lemma alive_mret r t {A} (a : A) : alive r t (mret a).
Proof. by intros w _. Qed.

Lemma stays_bind r t tt {A B} (m : M A) (f : A → M B) lo hi :
  stays r t tt m → sound r lo hi m → (∀ a, stays r t tt (f a)) → stays r t tt (m ≫= f).
Proof.
  intros Hm S Hf w Hb Htt.
  pose proof (bound_sound r t m lo hi w S Hb) as Hb1.
  destruct (S w) as [(Ha & _ & _) _]. specialize (Ha tt Htt).
  destruct (Hm w Hb Htt) as [Hr|[Hg Hfin]].
  - apply returned_inv in Hr as [a Ha']. unfold mbind, M_bind.
    destruct (m w) as [o w1]. cbn [fst snd] in *. subst o. by apply Hf.
  - unfold mbind, M_bind. destruct (m w) as [o w1]. cbn [fst snd] in *. subst o.
    right. done.
Qed.

Lemma alive_bind r t {A B} (m : M A) (f : A → M B) lo hi :
  alive r t m → sound r lo hi m → (∀ a, alive r t (f a)) → alive r t (m ≫= f).
Proof.
  intros Hm S Hf w Hb.
  pose proof (bound_sound r t m lo hi w S Hb) as Hb1.
  specialize (Hm w Hb). apply returned_inv in Hm as [a Ha']. unfold mbind, M_bind.
  destruct (m w) as [o w1]. cbn [fst snd] in *. subst o. by apply Hf.
Qed.

Lemma alive_getR r t {B} (k : R → M B) :
  (∀ x, T x = t → alive r t (k x)) → alive r t (getR r ≫= k).
Proof.
  intros Hk w Hb. pose proof Hb as (x & s & Hr & HT & Ht).
  rewrite (bind_returns _ _ _ _ _ (getR_some _ _ _ Hr)). by apply Hk.
Qed.

Lemma alive_modifyR r t (g : R → R) : alive r t (modifyR r g).
Proof. intros w (x & s & Hr & HT & Ht). by rewrite (modifyR_some _ _ _ _ Hr). Qed.

Lemma alive_Case r t format args : alive r t (Case r format args).
Proof. intros w Hb. by rewrite (Case_bound _ _ _ _ _ Hb). Qed.

Lemma alive_T_Logf r t format args : alive r t (T_Logf t format args).
Proof. intros w (x & s & Hr & HT & Ht). by rewrite (T_Logf_some _ _ _ _ _ Ht). Qed.

Lemma alive_Pass r t desc args : alive r t (Pass r desc args).
Proof. intros w Hb. by rewrite (Pass_bound _ _ _ _ _ Hb). Qed.

Lemma alive_Fail r t desc args : alive r t (Fail r desc args).
Proof. intros w Hb. by rewrite (Fail_bound _ _ _ _ _ Hb). Qed.

Lemma alive_modifyT r t (g : TState → TState) : alive r t (modifyT t g).
Proof.
  intros w (x & s & Hr & HT & Ht). unfold modifyT.
  by rewrite (bind_returns _ _ _ _ _ (getT_some _ _ _ Ht)).
Qed.

Lemma alive_getT r t {B} (k : TState → M B) :
  (∀ s, alive r t (k s)) → alive r t (getT t ≫= k).
Proof.
  intros Hk w Hb. pose proof Hb as (x & s & Hr & HT & Ht).
  rewrite (bind_returns _ _ _ _ _ (getT_some _ _ _ Ht)). by apply Hk.
Qed.

Lemma alive_void r t {A} (m : M A) lo hi : alive r t m → sound r lo hi m → alive r t (void m).
Proof. intros H S. unfold void. eapply alive_bind; [done | done | intros; apply alive_mret]. Qed.

(** The subtest of a body that ends where it stands: [Run] returns, and
    the trace is the start of the subtest, the events of the body, the end
    of the subtest. *)
Lemma T_Run_stays r t name (f : nat → M unit) lo hi w :
  (∀ sub, sound r lo hi (f sub)) → (∀ sub, stays r t sub (f sub)) →
  bound w r t →
  ∃ sub wi ok w',
    T_Run t name f w = (Returns ok, w') ∧
    tests w !! sub = None ∧
    bound wi r t ∧ is_Some (tests wi !! sub) ∧
    trace wi = trace w ++ [EvStart t name sub] ∧
    trace w' = trace (snd (f sub wi)) ++ [EvEnd sub] ∧
    local sub (f sub wi) ∧
    bound w' r t.
Proof.
  intros Sf Hf Hb. pose proof Hb as (x & s & Hr & HT & Ht).
  unfold T_Run. rewrite (bind_returns _ _ _ _ _ (getT_some _ _ _ Ht)).
  set (s0 := mkT _ _ _ _ _ _ _ _).
  destruct (newT_fresh w s0) as (sub & En & _ & Hfresh).
  rewrite (bind_returns _ _ _ _ _ En).
  rewrite (bind_returns (emit _) _ _ () _ eq_refl).
  set (wi := withTrace _ _).
  assert (bound wi r t) as Hbi.
  { exists x, s. split_and!; [done | done |]. subst wi. cbn.
    rewrite lookup_insert_ne; [done|]. intros ->. congruence. }
  assert (is_Some (tests wi !! sub)) as Hsi.
  { subst wi. cbn. rewrite lookup_insert_eq. by eexists. }
  pose proof (Hf sub wi Hbi Hsi) as Hloc.
  pose proof (bound_sound r t (f sub) lo hi wi (Sf sub) Hbi) as Hb1.
  destruct (Sf sub wi) as [(Ha & _ & _) _]. destruct (Ha sub Hsi) as [s1 Hs1].
  assert (∃ ok w', endT sub (snd (f sub wi)) = (Returns ok, w') ∧
                   trace w' = trace (snd (f sub wi)) ++ [EvEnd sub] ∧ bound w' r t)
    as (ok & w' & Eend & Htr & Hb').
  { unfold endT. rewrite (bind_returns _ _ _ _ _ (getT_some _ _ _ Hs1)).
    eexists _, _. split; [reflexivity|]. split; [done|].
    destruct Hb1 as (x1 & s' & Hr1 & HT1 & Ht1). cbn.
    destruct (decide (sub = t)) as [->|Hne].
    - eexists x1, _. cbn. split_and!; [done | done | apply lookup_insert_eq].
    - exists x1, s'. cbn. split_and!; [done | done | by rewrite lookup_insert_ne]. }
  exists sub, wi, ok, w'. unfold act.
  split_and!; try done.
  destruct Hloc as [Hret|[Hg Hfin]].
  - apply returned_inv in Hret as [[] Hret].
    destruct (f sub wi) as [o w1]. cbn [fst snd] in *. by subst o.
  - destruct (f sub wi) as [o w1]. cbn [fst snd] in *. subst o. by rewrite Hfin.
Qed.

Lemma Run_stays r t name (f : nat → M unit) lo hi w :
  (∀ sub, sound r lo hi (f sub)) → (∀ sub, stays r t sub (f sub)) →
  bound w r t →
  ∃ sub wi w',
    Run r name f w = (Returns r, w') ∧
    tests w !! sub = None ∧
    bound wi r t ∧ is_Some (tests wi !! sub) ∧
    trace wi = trace w ++ [EvStart t name sub] ∧
    trace w' = trace (snd (f sub wi)) ++ [EvEnd sub] ∧
    local sub (f sub wi) ∧
    bound w' r t.
Proof.
  intros Sf Hf Hb. pose proof Hb as (x & s & Hr & HT & Ht).
  destruct (T_Run_stays r t name f lo hi w Sf Hf Hb)
    as (sub & wi & ok & w' & E & H1 & H2 & H3 & H4 & H5 & H6 & H7).
  exists sub, wi, w'. unfold Run.
  rewrite (bind_returns _ _ _ _ _ (getR_some _ _ _ Hr)). rewrite HT.
  rewrite (bind_returns _ _ _ _ _ E). done.
Qed.

Lemma alive_Run r t name (f : nat → M unit) lo hi :
  (∀ sub, sound r lo hi (f sub)) → (∀ sub, stays r t sub (f sub)) →
  alive r t (Run r name f).
Proof.
  intros Sf Hf w Hb.
  destruct (Run_stays r t name f lo hi w Sf Hf Hb) as (sub & wi & w' & -> & _). done.
Qed.

Lemma alive_always r t {A} (m : M A) : (∀ w, returned (fst (m w)) = true) → alive r t m.
Proof. intros H w _. apply H. Qed.

Ltac sound_any :=
  lazymatch goal with
  | |- sound _ _ _ (Case _ _ _) => apply sound_Case
  | |- sound _ _ _ (GoroutineCount _) => apply sound_GoroutineCount
  | |- sound _ _ _ (MemoryUsage _) => apply sound_MemoryUsage
  | |- sound _ _ _ (modifyR _ _) => by apply sound_modifyR
  | |- _ => apply host_sound; host_method
  end.

Ltac alive_step :=
  lazymatch goal with
  | |- alive _ _ (mret _) => apply alive_mret
  | |- alive _ _ (Case _ _ _) => apply alive_Case
  | |- alive _ _ (Pass _ _ _) => apply alive_Pass
  | |- alive _ _ (Fail _ _ _) => apply alive_Fail
  | |- alive _ _ (T_Logf _ _ _) => apply alive_T_Logf
  | |- alive _ _ (modifyR _ _) => apply alive_modifyR
  | |- alive _ _ (modifyT _ _) => apply alive_modifyT
  | |- alive _ _ (act _) => apply alive_always; by intros
  | |- alive _ _ time_Now => apply alive_always; by intros
  | |- alive _ _ (time_Since _) => apply alive_always; by intros
  | |- alive _ _ (os_Getenv _) => apply alive_always; by intros
  | |- alive _ _ (if ?b then _ else _) => destruct b
  | |- alive _ _ (getR _ ≫= _) => apply alive_getR; intros ? <-
  | |- alive _ _ (getT _ ≫= _) => apply alive_getT; intros ?
  | |- alive _ _ (_ ≫= _) => eapply alive_bind; [ | sound_any | intros ?]
  end.
Ltac alive_run := repeat alive_step.

Lemma alive_StartTimer r t : alive r t (StartTimer r).
Proof. unfold StartTimer. alive_run. Qed.

Lemma alive_StopTimer r t : alive r t (StopTimer r).
Proof. unfold StopTimer. alive_run. Qed.

Lemma alive_Benchmark r t {F} name (f : F) : alive r t (Benchmark r name f).
Proof.
  unfold Benchmark.
  eapply alive_bind; [apply alive_Case | apply sound_Case | intros _].
  eapply alive_bind; [apply alive_modifyR | by apply sound_modifyR | intros _].
  eapply alive_bind; [| |intros _; alive_run].
  - apply (alive_Run r t name _ 0 0).
    + intros sub. apply host_sound. host_run.
    + intros sub. apply alive_stays. alive_run.
  - apply (sound_Run r name _ 0 0). intros sub. apply host_sound. host_run.
Qed.

Lemma alive_Cleanup r t {F} (fn : F) : alive r t (Cleanup r fn).
Proof. unfold Cleanup, T_Cleanup. alive_run. Qed.

Lemma alive_RunParallel r t {F} (fn : F) : alive r t (RunParallel r fn).
Proof. unfold RunParallel. alive_run. Qed.

Lemma alive_MemoryUsage r t : alive r t (MemoryUsage r).
Proof. unfold MemoryUsage. alive_run. Qed.

Lemma alive_GoroutineCount r t : alive r t (GoroutineCount r).
Proof. unfold GoroutineCount. alive_run. Qed.

Lemma alive_TestInfo r t : alive r t (TestInfo r).
Proof.
  unfold TestInfo, T_Name. alive_run.
  - apply alive_GoroutineCount.
  - apply alive_MemoryUsage.
Qed.

Lemma alive_verdict r t (b : bool) d1 d2 :
  alive r t (_ ← (if b then Fail r d1 [] else Pass r d2 []); mret r).
Proof.
  eapply alive_bind; [|apply host_sound|intros; apply alive_mret].
  - destruct b; [apply alive_Fail | apply alive_Pass].
  - destruct b; [apply host_Fail | apply host_Pass].
Qed.

Lemma stays_T_halt r t tt (m : M unit) :
  host m → (∀ w s, tests w !! tt = Some s → fst (m w) = Goexit ∧ finished (snd (m w)) tt = true) →
  stays r t tt m.
Proof. intros _ H w _ [s Hs]. right. by apply (H w s). Qed.

Lemma T_SkipNow_some w t s :
  tests w !! t = Some s →
  T_SkipNow t w = (Goexit, withTests (<[t := setFinished (setSkipped s)]> (tests w)) w).
Proof.
  intros Ht. unfold T_SkipNow. by rewrite (bind_returns _ _ _ _ _ (getT_some _ _ _ Ht)).
Qed.

Ltac alive_op A S :=
  apply alive_stays; eapply alive_void; [apply A | apply S].
Ltac alive_verdict_op :=
  apply alive_stays; eapply alive_void;
  [ unfold AssertEqual, AssertNotEqual, AssertNil, AssertNotNil,
      AssertTrue, AssertFalse, AssertContains, AssertNotContains;
    apply alive_verdict
  | apply host_sound; host_method ].

(** An operation that is calm ends where it stands. *)
Lemma stays_execOp r t tt o : calmOp o = true → stays r t tt (execOp r tt o).
Proof.
  destruct o; cbn [calmOp execOp]; intros Hc; try discriminate Hc;
    lazymatch goal with
    | |- stays _ _ _ (void (Case _ _ _)) => alive_op alive_Case sound_Case
    | |- stays _ _ _ (void (StartTimer _)) => alive_op alive_StartTimer sound_StartTimer
    | |- stays _ _ _ (void (StopTimer _)) => alive_op alive_StopTimer sound_StopTimer
    | |- stays _ _ _ (void (Benchmark _ _ _)) =>
        apply alive_stays; eapply alive_void; [apply alive_Benchmark | apply sound_Benchmark]
    | |- stays _ _ _ (void (RunParallel _ _)) =>
        apply alive_stays; eapply alive_void;
        [apply alive_RunParallel | apply sound_RunParallel]
    | |- stays _ _ _ (void (MemoryUsage _)) => alive_op alive_MemoryUsage sound_MemoryUsage
    | |- stays _ _ _ (void (GoroutineCount _)) =>
        alive_op alive_GoroutineCount sound_GoroutineCount
    | |- stays _ _ _ (void (TestInfo _)) => alive_op alive_TestInfo sound_TestInfo
    | |- stays _ _ _ (void (AssertEqual _ _ _ _)) => alive_verdict_op
    | |- stays _ _ _ (void (AssertNotEqual _ _ _ _)) => alive_verdict_op
    | |- stays _ _ _ (void (AssertNil _ _ _)) => alive_verdict_op
    | |- stays _ _ _ (void (AssertNotNil _ _ _)) => alive_verdict_op
    | |- stays _ _ _ (void (AssertTrue _ _ _)) => alive_verdict_op
    | |- stays _ _ _ (void (AssertFalse _ _ _)) => alive_verdict_op
    | |- stays _ _ _ (void (AssertContains _ _ _ _)) => alive_verdict_op
    | |- stays _ _ _ (void (AssertNotContains _ _ _ _)) => alive_verdict_op
    | |- stays _ _ _ (void (Helper _)) =>
        apply alive_stays; unfold void, Helper, T_Helper; alive_run
    | |- stays _ _ _ (void (Getenv _ _)) =>
        apply alive_stays; unfold void, Getenv; alive_run
    | |- stays _ _ _ (void (Deadline _)) =>
        apply alive_stays; unfold void, Deadline, T_Deadline; alive_run
    | |- stays _ _ _ (void (SkipIf _ _ _ _)) =>
        apply negb_true_iff in Hc; subst; apply alive_stays; unfold void, SkipIf; alive_run
    | |- stays _ _ _ (void (SkipUnless _ _ _ _)) =>
        subst; apply alive_stays; unfold void, SkipUnless; cbn [negb]; alive_run
    | |- stays _ _ _ (Pass _ _ _) => apply alive_stays, alive_Pass
    | |- stays _ _ _ (Fail _ _ _) => apply alive_stays, alive_Fail
    | |- stays _ _ _ (Require _ ?c _ _) =>
        unfold Require; destruct c; apply alive_stays; [apply alive_Pass | apply alive_Fail]
    | |- stays _ _ _ (FailNow _ _ _ _) =>
        unfold FailNow; rewrite Hc; apply alive_stays, alive_Pass
    | |- stays _ _ _ (AssertNoErr _ _) =>
        unfold AssertNoErr, AssertNoErrf; rewrite Hc; apply alive_stays, alive_Pass
    | |- stays _ _ _ (AssertNoErrf _ _ _ _) =>
        unfold AssertNoErrf; rewrite Hc; apply alive_stays, alive_Pass
    | |- stays _ _ _ (AssertErr _ _) =>
        unfold AssertErr, AssertErrf; apply negb_true_iff in Hc; rewrite Hc;
        apply alive_stays, alive_Pass
    | |- stays _ _ _ (AssertErrf _ _ _ _) =>
        unfold AssertErrf; apply negb_true_iff in Hc; rewrite Hc;
        apply alive_stays, alive_Pass
    | |- stays _ _ _ (time_Sleep _) => apply alive_stays, alive_always; by intros
    | |- _ => idtac
    end.
  - intros w _ [s Hs]. left. by rewrite (T_Logf_some _ _ _ _ _ Hs).
  - intros w _ [s Hs]. left. unfold T_Errorf.
    rewrite (bind_returns _ _ _ _ _ (T_Logf_some _ _ _ _ _ Hs)).
    by erewrite T_Fail_some.
  - intros w _ [s Hs]. right. unfold T_Fatalf.
    rewrite (bind_returns _ _ _ _ _ (T_Logf_some _ _ _ _ _ Hs)).
    erewrite T_FailNow_some by done. split; [done|].
    by eapply halted_flags.
  - intros w _ [s Hs]. right. erewrite T_FailNow_some by done. split; [done|].
    by eapply halted_flags.
  - intros w _ [s Hs]. right. rewrite (T_SkipNow_some _ _ _ Hs). split; [done|].
    unfold finished. cbn. by rewrite lookup_insert_eq.
Qed.

Lemma stays_withRecover r t tt {A} (body : M A) (deferred : value → M unit) (zero : A) lo hi :
  stays r t tt body → sound r lo hi body →
  (∀ v, host (deferred v)) → (∀ v, alive r t (deferred v)) →
  stays r t tt (withRecover body deferred zero).
Proof.
  intros Hb Sb Hh Ha w Hbw Htt. unfold withRecover, act.
  pose proof (bound_sound r t body lo hi w Sb Hbw) as Hb1.
  destruct (Hb w Hbw Htt) as [Hr|[Hg Hfin]].
  - apply returned_inv in Hr as [a Hr]. destruct (body w) as [o w1]. cbn [fst snd] in *.
    subst o. left. specialize (Ha VNil w1 Hb1). apply returned_inv in Ha as [[] Ha].
    unfold mbind, M_bind. destruct (deferred VNil w1) as [o2 w2]. cbn [fst] in Ha. by subst o2.
  - destruct (body w) as [o w1]. cbn [fst snd] in *. subst o. right.
    specialize (Ha VNil w1 Hb1). apply returned_inv in Ha as [[] Ha].
    destruct (Hh VNil w1) as [_ (_ & Hf & _)]. unfold mbind, M_bind.
    destruct (deferred VNil w1) as [o2 w2]. cbn [fst snd] in *. subst o2.
    split; [done | by apply Hf].
Qed.

Lemma alive_Cases r t cases (f : caseImpl → nat → M unit) (hi : caseImpl → nat) :
  (∀ c sub, sound r 0 (hi c) (f c sub)) →
  (∀ c, c ∈ cases → ∀ sub, stays r t sub (f c sub)) →
  alive r t (Cases r cases f).
Proof.
  intros Sf Hf. induction cases as [|c cases IH]; [apply alive_mret|].
  cbn [Cases].
  eapply alive_bind; [apply alive_Case | apply sound_Case | intros _].
  eapply alive_bind; [| |intros _].
  - apply (alive_Run r t _ _ 0 (hi c)); [by intros | intros sub]. apply Hf. by left.
  - by apply (sound_Run r _ _ 0 (hi c)).
  - apply IH. intros c' Hc'. apply Hf. by right.
Qed.

(** A calm body ends where it stands. *)
Lemma stays_exec r t p : ∀ tt, calm p = true → stays r t tt (exec r p tt).
Proof.
  induction p as [|o k IHk|name body IHb k IHk|name body IHb k IHk|cases f IHf k IHk
                 |fn _ k IHk|fn IHfn msg k IHk|fn IHfn msg k IHk];
    intros tt; cbn [exec calm]; rewrite ?andb_true_iff.
  - intros _. apply alive_stays, alive_mret.
  - intros [Ho Hk]. eapply stays_bind; [by apply stays_execOp | apply sound_execOp | intros; by apply IHk].
  - intros [Hb Hk]. eapply stays_bind; [| |intros; by apply IHk].
    + apply alive_stays. apply (alive_Run r t _ _ 0 (announces body)).
      * intros sub. apply sound_exec.
      * intros sub. by apply IHb.
    + apply (sound_Run r _ _ 0 (announces body)). intros sub. apply sound_exec.
  - intros [Hb Hk]. eapply stays_bind; [| |intros; by apply IHk].
    + apply alive_stays. unfold Caser.
      eapply alive_bind; [apply alive_Case | apply sound_Case | intros _].
      eapply alive_bind; [| |intros; apply alive_mret].
      * apply (alive_Run r t _ _ 0 (announces body)).
        -- intros sub. apply sound_exec.
        -- intros sub. by apply IHb.
      * apply (sound_Run r _ _ 0 (announces body)). intros sub. apply sound_exec.
    + apply (sound_Caser r _ _ 0 (announces body)). intros sub. apply sound_exec.
  - intros [Hf Hk]. eapply stays_bind; [| |intros; by apply IHk].
    + apply alive_stays. apply (alive_Cases r t _ _ (λ c, announces (f c))).
      * intros c sub. apply sound_exec.
      * intros c Hc sub. apply IHf. rewrite forallb_forall in Hf. apply Hf.
        by apply list_elem_of_In.
    + apply (sound_Cases r _ _ (λ c, announces (f c))). intros c sub. apply sound_exec.
  - intros Hk. eapply stays_bind; [| |intros; by apply IHk].
    + apply alive_stays, alive_Cleanup.
    + apply sound_Cleanup.
  - intros [Hfn Hk]. eapply stays_bind; [| |intros; by apply IHk].
    + unfold AssertPanics. eapply stays_withRecover.
      * eapply stays_bind; [by apply IHfn | apply sound_exec | intros _].
        apply alive_stays. eapply alive_bind;
          [apply alive_Fail | apply host_sound, host_Fail | intros; apply alive_mret].
      * eapply sound_bind; [apply sound_exec | intros _].
        apply host_sound. apply host_bind; [apply host_Fail | intros; apply host_mret].
      * intros v. destruct (isNil v); [apply host_Fail | apply host_Pass].
      * intros v. destruct (isNil v); [apply alive_Fail | apply alive_Pass].
    + by apply sound_AssertPanics, sound_exec.
  - intros [Hfn Hk]. eapply stays_bind; [| |intros; by apply IHk].
    + unfold AssertNotPanics. eapply stays_withRecover.
      * eapply stays_bind; [by apply IHfn | apply sound_exec | intros _].
        apply alive_stays, alive_mret.
      * eapply sound_bind; [apply sound_exec | intros _; apply sound_mret].
      * intros v. destruct (negb (isNil v)); [apply host_Fail | apply host_Pass].
      * intros v. destruct (negb (isNil v)); [apply alive_Fail | apply alive_Pass].
    + by apply sound_AssertNotPanics, sound_exec.
Qed.

(** *** The batch *)

Lemma trace_announced w r t format args :
  bound w r t →
  ∃ n, trace (announced r t format args w) = trace w ++ [EvLog t (caseLine n format args)].
Proof.
  intros (x & s & Hr & _ & _). unfold announced. rewrite Hr. by eexists.
Qed.

(** *** The helpers that announce a case *)

Lemma counter_exact r {A} (m : M A) n w c :
  sound r n n m → counter w r = Some c → intMin ≤ c → c + Z.of_nat n ≤ intMax →
  returned (fst (m w)) = true → counter (snd (m w)) r = Some (c + Z.of_nat n).
Proof.
  intros S Hc Hlo Hhi Hret. destruct (S w) as [_ C].
  unfold counter in *. destruct (runners w !! r) as [x|] eqn:Hx; [|done].
  injection Hc as <-. destruct (C x Hx) as (x' & Hx' & _ & Bd).
  destruct Bd as [Bd L]; [done | done |]. specialize (L Hret).
  rewrite Hx'. cbn. f_equal. lia.
Qed.

Lemma T_Skipf_some w t s format args :
  tests w !! t = Some s →
  T_Skipf t format args w =
    (Goexit, withTests (<[t := setFinished (setSkipped s)]> (tests w))
                       (logged t (Sprintf format args) w)).
Proof.
  intros Ht. unfold T_Skipf. rewrite (bind_returns _ _ _ _ _ (T_Logf_some _ _ _ _ _ Ht)).
  by erewrite T_SkipNow_some.
Qed.

Lemma Skip_bound w r t reason args c :
  bound w r t → counter w r = Some c → intMin ≤ c → c + 1 ≤ intMax →
  fst (Skip r reason args w) = Goexit ∧
  counter (snd (Skip r reason args w)) r = Some (c + 1) ∧
  skipped (snd (Skip r reason args w)) t = true ∧
  finished (snd (Skip r reason args w)) t = true.
Proof.
  intros Hb Hc Hlo Hhi. unfold Skip.
  rewrite (bind_returns _ _ _ _ _ (Case_bound _ _ _ _ _ Hb)).
  destruct (counter_announced w r t ("Skipping test: " +:+ reason) args c Hc Hlo Hhi)
    as (Hc1 & _ & _).
  destruct (bound_announced w r t ("Skipping test: " +:+ reason) args Hb)
    as (x & s & Hr & <- & Ht).
  rewrite (bind_returns _ _ _ _ _ (getR_some _ _ _ Hr)).
  erewrite (bind_goexit (T_Skipf _ _ _)); last by apply (T_Skipf_some _ _ s).
  cbn [fst snd]. unfold skipped, finished. cbn [tests withTests].
  rewrite lookup_insert_eq. split_and!; done.
Qed.


(** ** Further properties of the runner file and the case file *)

Lemma bind_mret_left {A B} (a : A) (k : A → M B) w : (mret a ≫= k) w = k a w.
Proof. done. Qed.

Lemma bind_assoc {A B C} (m : M A) (f : A → M B) (g : B → M C) w :
  ((m ≫= f) ≫= g) w = (m ≫= λ a, f a ≫= g) w.
Proof. unfold mbind, M_bind. by destruct (m w) as [[a| |v|v] w1]. Qed.

Lemma bind_ext {A B} (m : M A) (f g : A → M B) w :
  (∀ a w', f a w' = g a w') → (m ≫= f) w = (m ≫= g) w.
Proof. intros H. unfold mbind, M_bind. destruct (m w) as [[a| |v|v] w1]; [apply H | done..]. Qed.

Lemma bind_mret_same {A} (m : M A) (r : A) w :
  (∀ a w', m w = (Returns a, w') → a = r) → (_ ← m; mret r) w = m w.
Proof.
  intros H. unfold mbind, M_bind. destruct (m w) as [[a| |v|v] w1] eqn:E; [|done..].
  by rewrite (H a w1).
Qed.

(** X1.  [SkipIf(c, ...)] is [SkipUnless(!c, ...)].  When the condition does
    not trigger, either call returns the runner and touches nothing, whatever
    the state of the runner; when it triggers, the call is [Skip]. *)
Theorem SkipIf_is_SkipUnless_negated r condition reason args w :
  SkipIf r condition reason args w = SkipUnless r (negb condition) reason args w ∧
  SkipIf r false reason args w = (Returns r, w) ∧
  SkipUnless r true reason args w = (Returns r, w) ∧
  SkipIf r true reason args w = Skip r reason args w ∧
  SkipUnless r false reason args w = Skip r reason args w.
Proof.
  assert ((_ ← (_ ← Skip r reason args; mret ()); mret r) w = Skip r reason args w) as E.
  { rewrite bind_assoc. unfold Skip. rewrite !bind_assoc.
    apply bind_ext. intros a w1. rewrite !bind_assoc.
    apply bind_ext. intros x w2. rewrite !bind_assoc.
    apply bind_ext. intros [] w3. reflexivity. }
  split_and!; try done.
  by destruct condition.
Qed.

(** X2.  A batch over a list put together from two lists is the batch over
    the first followed by the batch over the second, and the batch over the
    empty list returns at once, with nothing logged and nothing counted. *)
Theorem Cases_of_appended_lists r cases1 cases2 (f : caseImpl → nat → M unit) w :
  Cases r (cases1 ++ cases2) f w = (_ ← Cases r cases1 f; Cases r cases2 f) w ∧
  Cases r [] f w = (Returns (), w).
Proof.
  split; [|done]. revert w. induction cases1 as [|c cases1 IH]; intros w; [done|].
  cbn [Cases app]. rewrite !bind_assoc. apply bind_ext. intros a w1.
  rewrite !bind_assoc. apply bind_ext. intros a' w2. apply IH.
Qed.

(** X3.  [New(t, title)] logs the title line on [t] and returns a runner that
    did not exist before and is not nil: counter zero, empty prefix, start
    time now, bound to [t]; the tests and the other runners are as before.
    On a nil [t] it panics and nothing changes. *)
Theorem New_allocates_a_fresh_runner t title w :
  (tests w !! t = None → New t title w = (Panics nilDeref, w)) ∧
  (is_Some (tests w !! t) →
   ∃ r w',
     New t title w = (Returns r, w') ∧
     r ≠ nil ∧ runners w !! r = None ∧
     runners w' !! r = Some (mkR title 0 EmptyString (clock w) false false t) ∧
     (∀ r', r' ≠ r → runners w' !! r' = runners w !! r') ∧
     tests w' = tests w ∧
     trace w' = trace w ++ [EvLog t ("Test Case => " +:+ title)]).
Proof.
  unfold New, T_Log, time_Now, allocR, getT, emit, mbind, M_bind. split.
  - by intros ->.
  - intros [s ->]. cbn.
    pose proof (is_fresh ({[0%nat]} ∪ dom (runners w))) as Hf.
    eexists _, _. split; [reflexivity|]. cbn. split_and!.
    + unfold nil. set_solver.
    + apply not_elem_of_dom. set_solver.
    + apply lookup_insert_eq.
    + intros r' Hne. by rewrite lookup_insert_ne.
    + done.
    + done.
Qed.

(** *** Fatal *)

Lemma setFailed_idempotent s : setFailed (setFailed s) = setFailed s.
Proof. done. Qed.

Lemma foldr_alter_setFailed_lookup (l : list nat) (m : gmap nat TState) k :
  foldr (alter setFailed) m l !! k =
    if decide (k ∈ l) then setFailed <$> m !! k else m !! k.
Proof.
  induction l as [|a l IH]; cbn [foldr].
  - by rewrite decide_False by apply not_elem_of_nil.
  - rewrite lookup_alter. destruct (decide (a = k)) as [->|Hne].
    + rewrite (decide_True (P := k ∈ k :: l)) by (by left). rewrite IH.
      destruct (decide (k ∈ l)); [|done]. by destruct (m !! k).
    + rewrite IH. destruct (decide (k ∈ l)) as [H1|H1].
      * by rewrite decide_True by (by right).
      * rewrite decide_False; [done|]. intros [->|H2]%elem_of_cons; done.
Qed.

Lemma foldr_alter_setFailed_twice (l : list nat) (m : gmap nat TState) :
  foldr (alter setFailed) (foldr (alter setFailed) m l) l = foldr (alter setFailed) m l.
Proof.
  apply map_eq. intros k. rewrite !foldr_alter_setFailed_lookup.
  case_decide; [|done]. by destruct (m !! k).
Qed.

Lemma tests_markedFailed_twice w t :
  tests (markedFailed t (markedFailed t w)) = tests (markedFailed t w).
Proof.
  unfold markedFailed at 2 3. destruct (tests w !! t) as [s|] eqn:Ht.
  - unfold markedFailed. cbn [tests withTests withTrace].
    rewrite foldr_alter_setFailed_lookup, Ht, decide_True by (by left).
    cbn [fmap option_fmap option_map tests withTests t_ancestors setFailed].
    apply foldr_alter_setFailed_twice.
  - unfold markedFailed. by rewrite Ht.
Qed.

Lemma tests_markedFinished_congr t w1 w2 :
  tests w1 = tests w2 → tests (markedFinished t w1) = tests (markedFinished t w2).
Proof.
  intros E. unfold markedFinished. rewrite E.
  destruct (tests w2 !! t); cbn [tests withTests]; by rewrite ?E.
Qed.

Lemma logs_app t l1 l2 : logs t (l1 ++ l2) = logs t l1 ++ logs t l2.
Proof.
  induction l1 as [|e l1 IH]; [done|]. destruct e; simpl; try done.
  case_bool_decide; [by rewrite IH | done].
Qed.

Lemma Fatal_bound w r t desc args :
  bound w r t → Fatal r desc args w = (Goexit, halted t (logged t (failLine desc args) w)).
Proof.
  intros (x & s & Hr & <- & Ht). unfold Fatal, T_Fatalf.
  rewrite (bind_returns _ _ _ _ _ (getR_some _ _ _ Hr)), prependTag_cons.
  rewrite (bind_returns _ _ _ _ _ (T_Logf_some _ _ _ _ _ Ht)).
  by apply (T_FailNow_some _ _ s).
Qed.

Lemma FailNow_false_bound w r t desc args :
  bound w r t → FailNow r false desc args w = (Goexit, halted t (failedWith t desc args w)).
Proof.
  intros Hb. unfold FailNow. rewrite (bind_returns _ _ _ _ _ (Fail_bound _ _ _ _ _ Hb)).
  destruct (bound_failedWith _ _ _ desc args Hb) as (x & s & Hr & <- & Ht).
  rewrite (bind_returns _ _ _ _ _ (getR_some _ _ _ Hr)).
  by apply (T_FailNow_some _ _ s).
Qed.

(** X4.  On a live runner, [Fatal] logs the failure line, marks the bound
    test failed and finished and exits the goroutine, so that no statement
    after it is reached.  It leaves the tests in the state [FailNow(false,
    ...)] leaves them in, and the same lines in the log. *)
Theorem Fatal_halts_like_FailNow w r t desc args :
  bound w r t →
  Fatal r desc args w = (Goexit, halted t (logged t (failLine desc args) w)) ∧
  (∀ B (k : unit → M B),
     (Fatal r desc args ≫= k) w = (Goexit, halted t (logged t (failLine desc args) w))) ∧
  failed (snd (Fatal r desc args w)) t = true ∧
  finished (snd (Fatal r desc args w)) t = true ∧
  fst (Fatal r desc args w) = fst (FailNow r false desc args w) ∧
  tests (snd (Fatal r desc args w)) = tests (snd (FailNow r false desc args w)) ∧
  logs t (trace (snd (Fatal r desc args w))) =
    logs t (trace (snd (FailNow r false desc args w))).
Proof.
  intros Hb. pose proof (Fatal_bound w r t desc args Hb) as E.
  pose proof (FailNow_false_bound w r t desc args Hb) as E2.
  pose proof Hb as (x & s & Hr & HT & Ht).
  destruct (halted_flags (logged t (failLine desc args) w) t s Ht) as [Hfa Hfi].
  rewrite E, E2. cbn [fst snd]. split_and!; try done.
  - intros B k. by apply bind_goexit.
  - unfold halted, failedWith. apply tests_markedFinished_congr.
    by rewrite tests_markedFailed_twice.
  - assert (∀ w0, trace (markedFinished t w0) = trace w0) as HF.
    { intros w0. unfold markedFinished. by destruct (tests w0 !! t). }
    assert (∀ w0, logs t (trace (markedFailed t w0)) = logs t (trace w0)) as HM.
    { intros w0. unfold markedFailed. destruct (tests w0 !! t); cbn [trace withTests withTrace].
      - rewrite logs_app. apply app_nil_r.
      - done. }
    unfold halted, failedWith. by rewrite !HF, !HM.
Qed.

(** *** The verdict assertions *)

Lemma verdict_bound w r t (b : bool) d1 d2 :
  bound w r t →
  (_ ← (if b then Fail r d1 [] else Pass r d2 []); mret r) w =
    (Returns r, if b then failedWith t d1 [] w else passed t d2 [] w).
Proof.
  intros Hb. destruct b.
  - by rewrite (bind_returns _ _ _ _ _ (Fail_bound _ _ _ _ _ Hb)).
  - by rewrite (bind_returns _ _ _ _ _ (Pass_bound _ _ _ _ _ Hb)).
Qed.

(** X5.  On a live runner, [AssertTrue] records a pass exactly when the
    condition holds and [AssertFalse] exactly when it does not; otherwise
    each records one failure, with the caller's first message in place of
    the default text.  Both return the runner and neither halts. *)
Theorem AssertTrue_and_AssertFalse_verdicts w r t condition msg :
  bound w r t →
  AssertTrue r condition msg w =
    (Returns r, if condition then passed t "Condition is true" [] w
                else failedWith t (message "Expected condition to be true" msg) [] w) ∧
  AssertFalse r condition msg w =
    (Returns r, if condition
                then failedWith t (message "Expected condition to be false" msg) [] w
                else passed t "Condition is false" [] w) ∧
  (snd (AssertTrue r condition msg w) = passed t "Condition is true" [] w
     ↔ condition = true) ∧
  (snd (AssertFalse r condition msg w) = passed t "Condition is false" [] w
     ↔ condition = false) ∧
  (∀ m rest default, message default (m :: rest) = m) ∧
  (∀ default, message default [] = default).
Proof.
  intros Hb. pose proof Hb as (x & s & Hr & HT & Ht).
  pose proof (passed_ne_failedWith w t s) as Hne.
  unfold AssertTrue, AssertFalse. rewrite !(verdict_bound _ _ _ _ _ _ Hb).
  destruct condition; cbn [negb snd]; split_and!; try done.
  - split; [|done]. intros E. symmetry in E. by apply Hne in E.
  - split; [|done]. intros E. symmetry in E. by apply Hne in E.
Qed.

(** *** Deep equality *)

Lemma value_ind_nested (P : value → Prop) :
  P VNil → (∀ b, P (VBool b)) → (∀ t n, P (VNum t n)) → (∀ s, P (VString s)) →
  (∀ e, P (VPtr e None)) → (∀ e v, P v → P (VPtr e (Some v))) →
  (∀ e, P (VSlice e None)) → (∀ e l, Forall P l → P (VSlice e (Some l))) →
  (∀ e l, Forall P l → P (VArray e l)) → (∀ n l, Forall P l → P (VStruct n l)) →
  (∀ n v, P v → P (VNamed n v)) → ∀ v, P v.
Proof.
  intros HNil HBool HNum HStr HP0 HP1 HS0 HS1 HA HSt HN.
  refine (fix IH (v : value) : P v :=
    let all := fix all (l : list value) : Forall P l :=
      match l with
      | [] => Forall_nil_2 P
      | x :: xs => Forall_cons_2 P x xs (IH x) (all xs)
      end in
    match v with
    | VNil => HNil
    | VBool b => HBool b
    | VNum t n => HNum t n
    | VString s => HStr s
    | VPtr e None => HP0 e
    | VPtr e (Some p) => HP1 e p (IH p)
    | VSlice e None => HS0 e
    | VSlice e (Some l) => HS1 e l (all l)
    | VArray e l => HA e l (all l)
    | VStruct n l => HSt n l (all l)
    | VNamed n v' => HN n v' (IH v')
    end).
Qed.

Lemma all2_eq (xs : list value) :
  Forall (λ x, ∀ y, DeepEqual x y = true ↔ x = y) xs →
  ∀ ys, (fix all2 (xs ys : list value) {struct xs} : bool :=
           match xs, ys with
           | [], [] => true
           | p :: xs', q :: ys' => DeepEqual p q && all2 xs' ys'
           | _, _ => false
           end) xs ys = true ↔ xs = ys.
Proof.
  induction 1 as [|x xs Hx _ IH]; intros [|y ys]; try (split; [done | done]).
  rewrite andb_true_iff, Hx, IH. split; [by intros [-> ->] | by intros [= -> ->]].
Qed.

(** On these values, which carry their dynamic types, deep equality is
    equality of the values. *)
Lemma DeepEqual_eq x y : DeepEqual x y = true ↔ x = y.
Proof.
  revert y. induction x using value_ind_nested; intros y; destruct y; simpl;
    try (split; [done | done]).
  all: try match goal with
           | |- context [match ?o with Some _ => _ | None => _ end] => destruct o
           end.
  all: rewrite ?andb_true_iff, ?bool_decide_eq_true.
  all: try (rewrite all2_eq by done).
  all: try match goal with IH : ∀ y, _ ↔ _ |- _ => rewrite IH end.
  all: split; [intros; destruct_and?; congruence | intros [=]; by subst].
Qed.

Lemma DeepEqual_neq x y : x ≠ y → DeepEqual x y = false.
Proof.
  intros Hne. destruct (DeepEqual x y) eqn:E; [|done]. by apply DeepEqual_eq in E.
Qed.

(** X6.  On a live runner, [AssertEqual] records a pass exactly when the two
    values are deeply equal, that is, of the same dynamic type and the same
    contents throughout, whether or not they are the same object, and
    [AssertNotEqual] exactly when they are not; each records a failure
    otherwise and returns the runner.  A nil slice and an empty slice are
    not equal, nor are equal numbers of different types. *)
Theorem AssertEqual_passes_on_deeply_equal_values w r t expected actual msg :
  bound w r t →
  AssertEqual r expected actual msg w =
    (Returns r,
     if DeepEqual expected actual then passed t "Values are equal" [] w
     else failedWith t (message (Sprintf "Expected %v, got %v" [expected; actual]) msg) [] w) ∧
  AssertNotEqual r expected actual msg w =
    (Returns r,
     if DeepEqual expected actual
     then failedWith t (message (Sprintf "Expected values to be different, but both are %v"
                                         [expected]) msg) [] w
     else passed t "Values are not equal" [] w) ∧
  (snd (AssertEqual r expected actual msg w) = passed t "Values are equal" [] w
     ↔ expected = actual) ∧
  (snd (AssertNotEqual r expected actual msg w) = passed t "Values are not equal" [] w
     ↔ expected ≠ actual) ∧
  (∀ e, DeepEqual (VSlice e None) (VSlice e (Some [])) = false) ∧
  (∀ n, DeepEqual (VNum TInt n) (VNum TInt64 n) = false) ∧
  (∀ e xs, DeepEqual (VSlice e (Some xs)) (VSlice e (Some xs)) = true).
Proof.
  intros Hb. pose proof Hb as (x & s & Hr & HT & Ht).
  pose proof (passed_ne_failedWith w t s) as Hne.
  unfold AssertEqual, AssertNotEqual. rewrite !(verdict_bound _ _ _ _ _ _ Hb).
  assert (∀ e xs, DeepEqual (VSlice e (Some xs)) (VSlice e (Some xs)) = true) as Hrefl
    by (intros; by apply DeepEqual_eq).
  assert (∀ e, DeepEqual (VSlice e None) (VSlice e (Some [])) = false) as Hnilslice
    by (intros; by apply DeepEqual_neq).
  assert (∀ n, DeepEqual (VNum TInt n) (VNum TInt64 n) = false) as Hnum
    by (intros; by apply DeepEqual_neq).
  destruct (DeepEqual expected actual) eqn:E; cbn [negb snd];
    [apply DeepEqual_eq in E
    |assert (expected ≠ actual) by (intros E'; apply DeepEqual_eq in E'; congruence)];
    split_and!; try done.
  all: split; [intros E'; symmetry in E'; by apply Hne in E' | done].
Qed.

(** X7.  On a live runner, [AssertNotContains] records a pass exactly when
    [AssertContains] records a failure, that is, when the container does not
    hold the item.  Every string holds the empty string; the nil interface,
    a nil slice, an empty slice and a value of a defined string type hold
    nothing. *)
Theorem AssertNotContains_is_the_opposite w r t container item msg :
  bound w r t →
  AssertNotContains r container item msg w =
    (Returns r,
     if contains container item
     then failedWith t (message (Sprintf "Expected %v not to contain %v" [container; item])
                                msg) [] w
     else passed t "Container does not contain item" [] w) ∧
  (snd (AssertNotContains r container item msg w) =
     passed t "Container does not contain item" [] w
     ↔ contains container item = false) ∧
  (snd (AssertNotContains r container item msg w) =
     passed t "Container does not contain item" [] w
     ↔ snd (AssertContains r container item msg w) ≠
         passed t "Container contains item" [] w) ∧
  (∀ s, contains (VString s) (VString EmptyString) = true) ∧
  contains VNil item = false ∧
  (∀ e, contains (VSlice e None) item = false) ∧
  (∀ e, contains (VSlice e (Some [])) item = false) ∧
  (∀ n s, contains (VNamed n (VString s)) item = false).
Proof.
  intros Hb. pose proof Hb as (x & s & Hr & HT & Ht).
  pose proof (passed_ne_failedWith w t s) as Hne.
  unfold AssertNotContains, AssertContains. rewrite !(verdict_bound _ _ _ _ _ _ Hb).
  split_and!; try done.
  - destruct (contains container item); cbn [snd]; [|done].
    split; [|done]. intros E. symmetry in E. by apply Hne in E.
  - destruct (contains container item); cbn [negb snd].
    + split; [|done]. intros E. symmetry in E. by apply Hne in E.
    + split; [|done]. intros _ E. symmetry in E. by apply Hne in E.
  - intros str. simpl. by destruct str.
  - intros e. by destruct e.
  - intros e. by destruct e.
Qed.

(** *** The panic assertions *)

Lemma withRecover_unfold {A} (body : M A) (deferred : value → M unit) (zero : A) w :
  withRecover body deferred zero w =
    match body w with
    | (Returns a, w1) => (_ ← deferred VNil; mret a) w1
    | (Goexit, w1) => (_ ← deferred VNil; goexit) w1
    | (Panics v, w1) => (_ ← deferred v; mret zero) w1
    | (Dies v, w1) => (Dies v, w1)
    end.
Proof. done. Qed.

(** X8.  [AssertPanics] on a live runner, by what the function does.  When
    it returns, two failures are recorded, the fixed one of the body and
    then the one of the deferred check, and the runner is returned.  When it
    panics, the panic is swallowed, a pass is recorded, and the result is
    the nil runner: the [return r] was never reached, so a call chained on
    the result dereferences nil.  When it exits the goroutine, the deferred
    check records a failure on the way out. *)
Theorem AssertPanics_by_outcome_of_the_function w r t (fn : M unit) msg w1 :
  bound w1 r t →
  (fn w = (Returns (), w1) →
     AssertPanics r fn msg w =
       (Returns r, failedWith t (message "Expected function to panic" msg) []
                     (failedWith t "Expected function to panic" [] w1))) ∧
  (∀ v, fn w = (Panics v, w1) → isNil v = false →
     AssertPanics r fn msg w =
       (Returns nil, passed t "Function panicked as expected" [] w1) ∧
     (runners w1 !! nil = None →
        ∀ condition msg',
          (r' ← AssertPanics r fn msg; AssertTrue r' condition msg') w =
            (Panics nilDeref, passed t "Function panicked as expected" [] w1))) ∧
  (fn w = (Goexit, w1) →
     AssertPanics r fn msg w =
       (Goexit, failedWith t (message "Expected function to panic" msg) [] w1)) ∧
  (∀ v, fn w = (Dies v, w1) → AssertPanics r fn msg w = (Dies v, w1)).
Proof.
  intros Hb. unfold AssertPanics. split_and!.
  - intros E. rewrite withRecover_unfold.
    rewrite (bind_returns _ _ _ _ _ E).
    rewrite (bind_returns _ _ _ _ _ (Fail_bound _ _ _ _ _ Hb)).
    cbn [mret M_ret isNil].
    by rewrite (bind_returns _ _ _ _ _
                  (Fail_bound _ _ _ _ _ (bound_failedWith _ _ _ _ _ Hb))).
  - intros v E Hv.
    assert (withRecover (_ ← fn; _ ← Fail r "Expected function to panic" []; mret r)
              (λ recovered,
                 if isNil recovered
                 then Fail r (message "Expected function to panic" msg) []
                 else Pass r "Function panicked as expected" []) nil w =
            (Returns nil, passed t "Function panicked as expected" [] w1)) as EA.
    { rewrite withRecover_unfold. rewrite (bind_panics _ _ _ _ _ E). rewrite Hv.
      by rewrite (bind_returns _ _ _ _ _ (Pass_bound _ _ _ _ _ Hb)). }
    split; [done|]. intros Hnil condition msg'.
    rewrite (bind_returns _ _ _ _ _ EA). unfold AssertTrue.
    assert (∀ d args w2, runners w2 !! nil = None → Pass nil d args w2 = (Panics nilDeref, w2))
      as HP.
    { intros d args w2 Hn. unfold Pass, getR, mbind, M_bind. by rewrite Hn. }
    assert (∀ d args w2, runners w2 !! nil = None → Fail nil d args w2 = (Panics nilDeref, w2))
      as HF.
    { intros d args w2 Hn. unfold Fail, getR, mbind, M_bind. by rewrite Hn. }
    assert (runners (passed t "Function panicked as expected" [] w1) !! nil = None) as Hnil'
      by done.
    destruct condition; cbn [negb].
    + by rewrite (bind_panics _ _ _ _ _ (HP _ _ _ Hnil')).
    + by rewrite (bind_panics _ _ _ _ _ (HF _ _ _ Hnil')).
  - intros E. rewrite withRecover_unfold. rewrite (bind_goexit _ _ _ _ E).
    cbn [isNil]. by rewrite (bind_returns _ _ _ _ _ (Fail_bound _ _ _ _ _ Hb)).
  - intros v E. rewrite withRecover_unfold. by rewrite (bind_dies _ _ _ _ _ E).
Qed.

(** X9.  [AssertNotPanics] on a live runner, by what the function does.
    When it returns, a pass is recorded and the runner is returned.  When
    it panics, the panic is swallowed, a failure naming the panic value is
    recorded (the caller's first message replaces it), and the result is
    the nil runner.  When it exits the goroutine, the deferred check still
    records the pass on the way out. *)
Theorem AssertNotPanics_by_outcome_of_the_function w r t (fn : M unit) msg w1 :
  bound w1 r t →
  (fn w = (Returns (), w1) →
     AssertNotPanics r fn msg w = (Returns r, passed t "Function did not panic" [] w1)) ∧
  (∀ v, fn w = (Panics v, w1) → isNil v = false →
     AssertNotPanics r fn msg w =
       (Returns nil,
        failedWith t (message (Sprintf "Expected function not to panic, but it panicked with %v"
                                       [v]) msg) [] w1)) ∧
  (fn w = (Goexit, w1) →
     AssertNotPanics r fn msg w = (Goexit, passed t "Function did not panic" [] w1)) ∧
  (∀ v, fn w = (Dies v, w1) → AssertNotPanics r fn msg w = (Dies v, w1)).
Proof.
  intros Hb. unfold AssertNotPanics. split_and!.
  - intros E. rewrite withRecover_unfold. rewrite (bind_returns _ _ _ _ _ E).
    cbn [mret M_ret isNil negb].
    by rewrite (bind_returns _ _ _ _ _ (Pass_bound _ _ _ _ _ Hb)).
  - intros v E Hv. rewrite withRecover_unfold. rewrite (bind_panics _ _ _ _ _ E).
    rewrite Hv. cbn [negb].
    by rewrite (bind_returns _ _ _ _ _ (Fail_bound _ _ _ _ _ Hb)).
  - intros E. rewrite withRecover_unfold. rewrite (bind_goexit _ _ _ _ E).
    cbn [isNil negb]. by rewrite (bind_returns _ _ _ _ _ (Pass_bound _ _ _ _ _ Hb)).
  - intros v E. rewrite withRecover_unfold. by rewrite (bind_dies _ _ _ _ _ E).
Qed.

(** *** The environment *)

Lemma modifyT_some w t s (g : TState → TState) :
  tests w !! t = Some s →
  modifyT t g w = (Returns (), withTests (<[t := g s]> (tests w)) w).
Proof. intros Ht. unfold modifyT. by rewrite (bind_returns _ _ _ _ _ (getT_some _ _ _ Ht)). Qed.

Lemma bind_act_read {A B} (g : World → A) (k : A → M B) w :
  (act (λ w, (Returns (g w), w)) ≫= k) w = k (g w) w.
Proof. done. Qed.

Lemma bind_act_write {B} (h : World → World) (k : unit → M B) w :
  (act (λ w, (Returns (), h w)) ≫= k) w = k () (h w).
Proof. done. Qed.

Lemma T_Setenv_sequential w t s key val :
  tests w !! t = Some s → underParallel w t = false →
  T_Setenv t key val w =
    if invalidEnv key val
    then T_Fatalf t "cannot set environment variable: %v" [VString "setenv: invalid argument"]
                  (withTests (<[t := setEnvSet s]> (tests w)) w)
    else (Returns (), envSet t key val w).
Proof.
  intros Ht Hpar. unfold underParallel in Hpar. rewrite Ht in Hpar.
  unfold T_Setenv. rewrite (bind_returns _ _ _ _ _ (getT_some _ _ _ Ht)).
  rewrite bind_act_read. rewrite Hpar.
  rewrite (bind_returns _ _ _ _ _ (modifyT_some _ _ _ _ Ht)).
  destruct (invalidEnv key val); [done|].
  rewrite bind_act_write.
  erewrite modifyT_some; last by (cbn [tests withTests withEnviron]; apply lookup_insert_eq).
  unfold envSet. rewrite Ht. cbn [tests withTests withEnviron environ].
  by rewrite insert_insert_eq.
Qed.

Lemma T_Setenv_parallel w t key val :
  underParallel w t = true → ∃ v, T_Setenv t key val w = (Panics v, w).
Proof.
  unfold underParallel. destruct (tests w !! t) as [s|] eqn:Ht; [|done]. intros Hpar.
  unfold T_Setenv. rewrite (bind_returns _ _ _ _ _ (getT_some _ _ _ Ht)).
  rewrite bind_act_read. rewrite Hpar. by eexists.
Qed.

Lemma bound_envSet w r t key val : bound w r t → bound (envSet t key val w) r t.
Proof.
  intros (x & s & Hr & HT & Ht). unfold envSet. rewrite Ht.
  eexists x, _. split_and!; [done | done | apply lookup_insert_eq].
Qed.

Lemma Setenv_start_ok w r t x s key val :
  runners w !! r = Some x → T x = t → tests w !! t = Some s →
  underParallel w t = false → invalidEnv key val = false →
  Setenv r key val w =
    (Returns r, announced r t "Environment variable set: %s=%s" [VString key; VString val]
                  (envSet t key val w)) ∧
  bound (announced r t "Environment variable set: %s=%s" [VString key; VString val]
           (envSet t key val w)) r t.
Proof.
  intros Hr HT Ht Hpar Hinv.
  assert (bound w r t) as Hb by (by exists x, s).
  split; [|by apply bound_announced, bound_envSet].
  unfold Setenv. rewrite (bind_returns _ _ _ _ _ (getR_some _ _ _ Hr)), HT.
  erewrite (bind_returns (T_Setenv _ _ _));
    last by (rewrite (T_Setenv_sequential _ _ s) by done; rewrite Hinv).
  by rewrite (bind_returns _ _ _ _ _
                (Case_bound _ _ _ _ _ (bound_envSet _ _ _ key val Hb))).
Qed.

(** X10.  [Setenv] on a live runner whose test is not parallel and has no
    parallel ancestor.  With a key and a value the system accepts, the
    variable is set, a cleanup is registered on the test, and then the case
    is announced; [Getenv] of that key, on any receiver, even nil, then
    returns the value, and other keys read as before.  With a key or value
    the system refuses, the test is failed and halted before anything is
    announced: the environment and the runner are as they were.  In a
    parallel test the call panics, and nothing changes. *)
Theorem Setenv_then_Getenv w r t key val :
  bound w r t →
  (underParallel w t = false → invalidEnv key val = false →
     Setenv r key val w =
       (Returns r, announced r t "Environment variable set: %s=%s" [VString key; VString val]
                     (envSet t key val w)) ∧
     (∀ r', (_ ← Setenv r key val; Getenv r' key) w =
              (Returns val, snd (Setenv r key val w))) ∧
     (∀ key', key' ≠ key →
        fst ((_ ← Setenv r key val; Getenv r key') w) = fst (Getenv r key' w)) ∧
     t_cleanups <$> tests (snd (Setenv r key val w)) !! t =
       S <$> (t_cleanups <$> tests w !! t) ∧
     t_isEnvSet <$> tests (snd (Setenv r key val w)) !! t = Some true) ∧
  (underParallel w t = false → invalidEnv key val = true →
     fst (Setenv r key val w) = Goexit ∧
     environ (snd (Setenv r key val w)) = environ w ∧
     runners (snd (Setenv r key val w)) = runners w ∧
     failed (snd (Setenv r key val w)) t = true ∧
     finished (snd (Setenv r key val w)) t = true) ∧
  (underParallel w t = true → ∃ v, Setenv r key val w = (Panics v, w)).
Proof.
  intros Hb. pose proof Hb as (x & s & Hr & HT & Ht).
  assert (∀ m : M nat, (x0 ← getR r; _ ← T_Setenv (T x0) key val; m) w =
                       (_ ← T_Setenv t key val; m) w) as Hstart.
  { intros m. rewrite (bind_returns _ _ _ _ _ (getR_some _ _ _ Hr)). by rewrite HT. }
  unfold Setenv. split_and!.
  - intros Hpar Hinv.
    assert ((x0 ← getR r; _ ← T_Setenv (T x0) key val;
             _ ← Case r "Environment variable set: %s=%s" [VString key; VString val];
             mret r) w =
            (Returns r, announced r t "Environment variable set: %s=%s"
                          [VString key; VString val] (envSet t key val w))) as E.
    { rewrite Hstart.
      erewrite (bind_returns (T_Setenv _ _ _));
        last by (rewrite (T_Setenv_sequential _ _ s) by done; rewrite Hinv).
      by rewrite (bind_returns _ _ _ _ _
                    (Case_bound _ _ _ _ _ (bound_envSet _ _ _ key val Hb))). }
    assert (environ (announced r t "Environment variable set: %s=%s"
                       [VString key; VString val] (envSet t key val w)) =
            <[key := val]> (environ w)) as Henv.
    { unfold announced, envSet. rewrite Ht. cbn [runners withTests withEnviron].
      by rewrite Hr. }
    assert (tests (announced r t "Environment variable set: %s=%s"
                     [VString key; VString val] (envSet t key val w)) !! t =
            Some (addCleanup (setEnvSet s))) as Hts.
    { unfold announced, envSet. rewrite Ht. cbn [runners withTests withEnviron].
      rewrite Hr. cbn. apply lookup_insert_eq. }
    split_and!.
    + done.
    + intros r'. rewrite (bind_returns _ _ _ _ _ E). rewrite E. cbn [snd].
      unfold Getenv, os_Getenv. by rewrite Henv, lookup_insert_eq.
    + intros key' Hne. rewrite (bind_returns _ _ _ _ _ E).
      unfold Getenv, os_Getenv. cbn [fst]. by rewrite Henv, lookup_insert_ne.
    + rewrite E. cbn [snd]. by rewrite Hts, Ht.
    + rewrite E. cbn [snd]. by rewrite Hts.
  - intros Hpar Hinv. rewrite Hstart.
    assert (T_Setenv t key val w =
            (Goexit, halted t (logged t (Sprintf "cannot set environment variable: %v"
                                                 [VString "setenv: invalid argument"])
                                      (withTests (<[t := setEnvSet s]> (tests w)) w)))) as E.
    { rewrite (T_Setenv_sequential _ _ s) by done. rewrite Hinv.
      unfold T_Fatalf.
      erewrite (bind_returns (T_Logf _ _ _));
        last by (apply (T_Logf_some _ _ (setEnvSet s)); apply lookup_insert_eq).
      apply (T_FailNow_some _ _ (setEnvSet s)). apply lookup_insert_eq. }
    rewrite (bind_goexit _ _ _ _ E). cbn [fst snd].
    edestruct (halted_flags (logged t (Sprintf "cannot set environment variable: %v"
                                               [VString "setenv: invalid argument"])
                                    (withTests (<[t := setEnvSet s]> (tests w)) w)) t)
      as [Hfa Hfi]; [apply lookup_insert_eq|].
    split_and!; [done | | | done | done].
    + unfold halted, markedFinished, markedFailed.
      repeat (match goal with |- context [match ?o with Some _ => _ | None => _ end] =>
                destruct o end; cbn [environ withTests withTrace logged]); done.
    + unfold halted, markedFinished, markedFailed.
      repeat (match goal with |- context [match ?o with Some _ => _ | None => _ end] =>
                destruct o end; cbn [runners withTests withTrace logged]); done.
  - intros Hpar. destruct (T_Setenv_parallel w t key val Hpar) as [v E].
    exists v. rewrite Hstart. by rewrite (bind_panics _ _ _ _ _ E).
Qed.

(** *** Parallel tests *)

Lemma T_Parallel_fresh w t s :
  tests w !! t = Some s → t_isParallel s = false → t_isEnvSet s = false →
  T_Parallel t w = (Returns (), withTests (<[t := setParallel s]> (tests w)) w).
Proof.
  intros Ht Hp He. unfold T_Parallel. rewrite (bind_returns _ _ _ _ _ (getT_some _ _ _ Ht)).
  rewrite Hp, He. by apply modifyT_some.
Qed.

Lemma T_Parallel_refused w t s :
  tests w !! t = Some s → t_isParallel s || t_isEnvSet s = true →
  ∃ v, T_Parallel t w = (Panics v, w).
Proof.
  intros Ht H. unfold T_Parallel. rewrite (bind_returns _ _ _ _ _ (getT_some _ _ _ Ht)).
  destruct (t_isParallel s); [by eexists|]. destruct (t_isEnvSet s); [by eexists|done].
Qed.

Lemma Parallel_start w r x :
  runners w !! r = Some x →
  Parallel r w =
    (_ ← T_Parallel (T x); _ ← Case r "Test marked as parallel" []; mret r)
      (withRunners (<[r := withParallel true x]> (runners w)) w).
Proof.
  intros Hr. unfold Parallel. rewrite (bind_returns _ _ _ _ _ (modifyR_some _ _ _ _ Hr)).
  erewrite (bind_returns (getR r)); last by apply getR_some, lookup_insert_eq.
  done.
Qed.

(** X11.  [Parallel] and [Setenv] exclude each other, and [Parallel] itself
    works once.  On a live runner whose test is neither parallel nor has set
    a variable, [Parallel] returns the runner, with the runner flagged
    parallel and the test parallel; a second [Parallel], or a [Setenv],
    then panics.  After a successful [Setenv], [Parallel] panics, and it
    has by then flagged the runner parallel although the test is not. *)
Theorem Parallel_and_Setenv_exclude_each_other w r t s key val :
  bound w r t → tests w !! t = Some s → t_isParallel s = false →
  (t_isEnvSet s = false →
     fst (Parallel r w) = Returns r ∧
     parallel <$> runners (snd (Parallel r w)) !! r = Some true ∧
     t_isParallel <$> tests (snd (Parallel r w)) !! t = Some true ∧
     (∃ v, fst ((_ ← Parallel r; Parallel r) w) = Panics v) ∧
     (∃ v, fst ((_ ← Parallel r; Setenv r key val) w) = Panics v)) ∧
  (underParallel w t = false → invalidEnv key val = false →
     ∃ v, fst ((_ ← Setenv r key val; Parallel r) w) = Panics v ∧
          parallel <$> runners (snd ((_ ← Setenv r key val; Parallel r) w)) !! r = Some true ∧
          t_isParallel <$> tests (snd ((_ ← Setenv r key val; Parallel r) w)) !! t
            = Some false).
Proof.
  intros Hb Ht Hp. pose proof Hb as (x & s' & Hr & HT & Ht').
  assert (s' = s) as -> by congruence. split.
  - intros He.
    set (w1 := withTests (<[t := setParallel s]> (tests w))
                 (withRunners (<[r := withParallel true x]> (runners w)) w)).
    assert (bound w1 r t) as Hb1.
    { eexists _, _. subst w1. cbn [runners tests withTests withRunners].
      split_and!; [apply lookup_insert_eq | done | apply lookup_insert_eq]. }
    assert (Parallel r w = (Returns r, announced r t "Test marked as parallel" [] w1)) as E.
    { rewrite (Parallel_start _ _ _ Hr), HT.
      erewrite (bind_returns (T_Parallel t)); last by apply (T_Parallel_fresh _ _ s).
      by rewrite (bind_returns _ _ _ _ _ (Case_bound _ _ _ _ _ Hb1)). }
    set (w2 := announced r t "Test marked as parallel" [] w1) in *.
    assert (∃ x2, runners w2 !! r = Some x2 ∧ T x2 = t ∧ parallel x2 = true) as
      (x2 & Hr2 & HT2 & Hp2).
    { subst w2 w1. unfold announced. cbn [runners withTests withRunners].
      rewrite lookup_insert_eq. cbn [runners logged withTrace withRunners].
      eexists. split; [apply lookup_insert_eq|]. done. }
    assert (tests w2 !! t = Some (setParallel s)) as Ht2.
    { subst w2 w1. unfold announced. cbn [runners withTests withRunners].
      rewrite lookup_insert_eq. cbn. apply lookup_insert_eq. }
    rewrite E. cbn [fst snd]. split_and!.
    + done.
    + by rewrite Hr2, <- Hp2.
    + by rewrite Ht2.
    + rewrite (bind_returns _ _ _ _ _ E).
      rewrite (Parallel_start _ _ _ Hr2), HT2.
      edestruct (T_Parallel_refused
                   (withRunners (<[r := withParallel true x2]> (runners w2)) w2) t
                   (setParallel s)) as [v Ev]; [done | done |].
      exists v. by rewrite (bind_panics _ _ _ _ _ Ev).
    + rewrite (bind_returns _ _ _ _ _ E). unfold Setenv.
      rewrite (bind_returns _ _ _ _ _ (getR_some _ _ _ Hr2)), HT2.
      destruct (T_Setenv_parallel w2 t key val) as [v Ev].
      { unfold underParallel. rewrite Ht2. cbn [existsb]. by rewrite Ht2. }
      exists v. by rewrite (bind_panics _ _ _ _ _ Ev).
  - intros Hpar Hinv.
    destruct (Setenv_start_ok w r t x s key val Hr HT Ht Hpar Hinv) as [E Hb1].
    set (w1 := announced r t "Environment variable set: %s=%s" [VString key; VString val]
                 (envSet t key val w)) in *.
    assert (∃ x1, runners w1 !! r = Some x1 ∧ T x1 = t) as (x1 & Hr1 & HT1).
    { destruct Hb1 as (x1 & ? & ? & ? & ?). by exists x1. }
    assert (tests w1 !! t = Some (addCleanup (setEnvSet s))) as Ht1.
    { subst w1. unfold announced, envSet. rewrite Ht. cbn [runners withTests withEnviron].
      rewrite Hr. cbn. apply lookup_insert_eq. }
    rewrite (bind_returns _ _ _ _ _ E).
    rewrite (Parallel_start _ _ _ Hr1), HT1.
    edestruct (T_Parallel_refused
                 (withRunners (<[r := withParallel true x1]> (runners w1)) w1) t
                 (addCleanup (setEnvSet s))) as [v Ev]; [done | by rewrite orb_true_r |].
    exists v. rewrite (bind_panics _ _ _ _ _ Ev). cbn [fst snd runners tests withRunners].
    split_and!; [done | by rewrite lookup_insert_eq | rewrite Ht1; cbn; by rewrite Hp].
Qed.

(** *** The timer *)

Lemma StartTimer_bound w r t x :
  runners w !! r = Some x → T x = t → is_Some (tests w !! t) →
  StartTimer r w =
    (Returns r, announced r t "Starting test timer" []
                  (withRunners (<[r := withStartTime (clock w) x]> (runners w)) w)).
Proof.
  intros Hr HT [s Ht]. unfold StartTimer, time_Now.
  rewrite (bind_returns (λ w, (Returns (clock w), w)) _ w (clock w) w eq_refl).
  rewrite (bind_returns _ _ _ _ _ (modifyR_some _ _ _ _ Hr)).
  erewrite (bind_returns (Case _ _ _)); [done|].
  apply Case_bound. eexists _, s. cbn [runners tests withRunners].
  split_and!; [apply lookup_insert_eq | done | done].
Qed.

Lemma StopTimer_bound w r t x :
  runners w !! r = Some x → T x = t → is_Some (tests w !! t) →
  StopTimer r w =
    (Returns r, announced r t "Test completed in %v" [Duration (clock w - startTime x)] w).
Proof.
  intros Hr HT [s Ht]. unfold StopTimer, time_Since.
  rewrite (bind_returns _ _ _ _ _ (getR_some _ _ _ Hr)).
  rewrite (bind_returns (λ w, (Returns (clock w - startTime x), w)) _ w _ w eq_refl).
  erewrite (bind_returns (Case _ _ _)); [done|].
  apply Case_bound. by exists x, s.
Qed.

(** X12.  [StartTimer] stores the current time in the runner and announces
    a case; [StopTimer] announces a case whose argument is the time elapsed
    since the stored start, and leaves the stored start as it is.  So with
    a sleep of [d] between the two, the time reported is that of the sleep:
    at least [d] (at least nothing, when [d] is negative), and longer by
    however much the sleep overran. *)
Theorem StopTimer_reports_the_time_since_StartTimer w r t x :
  runners w !! r = Some x → T x = t → is_Some (tests w !! t) →
  StartTimer r w =
    (Returns r, announced r t "Starting test timer" []
                  (withRunners (<[r := withStartTime (clock w) x]> (runners w)) w)) ∧
  StopTimer r w =
    (Returns r, announced r t "Test completed in %v" [Duration (clock w - startTime x)] w) ∧
  startTime <$> runners (snd (StartTimer r w)) !! r = Some (clock w) ∧
  startTime <$> runners (snd (StopTimer r w)) !! r = Some (startTime x) ∧
  (∀ d, ∃ n1 n2 elapsed,
     fst ((_ ← StartTimer r; _ ← time_Sleep d; StopTimer r) w) = Returns r ∧
     trace (snd ((_ ← StartTimer r; _ ← time_Sleep d; StopTimer r) w)) =
       trace w ++ [EvLog t (caseLine n1 "Starting test timer" []);
                   EvLog t (caseLine n2 "Test completed in %v" [Duration elapsed])] ∧
     elapsed = Z.max 0 d + Z.max 0 (hd 0 (overruns w)) ∧
     Z.max 0 d ≤ elapsed ∧ d ≤ elapsed).
Proof.
  intros Hr HT Ht.
  pose proof (StartTimer_bound w r t x Hr HT Ht) as E1.
  pose proof (StopTimer_bound w r t x Hr HT Ht) as E2.
  split_and!; [done | done | | |].
  - rewrite E1. unfold announced. cbn [snd runners withRunners].
    rewrite lookup_insert_eq. cbn [logged runners withTrace withRunners].
    by rewrite lookup_insert_eq.
  - rewrite E2. unfold announced. cbn [snd]. rewrite Hr.
    cbn [logged runners withTrace withRunners]. by rewrite lookup_insert_eq.
  - intros d. rewrite (bind_returns _ _ _ _ _ E1).
    set (w1 := announced r t "Starting test timer" [] _).
    assert (∃ x1, runners w1 !! r = Some x1 ∧ T x1 = t ∧ startTime x1 = clock w) as
      (x1 & Hr1 & HT1 & Hs1).
    { subst w1. unfold announced. cbn [runners withRunners].
      rewrite lookup_insert_eq. cbn [logged runners withTrace withRunners].
      eexists. split; [apply lookup_insert_eq|]. done. }
    assert (clock w1 = clock w ∧ overruns w1 = overruns w ∧ tests w1 = tests w ∧
            ∃ n1, trace w1 = trace w ++ [EvLog t (caseLine n1 "Starting test timer" [])])
      as (Hc1 & Ho1 & Hts1 & n1 & Htr1).
    { subst w1. unfold announced. cbn [runners withRunners].
      rewrite lookup_insert_eq. split_and!; [done | done | done | by eexists]. }
    rewrite (bind_returns (time_Sleep d) _ w1 ()
               (withOverruns (tail (overruns w1))
                  (withClock (clock w1 + Z.max 0 d + Z.max 0 (hd 0 (overruns w1))) w1))
               eq_refl).
    rewrite (StopTimer_bound _ r t x1) by (cbn; by rewrite ?Hts1).
    cbn [fst snd clock withClock withOverruns]. rewrite Hs1, Hc1, Ho1.
    replace (clock w + Z.max 0 d + Z.max 0 (hd 0 (overruns w)) - clock w)
      with (Z.max 0 d + Z.max 0 (hd 0 (overruns w))) by lia.
    unfold announced. cbn [runners withClock withOverruns]. rewrite Hr1.
    eexists n1, _, _. split; [done|].
    cbn [logged trace withTrace withRunners withClock withOverruns].
    split_and!; [by rewrite Htr1, <- app_assoc | done | lia | lia].
Qed.

(** *** Subtests *)

Lemma lookup_markedFailed w t s a :
  tests w !! t = Some s →
  tests (markedFailed t w) !! a =
    if decide (a ∈ t :: t_ancestors s) then setFailed <$> tests w !! a else tests w !! a.
Proof.
  intros Ht. unfold markedFailed. rewrite Ht. cbn [tests withTests withTrace].
  apply foldr_alter_setFailed_lookup.
Qed.

Lemma finished_markedFailed w t a : finished (markedFailed t w) a = finished w a.
Proof.
  unfold finished. destruct (tests w !! t) as [s|] eqn:Ht.
  - rewrite (lookup_markedFailed _ _ s) by done.
    case_decide; [|done]. by destruct (tests w !! a).
  - unfold markedFailed. by rewrite Ht.
Qed.

Lemma failed_markedFailed_mono w t a :
  failed w a = true → failed (markedFailed t w) a = true.
Proof.
  unfold failed. destruct (tests w !! t) as [s|] eqn:Ht.
  - rewrite (lookup_markedFailed _ _ s) by done.
    case_decide; [|done]. by destruct (tests w !! a).
  - unfold markedFailed. by rewrite Ht.
Qed.

Lemma lookup_markedFinished_ne w t a :
  a ≠ t → tests (markedFinished t w) !! a = tests w !! a.
Proof.
  intros Hne. unfold markedFinished. destruct (tests w !! t); [|done].
  cbn [tests withTests]. by rewrite lookup_insert_ne.
Qed.

Lemma T_Errorf_some w t s format args :
  tests w !! t = Some s →
  T_Errorf t format args w = (Returns (), markedFailed t (logged t (Sprintf format args) w)).
Proof.
  intros Ht. unfold T_Errorf.
  rewrite (bind_returns _ _ _ _ _ (T_Logf_some _ _ _ _ _ Ht)).
  by apply (T_Fail_some _ _ s).
Qed.

Lemma nextTest_fresh w : nextTest w ≠ nil ∧ tests w !! nextTest w = None.
Proof.
  unfold nextTest. pose proof (is_fresh ({[0%nat]} ∪ dom (tests w))) as Hf. split.
  - unfold nil. set_solver.
  - apply not_elem_of_dom. set_solver.
Qed.

Lemma endT_some w sub s :
  tests w !! sub = Some s → endT sub w = (Returns (negb (t_failed s)), ended sub w).
Proof.
  intros Hs. unfold endT, ended. rewrite Hs.
  by rewrite (bind_returns _ _ _ _ _ (getT_some _ _ _ Hs)).
Qed.

Lemma T_Run_enter w t s name (f : nat → M unit) :
  tests w !! t = Some s →
  T_Run t name f w =
    match f (nextTest w) (entered t name w) with
    | (Returns _, w1) => endT (nextTest w) w1
    | (Goexit, w1) =>
        if finished w1 (nextTest w) then endT (nextTest w) w1
        else if existsb (finished w1) (t :: t_ancestors s)
             then (_ ← T_Errorf (nextTest w)
                         "%v: subtest may have called FailNow on a parent test"
                         [errNilPanicOrGoexit];
                   _ ← emit (EvEnd (nextTest w));
                   goexit) w1
             else (Dies errNilPanicOrGoexit, w1)
    | (Panics v, w1) => (Dies v, w1)
    | (Dies v, w1) => (Dies v, w1)
    end.
Proof.
  intros Ht. unfold T_Run.
  rewrite (bind_returns _ _ _ _ _ (getT_some _ _ _ Ht)).
  rewrite (bind_returns (newT _) _ w (nextTest w) _ eq_refl).
  rewrite (bind_returns (emit _) _ _ () _ eq_refl).
  unfold entered. rewrite Ht. done.
Qed.

Lemma Run_start w r t x name (f : nat → M unit) :
  runners w !! r = Some x → T x = t →
  Run r name f w = (_ ← T_Run t name f; mret r) w.
Proof.
  intros Hr HT. unfold Run. by rewrite (bind_returns _ _ _ _ _ (getR_some _ _ _ Hr)), HT.
Qed.

Lemma tornDown_some w sub s :
  tests w !! sub = Some s →
  (_ ← T_Errorf sub "%v: subtest may have called FailNow on a parent test"
              [errNilPanicOrGoexit];
   _ ← emit (EvEnd sub);
   (goexit : M bool)) w = (Goexit, tornDown sub w).
Proof.
  intros Hs. by rewrite (bind_returns _ _ _ _ _ (T_Errorf_some _ _ _ _ _ Hs)).
Qed.

Lemma entered_spec w r t x s name :
  runners w !! r = Some x → T x = t → tests w !! t = Some s →
  bound (entered t name w) r t ∧
  nextTest w ≠ t ∧
  tests (entered t name w) !! t = Some s ∧
  tests (entered t name w) !! nextTest w =
    Some (mkT (t_name s +:+ "/" +:+ name) (t :: t_ancestors s)
              false false false false false 0) ∧
  trace (entered t name w) = trace w ++ [EvStart t name (nextTest w)] ∧
  runners (entered t name w) = runners w.
Proof.
  intros Hr HT Ht. destruct (nextTest_fresh w) as [_ Hfresh].
  assert (nextTest w ≠ t) as Hne by (intros E; congruence).
  unfold entered. rewrite Ht. cbn [tests runners trace withTests withTrace].
  split_and!; try done.
  - exists x, s. cbn [tests runners trace withTests withTrace].
    split_and!; [done | done | by rewrite lookup_insert_ne].
  - by rewrite lookup_insert_ne.
  - apply lookup_insert_eq.
Qed.

Lemma lookup_ended_ne w sub a : a ≠ sub → tests (ended sub w) !! a = tests w !! a.
Proof.
  intros Hne. unfold ended. destruct (tests w !! sub); [|done].
  cbn [tests withTests withTrace]. by rewrite lookup_insert_ne.
Qed.

Lemma ended_flags w sub :
  is_Some (tests w !! sub) →
  finished (ended sub w) sub = true ∧ failed (ended sub w) sub = failed w sub ∧
  runners (ended sub w) = runners w ∧ trace (ended sub w) = trace w ++ [EvEnd sub].
Proof.
  intros [s Hs]. unfold ended, finished, failed. rewrite Hs.
  cbn [tests runners trace withTests withTrace]. by rewrite lookup_insert_eq.
Qed.

(** X13.  A halt of the subtest through its own [*testing.T] stays inside
    [Run].  When the function given to [Run] calls [Fatalf] on the
    [*testing.T] it was handed, [Run] returns the runner: the subtest is
    failed and finished, the enclosing test is failed but not halted, and
    the runner is as it was. *)
Theorem Run_contains_a_halt_of_the_subtest w r t name format args :
  bound w r t →
  Run r name (λ tt, T_Fatalf tt format args) w =
    (Returns r, ended (nextTest w)
                  (halted (nextTest w)
                     (logged (nextTest w) (Sprintf format args) (entered t name w)))) ∧
  tests w !! nextTest w = None ∧
  failed (snd (Run r name (λ tt, T_Fatalf tt format args) w)) (nextTest w) = true ∧
  finished (snd (Run r name (λ tt, T_Fatalf tt format args) w)) (nextTest w) = true ∧
  failed (snd (Run r name (λ tt, T_Fatalf tt format args) w)) t = true ∧
  finished (snd (Run r name (λ tt, T_Fatalf tt format args) w)) t = finished w t ∧
  runners (snd (Run r name (λ tt, T_Fatalf tt format args) w)) = runners w.
Proof.
  intros Hb. pose proof Hb as (x & s & Hr & HT & Ht).
  destruct (entered_spec w r t x s name Hr HT Ht) as (Hbe & Hne & Hte & Hsube & Htre & Hre).
  destruct (nextTest_fresh w) as [_ Hfresh].
  set (sub := nextTest w) in *. set (wi := entered t name w) in *.
  set (s0 := mkT _ _ _ _ _ _ _ _) in Hsube.
  set (L := logged sub (Sprintf format args) wi).
  assert (tests L !! sub = Some s0) as HLsub by done.
  assert (T_Fatalf sub format args wi = (Goexit, halted sub L)) as Ef.
  { unfold T_Fatalf. rewrite (bind_returns _ _ _ _ _ (T_Logf_some _ _ _ _ _ Hsube)).
    by apply (T_FailNow_some _ _ s0). }
  destruct (halted_flags L sub s0 HLsub) as [Hfa Hfi].
  assert (is_Some (tests (halted sub L) !! sub)) as [s1 Hs1].
  { unfold finished in Hfi. destruct (tests (halted sub L) !! sub); [by eexists | done]. }
  assert (Run r name (λ tt, T_Fatalf tt format args) w = (Returns r, ended sub (halted sub L)))
    as E.
  { rewrite (Run_start _ _ _ _ _ _ Hr HT).
    erewrite (bind_returns (T_Run _ _ _)); [done|].
    rewrite (T_Run_enter _ _ s) by done. fold sub wi. rewrite Ef, Hfi.
    by apply endT_some. }
  assert (tests (ended sub (halted sub L)) !! t = Some (setFailed s)) as Htt.
  { rewrite lookup_ended_ne by done. unfold halted.
    rewrite lookup_markedFinished_ne by done.
    rewrite (lookup_markedFailed _ _ s0) by done.
    rewrite decide_True by (subst s0; cbn [t_ancestors]; set_solver).
    change (tests L) with (tests wi). by rewrite Hte. }
  destruct (ended_flags (halted sub L) sub) as (Hf1 & Hf2 & Hf3 & _); [by eexists|].
  rewrite E. cbn [snd]. split_and!; try done.
  - by rewrite Hf2.
  - unfold failed. by rewrite Htt.
  - unfold finished. by rewrite Htt, Ht.
  - rewrite Hf3. unfold halted, markedFinished, markedFailed.
    repeat (match goal with |- context [match ?o with Some _ => _ | None => _ end] =>
              destruct o end; cbn [runners withTests withTrace logged]); done.
Qed.

(** X14.  A halt through the runner inside [Run] does not stay inside.  The
    runner is bound to the enclosing test, so when the function given to
    [Run] calls [Fatal] on the runner, the enclosing test is failed and
    finished while the subtest is not; the host then records an error on
    the subtest and [Run] exits the calling goroutine: no statement after
    [Run] is reached. *)
Theorem Run_aborts_when_the_body_halts_through_the_runner w r t name desc args :
  bound w r t →
  Run r name (λ _, Fatal r desc args) w =
    (Goexit, tornDown (nextTest w)
               (halted t (logged t (failLine desc args) (entered t name w)))) ∧
  (∀ B (k : nat → M B),
     fst ((Run r name (λ _, Fatal r desc args) ≫= k) w) = Goexit) ∧
  tests w !! nextTest w = None ∧
  finished (snd (Run r name (λ _, Fatal r desc args) w)) t = true ∧
  failed (snd (Run r name (λ _, Fatal r desc args) w)) t = true ∧
  failed (snd (Run r name (λ _, Fatal r desc args) w)) (nextTest w) = true ∧
  (∃ evs, trace (snd (Run r name (λ _, Fatal r desc args) w)) =
            trace w ++ EvStart t name (nextTest w) :: EvLog t (failLine desc args) :: evs ++
                       [EvEnd (nextTest w)]).
Proof.
  intros Hb. pose proof Hb as (x & s & Hr & HT & Ht).
  destruct (entered_spec w r t x s name Hr HT Ht) as (Hbe & Hne & Hte & Hsube & Htre & Hre).
  destruct (nextTest_fresh w) as [_ Hfresh].
  set (sub := nextTest w) in *. set (wi := entered t name w) in *.
  set (s0 := mkT _ _ _ _ _ _ _ _) in Hsube.
  set (L := logged t (failLine desc args) wi).
  assert (tests L !! t = Some s) as HLt by done.
  destruct (halted_flags L t s HLt) as [Hfa Hfi].
  assert (∃ s1, tests (halted t L) !! sub = Some s1 ∧ t_finished s1 = false) as
    (s1 & Hs1 & Hs1f).
  { unfold halted. rewrite lookup_markedFinished_ne by done.
    rewrite (lookup_markedFailed _ _ s) by done.
    change (tests L) with (tests wi). rewrite Hsube.
    case_decide; by eexists. }
  assert (finished (halted t L) sub = false) as Hnf by (unfold finished; by rewrite Hs1).
  assert (T_Run t name (λ _, Fatal r desc args) w = (Goexit, tornDown sub (halted t L))) as ET.
  { rewrite (T_Run_enter _ _ s) by done. fold sub wi.
    rewrite (Fatal_bound wi r t desc args Hbe). fold L. rewrite Hnf.
    cbn [existsb]. rewrite Hfi. cbn [orb]. by apply (tornDown_some _ _ s1). }
  assert (Run r name (λ _, Fatal r desc args) w = (Goexit, tornDown sub (halted t L))) as E.
  { rewrite (Run_start _ _ _ _ _ _ Hr HT). by rewrite (bind_goexit _ _ _ _ ET). }
  split_and!; try done.
  - intros B k. by rewrite (bind_goexit _ _ _ _ E).
  - rewrite E. cbn [snd]. unfold tornDown.
    change (finished (markedFailed sub (logged sub
              (Sprintf "%v: subtest may have called FailNow on a parent test"
                       [errNilPanicOrGoexit]) (halted t L))) t = true).
    by rewrite finished_markedFailed.
  - rewrite E. cbn [snd]. unfold tornDown.
    change (failed (markedFailed sub (logged sub
              (Sprintf "%v: subtest may have called FailNow on a parent test"
                       [errNilPanicOrGoexit]) (halted t L))) t = true).
    by apply failed_markedFailed_mono.
  - rewrite E. cbn [snd]. unfold tornDown.
    change (failed (markedFailed sub (logged sub
              (Sprintf "%v: subtest may have called FailNow on a parent test"
                       [errNilPanicOrGoexit]) (halted t L))) sub = true).
    by apply (failed_markedFailed _ _ s1).
  - rewrite E. cbn [snd]. unfold tornDown. cbn [trace withTrace].
    assert (∀ a w0, ∃ evs, trace (markedFailed a w0) = trace w0 ++ evs) as HMF.
    { intros a w0. unfold markedFailed. destruct (tests w0 !! a).
      - by eexists.
      - exists []. by rewrite app_nil_r. }
    assert (∀ a w0, trace (markedFinished a w0) = trace w0) as HMf.
    { intros a w0. unfold markedFinished. by destruct (tests w0 !! a). }
    destruct (HMF sub (logged sub
                (Sprintf "%v: subtest may have called FailNow on a parent test"
                         [errNilPanicOrGoexit]) (halted t L))) as [evs1 ->].
    unfold halted. cbn [logged trace withTrace]. rewrite HMf.
    destruct (HMF t L) as [evs2 ->]. subst L. cbn [logged trace withTrace].
    rewrite Htre.
    exists (evs2 ++ EvLog sub (Sprintf "%v: subtest may have called FailNow on a parent test"
                                       [errNilPanicOrGoexit]) :: evs1).
    rewrite <- !app_assoc. done.
Qed.

Lemma tests_announced w r t format args : tests (announced r t format args w) = tests w.
Proof. unfold announced. by destruct (runners w !! r). Qed.

(** X15.  [Caser] is [Case] followed by [Run].  With a calm body, one that
    halts nothing but its own subtest, it returns the runner, and its
    events are the announcement of the name, the start of a fresh subtest
    of that name, the events of the body and the end of the subtest; the
    runner stays bound to its test. *)
Theorem Caser_announces_then_runs_a_subtest w r t name body :
  bound w r t → calm body = true →
  Caser r name (λ tt, exec r body tt) w =
    (_ ← Case r name []; Run r name (λ tt, exec r body tt)) w ∧
  ∃ n sub wi w' evs,
    Caser r name (λ tt, exec r body tt) w = (Returns r, w') ∧
    tests w !! sub = None ∧
    trace (snd (exec r body sub wi)) = trace wi ++ evs ∧
    local sub (exec r body sub wi) ∧
    trace w' = trace w ++ EvLog t (caseLine n name []) :: EvStart t name sub :: evs ++
                          [EvEnd sub] ∧
    bound w' r t.
Proof.
  intros Hb Hcalm.
  pose proof (Case_bound w r t name [] Hb) as EC.
  pose proof (bound_announced w r t name [] Hb) as Hb1.
  destruct (trace_announced w r t name [] Hb) as [n Hn].
  destruct (Run_stays r t name (λ sub, exec r body sub) 0 (announces body)
                      (announced r t name [] w))
    as (sub & wi & w2 & ERun & Hfresh & Hbi & Hsi & Htri & Htr2 & Hloc & Hb2).
  { intros sub. apply sound_exec. }
  { intros sub. by apply stays_exec. }
  { done. }
  destruct (sound_exec r body sub wi) as [(_ & _ & evs & Hevs) _].
  assert (Caser r name (λ tt, exec r body tt) w = (Returns r, w2)) as E.
  { unfold Caser. rewrite (bind_returns _ _ _ _ _ EC).
    by rewrite (bind_returns _ _ _ _ _ ERun). }
  split.
  - rewrite E. rewrite (bind_returns _ _ _ _ _ EC). by rewrite ERun.
  - exists n, sub, wi, w2, evs. split_and!; try done.
    + by rewrite tests_announced in Hfresh.
    + rewrite Htr2, Hevs, Htri, Hn. rewrite <- !app_assoc. done.
Qed.

(** X16.  [Cases] is [Caser] applied to each case in turn, under the case's
    name, for any callback: the loop body of the one is the body of the
    other. *)
Theorem Cases_is_Caser_for_each_case r cases (f : caseImpl → nat → M unit) w :
  Cases r cases f w =
    foldr (λ c rest, _ ← Caser r (name c) (f c); rest) (mret ()) cases w.
Proof.
  revert w. induction cases as [|c cases IH]; intros w; [done|].
  cbn [Cases foldr]. unfold Caser.
  change (λ tt, f c tt) with (f c).
  rewrite !bind_assoc. apply bind_ext. intros _ w1.
  rewrite !bind_assoc. apply bind_ext. intros _ w2.
  by rewrite IH.
Qed.

(** *** Calls on a runner that is not there *)

Lemma getR_none w r : runners w !! r = None → getR r w = (Panics nilDeref, w).
Proof. intros Hr. unfold getR. by rewrite Hr. Qed.

Lemma dead_getR {B} w r (k : R → M B) :
  runners w !! r = None → (getR r ≫= k) w = (Panics nilDeref, w).
Proof. intros Hr. by rewrite (bind_panics _ _ _ _ _ (getR_none _ _ Hr)). Qed.

Lemma dead_modifyR w r g : runners w !! r = None → modifyR r g w = (Panics nilDeref, w).
Proof. intros Hr. unfold modifyR. by apply dead_getR. Qed.

Lemma dead_Case w r format args :
  runners w !! r = None → Case r format args w = (Panics nilDeref, w).
Proof. intros Hr. unfold Case. by rewrite (bind_panics _ _ _ _ _ (dead_modifyR _ _ _ Hr)). Qed.

Lemma dead_Pass w r format args :
  runners w !! r = None → Pass r format args w = (Panics nilDeref, w).
Proof. intros Hr. unfold Pass. by apply dead_getR. Qed.

Lemma dead_Fail w r format args :
  runners w !! r = None → Fail r format args w = (Panics nilDeref, w).
Proof. intros Hr. unfold Fail. by apply dead_getR. Qed.

Lemma dead_verdict w r (b : bool) d1 d2 :
  runners w !! r = None →
  (_ ← (if b then Fail r d1 [] else Pass r d2 []); mret r) w = (Panics nilDeref, w).
Proof.
  intros Hr. destruct b.
  - by rewrite (bind_panics _ _ _ _ _ (dead_Fail _ _ _ _ Hr)).
  - by rewrite (bind_panics _ _ _ _ _ (dead_Pass _ _ _ _ Hr)).
Qed.

(** X17.  A call on a runner that is not allocated, the nil runner for one,
    panics with a nil dereference.  Every method but six does so before it
    has changed anything.  [AssertPanics] and [AssertNotPanics] run the
    function they are given first: whatever the world is then, and however
    the function ended short of killing the process, the call panics with
    the nil dereference, since the deferred check goes through the runner.
    [Getenv] does not use its receiver; [Cases] of no cases, [SkipIf] of a
    false condition and [SkipUnless] of a true one return without touching
    it. *)
Theorem calls_on_a_missing_runner_panic w r :
  runners w !! r = None →
  (∀ format args, Case r format args w = (Panics nilDeref, w)) ∧
  (∀ format args, Pass r format args w = (Panics nilDeref, w)) ∧
  (∀ format args, Fail r format args w = (Panics nilDeref, w)) ∧
  (∀ format args, Fatal r format args w = (Panics nilDeref, w)) ∧
  (∀ cond desc args, Require r cond desc args w = (Panics nilDeref, w)) ∧
  (∀ cond desc args, FailNow r cond desc args w = (Panics nilDeref, w)) ∧
  (∀ err, AssertNoErr r err w = (Panics nilDeref, w)) ∧
  (∀ err, AssertErr r err w = (Panics nilDeref, w)) ∧
  (∀ err desc args, AssertNoErrf r err desc args w = (Panics nilDeref, w)) ∧
  (∀ err desc args, AssertErrf r err desc args w = (Panics nilDeref, w)) ∧
  (∀ name f, Run r name f w = (Panics nilDeref, w)) ∧
  (∀ name f, Caser r name f w = (Panics nilDeref, w)) ∧
  (∀ c cases f, Cases r (c :: cases) f w = (Panics nilDeref, w)) ∧
  StartTimer r w = (Panics nilDeref, w) ∧
  StopTimer r w = (Panics nilDeref, w) ∧
  (∀ F name (f : F), Benchmark r name f w = (Panics nilDeref, w)) ∧
  Parallel r w = (Panics nilDeref, w) ∧
  (∀ reason args, Skip r reason args w = (Panics nilDeref, w)) ∧
  (∀ reason args, SkipIf r true reason args w = (Panics nilDeref, w)) ∧
  (∀ reason args, SkipUnless r false reason args w = (Panics nilDeref, w)) ∧
  (∀ F (fn : F), Cleanup r fn w = (Panics nilDeref, w)) ∧
  Helper r w = (Panics nilDeref, w) ∧
  TempDir r w = (Panics nilDeref, w) ∧
  (∀ key val, Setenv r key val w = (Panics nilDeref, w)) ∧
  Deadline r w = (Panics nilDeref, w) ∧
  (∀ F (fn : F), RunParallel r fn w = (Panics nilDeref, w)) ∧
  MemoryUsage r w = (Panics nilDeref, w) ∧
  GoroutineCount r w = (Panics nilDeref, w) ∧
  TestInfo r w = (Panics nilDeref, w) ∧
  (∀ expected actual msg, AssertEqual r expected actual msg w = (Panics nilDeref, w)) ∧
  (∀ expected actual msg, AssertNotEqual r expected actual msg w = (Panics nilDeref, w)) ∧
  (∀ v msg, AssertNil r v msg w = (Panics nilDeref, w)) ∧
  (∀ v msg, AssertNotNil r v msg w = (Panics nilDeref, w)) ∧
  (∀ condition msg, AssertTrue r condition msg w = (Panics nilDeref, w)) ∧
  (∀ condition msg, AssertFalse r condition msg w = (Panics nilDeref, w)) ∧
  (∀ container item msg, AssertContains r container item msg w = (Panics nilDeref, w)) ∧
  (∀ container item msg, AssertNotContains r container item msg w = (Panics nilDeref, w)) ∧
  (∀ (fn : M unit) msg o w1, fn w = (o, w1) → runners w1 !! r = None →
     AssertPanics r fn msg w =
       (match o with Dies v => Dies v | _ => Panics nilDeref end, w1) ∧
     AssertNotPanics r fn msg w =
       (match o with Dies v => Dies v | _ => Panics nilDeref end, w1)) ∧
  (∀ key, Getenv r key w = (Returns (default EmptyString (environ w !! key)), w)) ∧
  (∀ f, Cases r [] f w = (Returns (), w)) ∧
  (∀ reason args, SkipIf r false reason args w = (Returns r, w)) ∧
  (∀ reason args, SkipUnless r true reason args w = (Returns r, w)).
Proof.
  intros Hr.
  pose proof (dead_Case w r) as HC. pose proof (dead_Pass w r) as HP.
  pose proof (dead_Fail w r) as HF.
  assert (∀ reason args, Skip r reason args w = (Panics nilDeref, w)) as HS.
  { intros. unfold Skip. by rewrite (bind_panics _ _ _ _ _ (HC _ _ Hr)). }
  assert (∀ (fn : M unit) msg o w1, fn w = (o, w1) → runners w1 !! r = None →
     AssertPanics r fn msg w =
       (match o with Dies v => Dies v | _ => Panics nilDeref end, w1) ∧
     AssertNotPanics r fn msg w =
       (match o with Dies v => Dies v | _ => Panics nilDeref end, w1)) as HA.
  { intros fn msg o w1 E Hr1.
    pose proof (dead_Pass w1 r) as HP1. pose proof (dead_Fail w1 r) as HF1.
    unfold AssertPanics, AssertNotPanics. rewrite !withRecover_unfold.
    destruct o as [[]| |v|v].
    - rewrite !(bind_returns _ _ _ _ _ E).
      repeat first [ rewrite (bind_panics _ _ _ _ _ (HF1 _ _ Hr1))
                   | rewrite (bind_panics _ _ _ _ _ (HP1 _ _ Hr1))
                   | rewrite bind_mret_left
                   | progress unfold mret, M_ret
                   | progress cbn [isNil negb nilDeref] ].
      done.
    - rewrite !(bind_goexit _ _ _ _ E).
      repeat first [ rewrite (bind_panics _ _ _ _ _ (HF1 _ _ Hr1))
                   | rewrite (bind_panics _ _ _ _ _ (HP1 _ _ Hr1))
                   | progress cbn [isNil negb] ].
      done.
    - rewrite !(bind_panics _ _ _ _ _ E).
      destruct (isNil v); cbn [negb];
        repeat first [ rewrite (bind_panics _ _ _ _ _ (HF1 _ _ Hr1))
                     | rewrite (bind_panics _ _ _ _ _ (HP1 _ _ Hr1)) ];
        done.
    - by rewrite !(bind_dies _ _ _ _ _ E). }
  split_and!;
    lazymatch goal with
    | |- ∀ (fn : M unit), _ => exact HA
    | |- _ => intros
    end;
    lazymatch goal with
    | |- Case _ _ _ _ = _ => by apply dead_Case
    | |- Pass _ _ _ _ = _ => by apply dead_Pass
    | |- Fail _ _ _ _ = _ => by apply dead_Fail
    | |- Skip _ _ _ _ = _ => by apply HS
    | |- AssertEqual _ _ _ _ _ = _ => unfold AssertEqual; by apply dead_verdict
    | |- AssertNotEqual _ _ _ _ _ = _ => unfold AssertNotEqual; by apply dead_verdict
    | |- AssertNil _ _ _ _ = _ => unfold AssertNil; by apply dead_verdict
    | |- AssertNotNil _ _ _ _ = _ => unfold AssertNotNil; by apply dead_verdict
    | |- AssertTrue _ _ _ _ = _ => unfold AssertTrue; by apply dead_verdict
    | |- AssertFalse _ _ _ _ = _ => unfold AssertFalse; by apply dead_verdict
    | |- AssertContains _ _ _ _ _ = _ => unfold AssertContains; by apply dead_verdict
    | |- AssertNotContains _ _ _ _ _ = _ => unfold AssertNotContains; by apply dead_verdict
    | |- Getenv _ _ _ = _ => done
    | |- Cases _ [] _ _ = _ => done
    | |- SkipIf _ false _ _ _ = _ => done
    | |- SkipUnless _ true _ _ _ = _ => done
    | |- _ => idtac
    end.
  - unfold Fatal. by apply dead_getR.
  - unfold Require. destruct cond; [by apply HP | by apply HF].
  - unfold FailNow. destruct cond; [by apply HP|].
    by rewrite (bind_panics _ _ _ _ _ (HF _ _ Hr)).
  - unfold AssertNoErr, AssertNoErrf.
    match goal with |- context [isNil ?e] => destruct (isNil e) end; [by apply HP|].
    by rewrite (bind_panics _ _ _ _ _ (HF _ _ Hr)).
  - unfold AssertErr, AssertErrf.
    match goal with |- context [isNil ?e] => destruct (isNil e) end; [|by apply HP].
    by rewrite (bind_panics _ _ _ _ _ (HF _ _ Hr)).
  - unfold AssertNoErrf.
    match goal with |- context [isNil ?e] => destruct (isNil e) end; [by apply HP|].
    by rewrite (bind_panics _ _ _ _ _ (HF _ _ Hr)).
  - unfold AssertErrf.
    match goal with |- context [isNil ?e] => destruct (isNil e) end; [|by apply HP].
    by rewrite (bind_panics _ _ _ _ _ (HF _ _ Hr)).
  - unfold Run. by apply dead_getR.
  - unfold Caser. by rewrite (bind_panics _ _ _ _ _ (HC _ _ Hr)).
  - cbn [Cases]. by rewrite (bind_panics _ _ _ _ _ (HC _ _ Hr)).
  - unfold StartTimer, time_Now.
    rewrite (bind_returns (λ w, (Returns (clock w), w)) _ w (clock w) w eq_refl).
    by rewrite (bind_panics _ _ _ _ _ (dead_modifyR _ _ _ Hr)).
  - unfold StopTimer. by apply dead_getR.
  - unfold Benchmark. by rewrite (bind_panics _ _ _ _ _ (HC _ _ Hr)).
  - unfold Parallel. by rewrite (bind_panics _ _ _ _ _ (dead_modifyR _ _ _ Hr)).
  - unfold SkipIf. by rewrite (bind_assoc (Skip _ _ _)), (bind_panics _ _ _ _ _ (HS _ _)).
  - unfold SkipUnless. cbn [negb].
    by rewrite (bind_assoc (Skip _ _ _)), (bind_panics _ _ _ _ _ (HS _ _)).
  - unfold Cleanup. by apply dead_getR.
  - unfold Helper. by apply dead_getR.
  - unfold TempDir. by apply dead_getR.
  - unfold Setenv. by apply dead_getR.
  - unfold Deadline. by apply dead_getR.
  - unfold RunParallel. by rewrite (bind_panics _ _ _ _ _ (HC _ _ Hr)).
  - unfold MemoryUsage. rewrite bind_act_read.
    by rewrite (bind_panics _ _ _ _ _ (HC _ _ Hr)).
  - unfold GoroutineCount. rewrite bind_act_read.
    by rewrite (bind_panics _ _ _ _ _ (HC _ _ Hr)).
  - unfold TestInfo. by rewrite (bind_panics _ _ _ _ _ (HC _ _ Hr)).
Qed.



(** X19.  Whatever a test body does with the runner and with its
    [*testing.T], and however it ends, it only adds: every test stays
    allocated, a finished test stays finished, the log keeps all it had and
    grows at its end, the runner stays allocated and bound to the same
    test, and its counter, as long as the [int] does not overflow, never
    goes down and goes up by no more than the announcements the body can
    make. *)
Theorem bodies_only_add_to_the_record r p tt w :
  (∀ a, is_Some (tests w !! a) → is_Some (tests (snd (exec r p tt w)) !! a)) ∧
  (∀ a, finished w a = true → finished (snd (exec r p tt w)) a = true) ∧
  (∃ evs, trace (snd (exec r p tt w)) = trace w ++ evs) ∧
  (∀ x, runners w !! r = Some x →
     ∃ x', runners (snd (exec r p tt w)) !! r = Some x' ∧ T x' = T x ∧
           (intMin ≤ caseNum x → caseNum x + Z.of_nat (announces p) ≤ intMax →
              caseNum x ≤ caseNum x' ≤ caseNum x + Z.of_nat (announces p))).
Proof.
  destruct (sound_exec r p tt w) as [(H1 & H2 & H3) C]. split_and!; try done.
  intros x Hx. destruct (C x Hx) as (x' & Hx' & HT & Hc).
  exists x'. split_and!; [done | done |]. intros Hlo Hhi. by apply Hc.
Qed.

(** X20.  [Benchmark] never calls the function it is given.  On a live
    runner it announces the benchmark, runs a subtest of that name whose
    only act is to log one line, and returns the runner with the benchmark
    flag back to false.  That line is logged through the runner, so on the
    enclosing test and not on the subtest, which ends passed with nothing
    logged on it. *)
Theorem Benchmark_logs_on_the_enclosing_test w r t {F} name (f : F) :
  bound w r t →
  ∃ n sub w',
    Benchmark r name f w = (Returns r, w') ∧
    sub ≠ t ∧ tests w !! sub = None ∧
    trace w' = trace w ++ [EvLog t (caseLine n "Benchmark: %s" [VString name]);
                           EvStart t name sub;
                           EvLog t (Sprintf "Running benchmark: %s" [VString name]);
                           EvEnd sub] ∧
    benchmark <$> runners w' !! r = Some false ∧
    failed w' sub = false ∧ finished w' sub = true ∧
    bound w' r t.
Proof.
  intros Hb. unfold Benchmark.
  rewrite (bind_returns _ _ _ _ _ (Case_bound _ _ _ _ _ Hb)).
  destruct (trace_announced w r t "Benchmark: %s" [VString name] Hb) as [n Hn].
  pose proof (tests_announced w r t "Benchmark: %s" [VString name]) as Hts1.
  destruct (bound_announced w r t "Benchmark: %s" [VString name] Hb)
    as (x1 & s & Hr1 & HT1 & Ht1).
  set (w1 := announced r t "Benchmark: %s" [VString name] w) in *.
  rewrite (bind_returns _ _ _ _ _ (modifyR_some _ _ _ _ Hr1)).
  set (w2 := withRunners _ w1).
  assert (runners w2 !! r = Some (withBenchmark true x1)) as Hr2 by apply lookup_insert_eq.
  assert (tests w2 !! t = Some s) as Ht2 by done.
  destruct (entered_spec w2 r t _ s name Hr2 HT1 Ht2)
    as (Hbe & Hne & Hte & Hsube & Htre & Hre).
  destruct (nextTest_fresh w2) as [_ Hfresh].
  set (sub := nextTest w2) in *. set (wi := entered t name w2) in *.
  set (s0 := mkT _ _ _ _ _ _ _ _) in Hsube.
  set (line := Sprintf "Running benchmark: %s" [VString name]).
  assert ((x ← getR r; T_Logf (T x) "Running benchmark: %s" [VString name]) wi =
          (Returns (), logged t line wi)) as Ebody.
  { rewrite (bind_returns _ _ _ _ _ (getR_some _ _ _ (eq_trans (f_equal (.!! r) Hre) Hr2))).
    cbn [T withBenchmark]. rewrite HT1. by apply (T_Logf_some _ _ s). }
  erewrite (bind_returns (Run _ _ _)); last first.
  { rewrite (Run_start _ _ _ _ _ _ Hr2 HT1).
    erewrite (bind_returns (T_Run _ _ _)); [done|].
    rewrite (T_Run_enter _ _ s) by done. fold sub wi. rewrite Ebody.
    by apply (endT_some _ _ s0). }
  set (w3 := ended sub (logged t line wi)).
  destruct (ended_flags (logged t line wi) sub) as (Hf1 & Hf2 & Hf3 & Hf4); [by eexists|].
  assert (runners w3 !! r = Some (withBenchmark true x1)) as Hr3.
  { subst w3. rewrite Hf3. cbn [runners logged withTrace]. by rewrite Hre. }
  rewrite (bind_returns _ _ _ _ _ (modifyR_some _ _ _ _ Hr3)).
  eexists n, sub, _. split; [done|].
  cbn [trace tests runners withRunners]. unfold failed, finished in *.
  cbn [trace tests runners withRunners].
  assert (tests w3 !! t = Some s) as Ht3.
  { subst w3. rewrite lookup_ended_ne by done. done. }
  split_and!.
  - done.
  - by rewrite <- Hts1.
  - subst w3. rewrite Hf4. cbn [logged trace withTrace]. rewrite Htre.
    subst w2. cbn [trace withRunners]. rewrite Hn. by rewrite <- !app_assoc.
  - by rewrite lookup_insert_eq.
  - subst w3. rewrite Hf2. cbn [logged tests withTrace]. by rewrite Hsube.
  - done.
  - eexists _, s. cbn [trace tests runners withRunners].
    split_and!; [apply lookup_insert_eq | done | done].
Qed.

(** X21.  Every call of [Case] moves the counter by one and builds the
    prefix from the new number, and the next call numbers from there.  The
    counter is an [int], so at the largest [int] it wraps around to the
    smallest. *)
Theorem Case_numbers_from_the_counter w r t format args c :
  bound w r t → counter w r = Some c →
  Case r format args w = (Returns r, announced r t format args w) ∧
  counter (snd (Case r format args w)) r = Some (wrapInt (c + 1)) ∧
  prefix <$> runners (snd (Case r format args w)) !! r = Some (casePrefix (wrapInt (c + 1))) ∧
  trace (snd (Case r format args w)) =
    trace w ++ [EvLog t (caseLine (wrapInt (c + 1)) format args)] ∧
  tests (snd (Case r format args w)) = tests w ∧
  (intMin ≤ c < intMax → wrapInt (c + 1) = c + 1) ∧
  (c = intMax → wrapInt (c + 1) = intMin) ∧
  (∀ format' args',
     counter (snd ((_ ← Case r format args; Case r format' args') w)) r =
       Some (wrapInt (wrapInt (c + 1) + 1))).
Proof.
  intros Hb Hc. pose proof (Case_bound w r t format args Hb) as E.
  pose proof (bound_announced w r t format args Hb) as Hb1.
  assert (∀ w0 c0 fmt a, counter w0 r = Some c0 →
            counter (announced r t fmt a w0) r = Some (wrapInt (c0 + 1)) ∧
            prefix <$> runners (announced r t fmt a w0) !! r =
              Some (casePrefix (wrapInt (c0 + 1))) ∧
            trace (announced r t fmt a w0) =
              trace w0 ++ [EvLog t (caseLine (wrapInt (c0 + 1)) fmt a)]) as Hann.
  { intros w0 c0 fmt a. unfold counter, announced.
    destruct (runners w0 !! r) as [x|]; [|done]. intros [= <-].
    cbn [runners withRunners logged withTrace trace]. by rewrite lookup_insert_eq. }
  destruct (Hann w c format args Hc) as (H1 & H2 & H3).
  rewrite E. cbn [snd]. split_and!; try done.
  - apply tests_announced.
  - intros Hrange. apply wrapInt_id. unfold intMin, intMax in *. lia.
  - intros ->. by vm_compute.
  - intros format' args'. rewrite (bind_returns _ _ _ _ _ E).
    rewrite (Case_bound _ _ _ format' args' Hb1). cbn [snd].
    by destruct (Hann _ _ format' args' H1) as (? & _).
Qed.

(** *** The reports *)


Lemma GoroutineCount_bound w r t :
  bound w r t →
  GoroutineCount r w =
    (Returns r, announced r t "Goroutine count: %d" [VNum TInt (numGoroutine w)] w).
Proof.
  intros Hb. unfold GoroutineCount. rewrite bind_act_read.
  by rewrite (bind_returns _ _ _ _ _ (Case_bound _ _ _ _ _ Hb)).
Qed.

Lemma MemoryUsage_bound w r t :
  bound w r t →
  MemoryUsage r w =
    (Returns r,
     logged t (Sprintf "NumGC: %d" [VNum TUint32 (NumGC (memStats w))])
       (logged t (Sprintf "Sys: %d KB" [VNum TUint64 (Sys (memStats w) / 1024)])
          (logged t (Sprintf "TotalAlloc: %d KB" [VNum TUint64 (TotalAlloc (memStats w) / 1024)])
             (logged t (Sprintf "Alloc: %d KB" [VNum TUint64 (Alloc (memStats w) / 1024)])
                (announced r t "Memory Usage" [] w))))).
Proof.
  intros Hb. unfold MemoryUsage. rewrite bind_act_read.
  rewrite (bind_returns _ _ _ _ _ (Case_bound _ _ _ _ _ Hb)).
  destruct (bound_announced w r t "Memory Usage" [] Hb) as (x1 & s & Hr1 & HT1 & Ht1).
  rewrite (bind_returns _ _ _ _ _ (getR_some _ _ _ Hr1)), HT1.
  rewrite (bind_returns _ _ _ _ _ (T_Logf_some _ _ s _ _ Ht1)).
  erewrite (bind_returns (T_Logf _ _ _)); last by (apply (T_Logf_some _ _ s); exact Ht1).
  erewrite (bind_returns (T_Logf _ _ _)); last by (apply (T_Logf_some _ _ s); exact Ht1).
  erewrite (bind_returns (T_Logf _ _ _)); last by (apply (T_Logf_some _ _ s); exact Ht1).
  done.
Qed.

(** X22.  The reports on a live runner.  [GoroutineCount] announces one
    case that carries the count.  [MemoryUsage] announces one case and then
    logs four lines: the three sizes in whole kilobytes, rounded down, and
    the number of collections.  [TestInfo] announces a case, logs the name
    of the test, the stored start, the time since then and the two flags of
    the runner, and ends with the reports of [GoroutineCount] and
    [MemoryUsage], in that order: three announcements in all. *)
Theorem reports_log_what_the_host_answers w r t x s :
  runners w !! r = Some x → T x = t → tests w !! t = Some s →
  GoroutineCount r w =
    (Returns r, announced r t "Goroutine count: %d" [VNum TInt (numGoroutine w)] w) ∧
  MemoryUsage r w =
    (Returns r,
     logged t (Sprintf "NumGC: %d" [VNum TUint32 (NumGC (memStats w))])
       (logged t (Sprintf "Sys: %d KB" [VNum TUint64 (Sys (memStats w) / 1024)])
          (logged t (Sprintf "TotalAlloc: %d KB" [VNum TUint64 (TotalAlloc (memStats w) / 1024)])
             (logged t (Sprintf "Alloc: %d KB" [VNum TUint64 (Alloc (memStats w) / 1024)])
                (announced r t "Memory Usage" [] w))))) ∧
  ∃ n1 n2 n3,
    fst (TestInfo r w) = Returns r ∧
    trace (snd (TestInfo r w)) =
      trace w ++
        [EvLog t (caseLine n1 "Test Information" []);
         EvLog t (Sprintf "Test Name: %s" [VString (t_name s)]);
         EvLog t (Sprintf "Start Time: %v" [Time (startTime x)]);
         EvLog t (Sprintf "Duration: %v" [Duration (clock w - startTime x)]);
         EvLog t (Sprintf "Parallel: %v" [VBool (parallel x)]);
         EvLog t (Sprintf "Benchmark: %v" [VBool (benchmark x)]);
         EvLog t (caseLine n2 "Goroutine count: %d" [VNum TInt (numGoroutine w)]);
         EvLog t (caseLine n3 "Memory Usage" []);
         EvLog t (Sprintf "Alloc: %d KB" [VNum TUint64 (Alloc (memStats w) / 1024)]);
         EvLog t (Sprintf "TotalAlloc: %d KB" [VNum TUint64 (TotalAlloc (memStats w) / 1024)]);
         EvLog t (Sprintf "Sys: %d KB" [VNum TUint64 (Sys (memStats w) / 1024)]);
         EvLog t (Sprintf "NumGC: %d" [VNum TUint32 (NumGC (memStats w))])].
Proof.
  intros Hr HT Ht. assert (bound w r t) as Hb by (by exists x, s).
  split; [by apply GoroutineCount_bound|]. split; [by apply MemoryUsage_bound|].
  unfold TestInfo.
  rewrite (bind_returns _ _ _ _ _ (Case_bound _ _ _ _ _ Hb)).
  destruct (trace_announced w r t "Test Information" [] Hb) as [n1 Hn1].
  pose proof (bound_announced w r t "Test Information" [] Hb) as Hb1.
  set (w1 := announced r t "Test Information" [] w) in *.
  assert (∃ x1, runners w1 !! r = Some x1 ∧ T x1 = t ∧ startTime x1 = startTime x ∧
                parallel x1 = parallel x ∧ benchmark x1 = benchmark x) as
    (x1 & Hr1 & HT1 & Hst & Hpa & Hbe).
  { subst w1. unfold announced. rewrite Hr. cbn [runners logged withTrace withRunners].
    eexists. split; [apply lookup_insert_eq|]. done. }
  assert (tests w1 !! t = Some s) as Ht1.
  { subst w1. by rewrite tests_announced. }
  assert (clock w1 = clock w ∧ numGoroutine w1 = numGoroutine w ∧ memStats w1 = memStats w)
    as (Hc1 & Hg1 & Hm1).
  { subst w1. unfold announced. by rewrite Hr. }
  rewrite (bind_returns _ _ _ _ _ (getR_some _ _ _ Hr1)), HT1, Hst, Hpa, Hbe.
  unfold T_Name. rewrite (bind_assoc (getT t)).
  rewrite (bind_returns _ _ _ _ _ (getT_some _ _ _ Ht1)).
  rewrite bind_mret_left.
  rewrite (bind_returns _ _ _ _ _ (T_Logf_some _ _ s _ _ Ht1)).
  erewrite (bind_returns (T_Logf _ _ _)); last by (apply (T_Logf_some _ _ s); exact Ht1).
  unfold time_Since.
  rewrite (bind_returns (λ w, (Returns (clock w - startTime x), w)) _ _ _ _ eq_refl).
  cbn [clock logged withTrace]. rewrite Hc1.
  erewrite (bind_returns (T_Logf _ _ _)); last by (apply (T_Logf_some _ _ s); exact Ht1).
  erewrite (bind_returns (T_Logf _ _ _)); last by (apply (T_Logf_some _ _ s); exact Ht1).
  erewrite (bind_returns (T_Logf _ _ _)); last by (apply (T_Logf_some _ _ s); exact Ht1).
  set (w6 := logged t _ (logged t _ (logged t _ (logged t _ (logged t _ w1))))).
  assert (bound w6 r t) as Hb6 by (subst w6; by repeat apply bound_logged).
  assert (numGoroutine w6 = numGoroutine w ∧ memStats w6 = memStats w) as [Hg6 Hm6]
    by (by subst w6).
  assert (trace w6 =
            trace w ++
              [EvLog t (caseLine n1 "Test Information" []);
               EvLog t (Sprintf "Test Name: %s" [VString (t_name s)]);
               EvLog t (Sprintf "Start Time: %v" [Time (startTime x)]);
               EvLog t (Sprintf "Duration: %v" [Duration (clock w - startTime x)]);
               EvLog t (Sprintf "Parallel: %v" [VBool (parallel x)]);
               EvLog t (Sprintf "Benchmark: %v" [VBool (benchmark x)])]) as Htr6.
  { subst w6. cbn [trace logged withTrace]. rewrite Hn1. by rewrite <- !app_assoc. }
  clearbody w6.
  rewrite (bind_returns _ _ _ _ _ (GoroutineCount_bound _ _ _ Hb6)).
  destruct (trace_announced w6 r t "Goroutine count: %d" [VNum TInt (numGoroutine w6)] Hb6)
    as [n2 Hn2].
  pose proof (bound_announced w6 r t "Goroutine count: %d" [VNum TInt (numGoroutine w6)] Hb6)
    as Hb7.
  assert (memStats (announced r t "Goroutine count: %d" [VNum TInt (numGoroutine w6)] w6) =
          memStats w) as Hm7.
  { unfold announced. by destruct (runners w6 !! r). }
  set (w7 := announced r t "Goroutine count: %d" _ w6) in *. clearbody w7.
  rewrite (bind_returns _ _ _ _ _ (MemoryUsage_bound _ _ _ Hb7)).
  destruct (trace_announced w7 r t "Memory Usage" [] Hb7) as [n3 Hn3].
  exists n1, n2, n3. split; [done|].
  unfold mret, M_ret. cbn [snd trace logged withTrace]. rewrite Hn3, Hn2, Hm7, Hg6, Htr6.
  by rewrite <- !app_assoc.
Qed.

(** X23.  [prependTag] puts the tag in front of the arguments, in this
    revision, which tests for no arguments by length, and in the earlier
    one, which tests the slice against nil: a call with no arguments gives
    the tag alone in both. *)
Theorem prependTag_puts_the_tag_first tag args :
  prependTag tag args = tag :: args ∧
  length (prependTag tag args) = S (length args) ∧
  prependTag tag [] = [tag] ∧
  prependTag_v1 tag None = [tag] ∧
  prependTag_v1 tag (Some args) = tag :: args ∧
  prependTag_v1 tag (Some []) = prependTag_v1 tag None.
Proof.
  assert (prependTag tag args = tag :: args) as E.
  { unfold prependTag. case_bool_decide as H; [|done]. by destruct args. }
  split_and!; try done. by rewrite E.
Qed.


(** *** Batches of cases *)

Lemma counter_announced_wrap w r t format args k :
  counter w r = Some k →
  counter (announced r t format args w) r = Some (wrapInt (k + 1)) ∧
  trace (announced r t format args w) =
    trace w ++ [EvLog t (caseLine (wrapInt (k + 1)) format args)].
Proof.
  unfold counter, announced. destruct (runners w !! r) as [x|]; [|done]. intros [= <-].
  cbn [runners withRunners logged withTrace trace]. by rewrite lookup_insert_eq.
Qed.

Lemma runners_ended w sub : runners (ended sub w) = runners w.
Proof. unfold ended. by destruct (tests w !! sub). Qed.

Lemma bound_ended w r t sub : bound w r t → bound (ended sub w) r t.
Proof.
  intros (x & s & Hr & HT & Ht). unfold ended.
  destruct (tests w !! sub) as [s1|] eqn:Hs; [|by exists x, s].
  destruct (decide (sub = t)) as [->|Hne].
  - eexists x, _. cbn [runners tests withTests withTrace].
    split_and!; [done | done | apply lookup_insert_eq].
  - exists x, s. cbn [runners tests withTests withTrace].
    split_and!; [done | done | by rewrite lookup_insert_ne].
Qed.

(** [Run] on a function that ends where it stands. *)
Lemma Run_local w r t name (f : nat → M unit) lo hi :
  sound r lo hi (f (nextTest w)) → bound w r t →
  local (nextTest w) (f (nextTest w) (entered t name w)) →
  Run r name f w = (Returns r, ended (nextTest w) (snd (f (nextTest w) (entered t name w)))) ∧
  is_Some (tests (snd (f (nextTest w) (entered t name w))) !! nextTest w).
Proof.
  intros Sf Hb Hloc. pose proof Hb as (x & s & Hr & HT & Ht).
  destruct (entered_spec w r t x s name Hr HT Ht) as (Hbe & Hne & Hte & Hsube & Htre & Hre).
  destruct (Sf (entered t name w)) as [(Ha & _ & _) _].
  destruct (Ha (nextTest w)) as [s1 Hs1]; [by eexists|].
  split; [|by eexists].
  rewrite (Run_start _ _ _ _ _ _ Hr HT).
  erewrite (bind_returns (T_Run _ _ _)); [done|].
  rewrite (T_Run_enter _ _ s) by done.
  unfold local in Hloc.
  destruct (f (nextTest w) (entered t name w)) as [o w1] eqn:E. cbn [fst snd] in *.
  destruct Hloc as [Hret|[-> Hfin]].
  - apply returned_inv in Hret as [[] ->]. by apply endT_some.
  - rewrite Hfin. by apply endT_some.
Qed.

(** One turn of the loop of [Cases]. *)
Lemma Cases_step w r t c (f : caseImpl → Prog) :
  bound w r t →
  local (caseSub r t c w) (exec r (f c) (caseSub r t c w) (caseStart r t c w)) →
  ∃ k body,
    (_ ← Case r (name c) []; Run r (name c) (λ tt, exec r (f c) tt)) w =
      (Returns r, afterCase (λ c sub, exec r (f c) sub) r t c w) ∧
    bound (afterCase (λ c sub, exec r (f c) sub) r t c w) r t ∧
    counter w r = Some k ∧
    counter (caseStart r t c w) r = Some (wrapInt (k + 1)) ∧
    tests w !! caseSub r t c w = None ∧
    trace (snd (exec r (f c) (caseSub r t c w) (caseStart r t c w))) =
      trace (caseStart r t c w) ++ body ∧
    trace (afterCase (λ c sub, exec r (f c) sub) r t c w) =
      trace w ++ caseEvents t (wrapInt (k + 1)) c (caseSub r t c w) body.
Proof.
  intros Hb Hloc. unfold afterCase, caseSub, caseStart in *.
  pose proof Hb as (x & s & Hr & HT & Ht).
  assert (counter w r = Some (caseNum x)) as Hk by (unfold counter; by rewrite Hr).
  destruct (counter_announced_wrap w r t (name c) [] _ Hk) as [Hka Htra].
  pose proof (bound_announced w r t (name c) [] Hb) as Hba.
  set (wa := announced r t (name c) [] w) in *.
  pose proof Hba as (xa & sa & Hra & HTa & Hta).
  destruct (entered_spec wa r t xa sa (name c) Hra HTa Hta)
    as (Hbe & Hne & Hte & Hsube & Htre & Hre).
  destruct (nextTest_fresh wa) as [_ Hfresh].
  destruct (Run_local wa r t (name c) (λ tt, exec r (f c) tt) 0 (announces (f c)))
    as [ERun Hsome]; [apply sound_exec | done | done |].
  destruct (sound_exec r (f c) (nextTest wa) (entered t (name c) wa))
    as [(_ & _ & body & Hbody) _].
  exists (caseNum x), body. split_and!.
  - rewrite (bind_returns _ _ _ _ _ (Case_bound _ _ _ _ _ Hb)). exact ERun.
  - apply bound_ended. by apply (bound_sound r t _ 0 (announces (f c))); [apply sound_exec|].
  - done.
  - unfold counter. by rewrite Hre.
  - subst wa. by rewrite tests_announced in Hfresh.
  - done.
  - destruct (ended_flags _ _ Hsome) as (_ & _ & _ & ->).
    rewrite Hbody, Htre, Htra. unfold caseEvents. by rewrite <- !app_assoc.
Qed.

(** Calm callbacks end where they stand, wherever the batch runs them. *)
Lemma calm_callbacks_end_locally w r t cases (f : caseImpl → Prog) :
  bound w r t → (∀ c, c ∈ cases → calm (f c) = true) →
  endLocally (λ c sub, exec r (f c) sub) r t cases w.
Proof.
  revert w. induction cases as [|c cases IH]; intros w Hb Hcalm; [done|].
  cbn [endLocally].
  assert (local (caseSub r t c w) (exec r (f c) (caseSub r t c w) (caseStart r t c w)))
    as Hloc.
  { unfold caseSub, caseStart.
    pose proof (bound_announced w r t (name c) [] Hb) as (xa & sa & Hra & HTa & Hta).
    destruct (entered_spec _ r t xa sa (name c) Hra HTa Hta) as (Hbe & _ & _ & Hsub & _).
    apply (stays_exec r t); [apply Hcalm; by left | done | by eexists]. }
  split; [done|].
  destruct (Cases_step w r t c f Hb Hloc) as (k & body & _ & Hb' & _).
  apply IH; [done|]. intros c' Hc'. apply Hcalm. by right.
Qed.

(** With callbacks that announce nothing, the cases are numbered one after
    the other. *)
Lemma ranInOrder_numbers r t (f : caseImpl → Prog) w cases segments w' :
  ranInOrder (λ c sub, exec r (f c) sub) r t w cases segments w' →
  ∀ k, counter w r = Some k → intMin ≤ k → k + Z.of_nat (length cases) ≤ intMax →
    (∀ c, c ∈ cases → announces (f c) = 0%nat) →
    counter w' r = Some (k + Z.of_nat (length cases)) ∧
    ∀ i c, cases !! i = Some c →
      ∃ sub body, segments !! i = Some (caseEvents t (k + Z.of_nat i + 1) c sub body).
Proof.
  induction 1 as [w|w c rest k0 body segs w' Hk0 Hks Hfresh Hloc Hbody Hrest IH];
    intros k Hk Hlo Hhi Hann.
  - split; [rewrite Hk; f_equal; cbn; lia | by intros i c ?].
  - assert (k0 = k) as -> by congruence.
    cbn [length] in Hhi.
    rewrite wrapInt_id in * by (unfold intMin, intMax in *; lia).
    assert (counter (afterCase (λ c sub, exec r (f c) sub) r t c w) r = Some (k + 1)) as Hk1.
    { unfold afterCase, counter. rewrite runners_ended.
      destruct (sound_exec r (f c) (caseSub r t c w) (caseStart r t c w)) as [_ C].
      unfold counter in Hks.
      destruct (runners (caseStart r t c w) !! r) as [x|] eqn:Hx; [|done].
      injection Hks as Hks. destruct (C x Hx) as (x' & Hx' & _ & Bd).
      rewrite Hann in Bd by (by left). rewrite Hx'. cbn. f_equal.
      destruct Bd as [Bd _]; unfold intMin, intMax in *; lia. }
    destruct (IH (k + 1) Hk1) as [Hcnt Hseg];
      [lia | lia | intros c' Hc'; apply Hann; by right |].
    split.
    + rewrite Hcnt. f_equal. cbn [length]. lia.
    + intros [|i] c'; simpl.
      * intros [= <-]. eexists _, _. f_equal. f_equal. lia.
      * intros Hi. destruct (Hseg i c' Hi) as (sub & body' & Hs).
        exists sub, body'. rewrite Hs. f_equal. f_equal. lia.
Qed.

(** C9, as the code has it.  [Cases] goes through the cases in list order.
    For each it announces the case under its name, which moves the counter
    by one and numbers the case by the counter, and then runs a new
    subtest of that name on the callback applied to the case and the
    subtest's [*testing.T].  When every callback, run where the batch runs
    it, returns or halts nothing but its own subtest, whatever failures it
    records, every case is announced and run: the batch returns, and its
    events are, case after case, the numbered announcement, the start of
    the subtest, the events of the callback, and the end of the subtest.
    With callbacks that announce nothing themselves, the cases carry the
    numbers [k + 1], [k + 2], ... after the counter [k] the batch starts
    from. *)
Theorem Cases_announces_and_runs_in_order w r t cases (f : caseImpl → Prog) :
  bound w r t →
  endLocally (λ c sub, exec r (f c) sub) r t cases w →
  ∃ w' segments,
    Cases r cases (λ c sub, exec r (f c) sub) w = (Returns (), w') ∧
    bound w' r t ∧
    trace w' = trace w ++ concat segments ∧
    ranInOrder (λ c sub, exec r (f c) sub) r t w cases segments w' ∧
    length segments = length cases ∧
    (∀ k, counter w r = Some k → intMin ≤ k → k + Z.of_nat (length cases) ≤ intMax →
       (∀ c, c ∈ cases → announces (f c) = 0%nat) →
       counter w' r = Some (k + Z.of_nat (length cases)) ∧
       ∀ i c, cases !! i = Some c →
         ∃ sub body, segments !! i = Some (caseEvents t (k + Z.of_nat i + 1) c sub body)).
Proof.
  intros Hb Hend.
  assert (∃ w' segments,
    Cases r cases (λ c sub, exec r (f c) sub) w = (Returns (), w') ∧
    bound w' r t ∧
    trace w' = trace w ++ concat segments ∧
    ranInOrder (λ c sub, exec r (f c) sub) r t w cases segments w' ∧
    length segments = length cases) as (w' & segments & E & Hb' & Htr & Hran & Hlen).
  { revert w Hb Hend. induction cases as [|c cases IH]; intros w Hb Hend.
    - exists w, []. split_and!; [done | done | by rewrite app_nil_r | constructor | done].
    - destruct Hend as [Hloc Hrest].
      destruct (Cases_step w r t c f Hb Hloc)
        as (k & body & E1 & Hb1 & Hk & Hks & Hfresh & Hbody & Htr1).
      destruct (IH _ Hb1 Hrest) as (w' & segs & E & Hb' & Htr & Hran & Hlen).
      exists w', (caseEvents t (wrapInt (k + 1)) c (caseSub r t c w) body :: segs).
      split_and!.
      + cbn [Cases]. rewrite <- E.
        rewrite <- (bind_assoc (Case r (name c) [])).
        by rewrite (bind_returns _ _ _ _ _ E1).
      + done.
      + rewrite Htr, Htr1. cbn [concat]. by rewrite <- app_assoc.
      + by econstructor.
      + cbn [length]. by rewrite Hlen. }
  exists w', segments. split_and!; try done.
  intros k Hk Hlo Hhi Hann. by apply (ranInOrder_numbers r t f w cases segments w').
Qed.

(** *** The helpers that announce a case, and the host's refusals *)

Lemma counter_envSet w r t key val : counter (envSet t key val w) r = counter w r.
Proof. unfold envSet, counter. by destruct (tests w !! t). Qed.

Lemma Setenv_refused w r t key val :
  bound w r t → underParallel w t = true ∨ invalidEnv key val = true →
  returned (fst (Setenv r key val w)) = false ∧
  runners (snd (Setenv r key val w)) = runners w.
Proof.
  intros Hb Href. pose proof Hb as (x & s & Hr & HT & Ht). unfold Setenv.
  rewrite (bind_returns _ _ _ _ _ (getR_some _ _ _ Hr)), HT.
  destruct (underParallel w t) eqn:Hpar.
  - destruct (T_Setenv_parallel w t key val Hpar) as [v E].
    by rewrite (bind_panics _ _ _ _ _ E).
  - destruct Href as [?|Hinv]; [done|].
    assert (T_Setenv t key val w =
            (Goexit, halted t (logged t (Sprintf "cannot set environment variable: %v"
                                                 [VString "setenv: invalid argument"])
                                      (withTests (<[t := setEnvSet s]> (tests w)) w)))) as E.
    { rewrite (T_Setenv_sequential _ _ s) by done. rewrite Hinv. unfold T_Fatalf.
      erewrite (bind_returns (T_Logf _ _ _));
        last by (apply (T_Logf_some _ _ (setEnvSet s)); apply lookup_insert_eq).
      apply (T_FailNow_some _ _ (setEnvSet s)). apply lookup_insert_eq. }
    rewrite (bind_goexit _ _ _ _ E). cbn [fst snd]. split; [done|].
    unfold halted, markedFinished, markedFailed.
    repeat (match goal with |- context [match ?o with Some _ => _ | None => _ end] =>
              destruct o end; cbn [runners withTests withTrace logged]); done.
Qed.

Lemma Parallel_accepted w r t x s :
  runners w !! r = Some x → T x = t → tests w !! t = Some s →
  t_isParallel s = false → t_isEnvSet s = false →
  Parallel r w =
    (Returns r, announced r t "Test marked as parallel" []
                  (withTests (<[t := setParallel s]> (tests w))
                     (withRunners (<[r := withParallel true x]> (runners w)) w))).
Proof.
  intros Hr HT Ht Hp He.
  rewrite (Parallel_start _ _ _ Hr), HT.
  erewrite (bind_returns (T_Parallel t)); last by apply (T_Parallel_fresh _ _ s).
  erewrite (bind_returns (Case _ _ _)); [done|]. apply Case_bound.
  eexists _, _. cbn [runners tests withTests withRunners].
  split_and!; [apply lookup_insert_eq | done | apply lookup_insert_eq].
Qed.

Lemma Parallel_refused w r t x s :
  runners w !! r = Some x → T x = t → tests w !! t = Some s →
  t_isParallel s || t_isEnvSet s = true →
  ∃ v, Parallel r w = (Panics v, withRunners (<[r := withParallel true x]> (runners w)) w).
Proof.
  intros Hr HT Ht Href. rewrite (Parallel_start _ _ _ Hr), HT.
  destruct (T_Parallel_refused (withRunners (<[r := withParallel true x]> (runners w)) w) t s)
    as [v E]; [done | done |].
  exists v. by rewrite (bind_panics _ _ _ _ _ E).
Qed.

(** C10, as the code has it.  On a live runner whose counter is [c], each
    of [StartTimer], [StopTimer], [Cleanup], [Benchmark], [MemoryUsage] and
    [GoroutineCount] returns with the counter at [c + 1], and [TestInfo]
    with the counter at [c + 3]; [Skip], and [SkipIf] and [SkipUnless] when
    their condition triggers, exit the goroutine with the test skipped and
    the counter at [c + 1].  [Setenv] and [Parallel] call the host before
    they announce.  [Setenv] returns, with the counter at [c + 1], when the
    test is not parallel, has no parallel ancestor, and the system accepts
    the key and the value; otherwise it does not return and the counter
    stays at [c].  [Parallel] returns, with the counter at [c + 1], when the
    test is not parallel yet and has set no variable; otherwise it panics
    and the counter stays at [c].  A case announced after [StartTimer] is
    therefore numbered [c + 2].  (The counter is taken to stay within the
    range of [int].) *)
Theorem helpers_announce_a_case w r t c :
  bound w r t → counter w r = Some c → intMin ≤ c → c + 3 ≤ intMax →
  (returned (fst (StartTimer r w)) = true ∧
   counter (snd (StartTimer r w)) r = Some (c + 1)) ∧
  (returned (fst (StopTimer r w)) = true ∧
   counter (snd (StopTimer r w)) r = Some (c + 1)) ∧
  (∀ F (fn : F), returned (fst (Cleanup r fn w)) = true ∧
                 counter (snd (Cleanup r fn w)) r = Some (c + 1)) ∧
  (∀ F name (f : F), returned (fst (Benchmark r name f w)) = true ∧
                     counter (snd (Benchmark r name f w)) r = Some (c + 1)) ∧
  (returned (fst (MemoryUsage r w)) = true ∧
   counter (snd (MemoryUsage r w)) r = Some (c + 1)) ∧
  (returned (fst (GoroutineCount r w)) = true ∧
   counter (snd (GoroutineCount r w)) r = Some (c + 1)) ∧
  (returned (fst (TestInfo r w)) = true ∧
   counter (snd (TestInfo r w)) r = Some (c + 3)) ∧
  (∀ key val, underParallel w t = false → invalidEnv key val = false →
     fst (Setenv r key val w) = Returns r ∧
     counter (snd (Setenv r key val w)) r = Some (c + 1)) ∧
  (∀ key val, underParallel w t = true ∨ invalidEnv key val = true →
     returned (fst (Setenv r key val w)) = false ∧
     counter (snd (Setenv r key val w)) r = Some c) ∧
  (∀ s, tests w !! t = Some s → t_isParallel s = false → t_isEnvSet s = false →
     fst (Parallel r w) = Returns r ∧
     counter (snd (Parallel r w)) r = Some (c + 1)) ∧
  (∀ s, tests w !! t = Some s → t_isParallel s || t_isEnvSet s = true →
     (∃ v, fst (Parallel r w) = Panics v) ∧
     counter (snd (Parallel r w)) r = Some c) ∧
  (∀ reason args,
     fst (Skip r reason args w) = Goexit ∧
     counter (snd (Skip r reason args w)) r = Some (c + 1) ∧
     skipped (snd (Skip r reason args w)) t = true) ∧
  (∀ reason args,
     fst (SkipIf r true reason args w) = Goexit ∧
     counter (snd (SkipIf r true reason args w)) r = Some (c + 1)) ∧
  (∀ reason args,
     fst (SkipUnless r false reason args w) = Goexit ∧
     counter (snd (SkipUnless r false reason args w)) r = Some (c + 1)) ∧
  (∀ format args,
     counter (snd ((_ ← StartTimer r; Case r format args) w)) r = Some (c + 2) ∧
     ∃ evs, trace (snd ((_ ← StartTimer r; Case r format args) w)) =
            evs ++ [EvLog t (caseLine (c + 2) format args)]).
Proof.
  intros Hb Hc Hlo Hhi. pose proof Hb as (x & s0 & Hr & HT & Ht).
  assert (∀ A (m : M A) n, alive r t m → sound r n n m → (n ≤ 3)%nat →
            returned (fst (m w)) = true ∧
            counter (snd (m w)) r = Some (c + Z.of_nat n)) as Hexact.
  { intros A m n Ha S Hn. split; [by apply Ha|].
    apply counter_exact; [done | done | done | lia | by apply Ha]. }
  assert (∀ reason args,
            fst (Skip r reason args w) = Goexit ∧
            counter (snd (Skip r reason args w)) r = Some (c + 1) ∧
            skipped (snd (Skip r reason args w)) t = true) as HSkip.
  { intros reason args.
    destruct (Skip_bound w r t reason args c) as (? & ? & ? & _); [done | done | done | lia |].
    done. }
  assert (∀ format args,
     counter (snd ((_ ← StartTimer r; Case r format args) w)) r = Some (c + 2) ∧
     ∃ evs, trace (snd ((_ ← StartTimer r; Case r format args) w)) =
            evs ++ [EvLog t (caseLine (c + 2) format args)]) as HNext.
  { intros format args.
    destruct (Hexact _ (StartTimer r) 1%nat) as [Hret Hcnt];
      [apply alive_StartTimer | apply sound_StartTimer | lia |].
    pose proof (bound_sound r t _ 1 1 w (sound_StartTimer r) Hb) as Hb1.
    apply returned_inv in Hret as [a Hret].
    destruct (StartTimer r w) as [o w1] eqn:E. cbn [fst snd] in *. subst o.
    rewrite (bind_returns _ _ _ _ _ E).
    rewrite (Case_bound _ _ _ _ _ Hb1). cbn [snd].
    destruct (counter_announced w1 r t format args (c + 1)) as (H1 & _ & H3);
      [done | lia | lia |].
    replace (c + 2) with (c + 1 + 1) by lia. split; [done|]. by eexists. }
  refine (conj _ (conj _ (conj _ (conj _ (conj _ (conj _ (conj _ (conj _ (conj _
           (conj _ (conj _ (conj HSkip (conj _ (conj _ HNext)))))))))))))).
  - apply (Hexact _ _ 1%nat); [apply alive_StartTimer | apply sound_StartTimer | lia].
  - apply (Hexact _ _ 1%nat); [apply alive_StopTimer | apply sound_StopTimer | lia].
  - intros F fn.
    apply (Hexact _ _ 1%nat); [apply alive_Cleanup | apply sound_Cleanup | lia].
  - intros F name f.
    apply (Hexact _ _ 1%nat); [apply alive_Benchmark | apply sound_Benchmark | lia].
  - apply (Hexact _ _ 1%nat); [apply alive_MemoryUsage | apply sound_MemoryUsage | lia].
  - apply (Hexact _ _ 1%nat); [apply alive_GoroutineCount | apply sound_GoroutineCount | lia].
  - apply (Hexact _ _ 3%nat); [apply alive_TestInfo | apply sound_TestInfo | lia].
  - intros key val Hpar Hinv.
    destruct (Setenv_start_ok w r t x s0 key val Hr HT Ht Hpar Hinv) as [E _].
    rewrite E. cbn [fst snd]. split; [done|].
    apply counter_announced; [by rewrite counter_envSet | done | lia].
  - intros key val Href.
    destruct (Setenv_refused w r t key val Hb Href) as [Hret Hrun].
    split; [done|]. unfold counter in *. by rewrite Hrun.
  - intros s Hs Hp He. assert (s = s0) as -> by congruence.
    rewrite (Parallel_accepted w r t x s0 Hr HT Ht Hp He). cbn [fst snd]. split; [done|].
    apply counter_announced; [|done | lia].
    unfold counter in *. cbn [runners withTests withRunners]. rewrite lookup_insert_eq.
    rewrite Hr in Hc. by injection Hc as <-.
  - intros s Hs Href. assert (s = s0) as -> by congruence.
    destruct (Parallel_refused w r t x s0 Hr HT Ht Href) as [v E].
    rewrite E. cbn [fst snd]. split; [by exists v|].
    unfold counter in *. cbn [runners withRunners]. rewrite lookup_insert_eq.
    rewrite Hr in Hc. by injection Hc as <-.
  - intros reason args. destruct (HSkip reason args) as (Hg & Hcnt & _).
    unfold SkipIf. destruct (Skip r reason args w) as [o w1] eqn:E.
    cbn [fst snd] in *. subst o.
    by rewrite (bind_goexit _ _ _ _ (bind_goexit _ _ _ _ E)).
  - intros reason args. destruct (HSkip reason args) as (Hg & Hcnt & _).
    unfold SkipUnless. cbn [negb]. destruct (Skip r reason args w) as [o w1] eqn:E.
    cbn [fst snd] in *. subst o.
    by rewrite (bind_goexit _ _ _ _ (bind_goexit _ _ _ _ E)).
Qed.

End WithFormatter.

(** *** The case file *)

(** X24.  [NewCase] allocates: the case it returns is not nil and was not
    there before, every case made earlier reads as it did, and a second
    [NewCase] returns another case.  An accessor or a builder setter called
    on an address that holds no case, nil for one, panics. *)
Theorem NewCase_makes_a_separate_object (h : gmap nat caseImpl) name input want wantErr err :
  ∃ c h',
    NewCase name input want wantErr err h = (c, h') ∧
    c ≠ 0%nat ∧ h !! c = None ∧
    h' !! c = Some (mkCase name input want wantErr err) ∧
    (∀ c', c' ≠ c → h' !! c' = h !! c') ∧
    (∀ name2 input2 want2 wantErr2 err2 c2 h2,
       NewCase name2 input2 want2 wantErr2 err2 h' = (c2, h2) →
       c2 ≠ c ∧ Name h2 c = Some name ∧ Input h2 c = Some input ∧ Want h2 c = Some want ∧
       WantErr h2 c = Some wantErr ∧ Err h2 c = Some err) ∧
    (∀ a, h !! a = None →
       Name h a = None ∧ Input h a = None ∧ Want h a = None ∧ WantErr h a = None ∧
       Err h a = None ∧ ∀ s, call s a h = None).
Proof.
  destruct (alloc_spec (mkCase name input want wantErr err) h) as (c & E & Hc & Hfresh).
  exists c, (<[c := mkCase name input want wantErr err]> h).
  split_and!; try done.
  - apply lookup_insert_eq.
  - intros c' Hne. by rewrite lookup_insert_ne.
  - intros name2 input2 want2 wantErr2 err2 c2 h2. unfold NewCase.
    destruct (alloc_spec (mkCase name2 input2 want2 wantErr2 err2)
                (<[c := mkCase name input want wantErr err]> h)) as (a & -> & _ & Ha).
    intros [= <- <-].
    assert (a ≠ c) as Hne by (intros ->; by rewrite lookup_insert_eq in Ha).
    unfold Name, Input, Want, WantErr, Err.
    rewrite lookup_insert_ne by done. rewrite lookup_insert_eq. done.
  - intros a Ha. unfold Name, Input, Want, WantErr, Err. rewrite Ha.
    split_and!; try done. intros s.
    destruct s; simpl; unfold SetName, SetInput, SetWant, SetWantErr, SetErr, update;
      by rewrite Ha.
Qed.

(** X25.  A chain of setter calls can be cut anywhere: calling the setters
    of two lists one after the other is calling those of the first list
    and then, on the builder they return, those of the second.  Every
    setter returns the builder it was called on, and a chain on an address
    that holds no builder panics at its first call. *)
Theorem setter_chains_compose (ss1 ss2 : list setter) (b : nat) (h : gmap nat caseImpl) :
  chain (ss1 ++ ss2) b h = ('(b', h') ← chain ss1 b h; chain ss2 b' h') ∧
  (∀ b' h', chain ss1 b h = Some (b', h') → b' = b) ∧
  (h !! b = None → ∀ s, chain (s :: ss1) b h = None).
Proof.
  split_and!.
  - revert b h. induction ss1 as [|s ss1 IH]; intros b h; [done|].
    cbn [app chain]. destruct (call s b h) as [[b1 h1]|]; [|done]. cbn. apply IH.
  - destruct (h !! b) as [o|] eqn:Hb.
    + rewrite (chain_write _ _ _ _ Hb). by intros b' h' [= <- _].
    + destruct ss1 as [|s ss1]; [by intros b' h' [= <- _]|].
      cbn [chain]. destruct s; simpl;
        unfold SetName, SetInput, SetWant, SetWantErr, SetErr, update; by rewrite Hb.
  - intros Hb s. cbn [chain]. destruct s; simpl;
      unfold SetName, SetInput, SetWant, SetWantErr, SetErr, update; by rewrite Hb.
Qed.

(** ** Concrete runs

    The theorems above at the sample data, with [sampleSprintf] as the
    formatter, and the runs that show where the code departs from a
    stricter reading. *)

Lemma sampleBound_bound : bound sampleBound 1 1.
Proof. exists (mkR "Sample" 0 EmptyString 1000 false false 1), sampleT. by vm_compute. Defined.

Lemma New_sample : New 1 "Sample" sampleWorld = (Returns 1%nat, sampleBound).
Proof. by vm_compute. Defined.

(** [AssertNil] at the nil interface (C1). *)
Lemma AssertNil_witness :
  bound sampleBound 1 1 ∧
  (snd (AssertNil sampleSprintf 1 VNil [] sampleBound) =
     passed sampleSprintf 1 "Value is nil" [] sampleBound ↔ VNil = VNil).
Proof.
  split; [exact sampleBound_bound|].
  exact (proj1 (proj2 (proj2
    (AssertNil_passes_on_nil_interface_only sampleSprintf sampleBound 1 1 VNil []
       sampleBound_bound)))).
Defined.

(** A nil [*int] handed to [AssertNil]: the call records a failure, where
    the stricter reading asks for a pass. *)
Lemma AssertNil_nil_pointer_counterexample :
  let result := AssertNil sampleSprintf 1 (VPtr TInt None) [] sampleBound in
  fst result = Returns 1%nat ∧
  failed (snd result) 1 = true ∧
  started (trace (snd result)) = [] ∧
  length (logs 1 (trace (snd result))) = 2%nat ∧
  trace (snd result) =
    trace sampleBound ++
      [EvLog 1 (failLine sampleSprintf "Expected nil, got <nil>" []); EvFail 1] ∧
  snd result ≠ passed sampleSprintf 1 "Value is nil" [] sampleBound.
Proof.
  cbv zeta. split_and!; by vm_compute.
Defined.

(** The two construction paths at a concrete case (C2). *)
Lemma NewCase_and_builder_witness :
  fieldOf (CallInput (VNum TInt 1)) ≠ fieldOf (CallWant (VNum TInt 2)) ∧
  (let '(b, h0) := CaseBuilder "add" ∅ in
   chain ([] ++ CallInput (VNum TInt 1) :: CallWant (VNum TInt 2) :: []) b h0 =
   chain ([] ++ CallWant (VNum TInt 2) :: CallInput (VNum TInt 1) :: []) b h0).
Proof.
  split; [done|].
  exact (proj2 (proj2 (NewCase_and_builder_agree ∅ "add" VNil VNil false VNil))
           [] (CallInput (VNum TInt 1)) (CallWant (VNum TInt 2)) [] ltac:(done)).
Defined.

(** [Build] on a builder at address 1 (C3). *)
Lemma Build_witness :
  ({[ 1%nat := mkCase "a" VNil VNil false VNil ]} : gmap nat caseImpl) !! 1%nat =
    Some (mkCase "a" VNil VNil false VNil) ∧
  Build 1 ({[ 1%nat := mkCase "a" VNil VNil false VNil ]} : gmap nat caseImpl) =
    (1%nat, {[ 1%nat := mkCase "a" VNil VNil false VNil ]}).
Proof.
  assert (({[ 1%nat := mkCase "a" VNil VNil false VNil ]} : gmap nat caseImpl) !! 1%nat =
            Some (mkCase "a" VNil VNil false VNil)) as H by (by vm_compute).
  split; [exact H|].
  exact (proj1 (Build_returns_the_builders_object _ 1 _ H)).
Defined.

(** A setter called on the builder after [Build] changes what the built
    case answers, where the stricter reading asks for a frozen value. *)
Lemma Build_then_setter_counterexample :
  let '(b, h0) := CaseBuilder "a" ∅ in
  let '(c, h1) := Build b h0 in
  Input h1 c = Some VNil ∧
  ∃ h2, SetInput b (VNum TInt 1) h1 = Some (b, h2) ∧
        Input h2 c = Some (VNum TInt 1) ∧
        Input h2 c ≠ Input h1 c.
Proof.
  vm_compute. split; [done|]. eexists. split; [reflexivity|]. by vm_compute.
Defined.

(** The first two announcements on a new runner (C4). *)
Lemma Case_counts_witness :
  New 1 "Sample" sampleWorld = (Returns 1%nat, sampleBound) ∧
  counter sampleBound 1 = Some 0 ∧
  Z.of_nat (length [("first", ([] : list value))]) < intMax ∧
  ∃ w1 w2,
    CaseCalls sampleSprintf 1 [("first", [])] sampleBound = (Returns (), w1) ∧
    counter w1 1 = Some 1 ∧
    Case sampleSprintf 1 "second" [] w1 = (Returns 1%nat, w2) ∧
    counter w2 1 = Some 2 ∧
    logs 1 (trace w2) = ["Test Case => Sample"; "Case 1 -> first"; "Case 2 -> second"].
Proof.
  pose proof (Case_counts_announcements sampleSprintf 1 "Sample" sampleWorld 1 sampleBound
                New_sample) as (H0 & HCase & _).
  split; [exact New_sample|]. split; [exact H0|].
  assert (Z.of_nat (length [("first", ([] : list value))]) < intMax) as Hlt by (by vm_compute).
  split; [exact Hlt|].
  destruct (HCase [("first", [])] "second" [] Hlt) as (w1 & w2 & E1 & C1 & E2 & C2 & _ & _).
  exists w1, w2. split_and!; try done.
  vm_compute in E1. injection E1 as <-. vm_compute in E2. injection E2 as <-.
  by vm_compute.
Defined.

(** [Require] on the sample runner (C5). *)
Lemma Require_witness :
  bound sampleBound 1 1 ∧
  Require sampleSprintf 1 false "should fail" [] sampleBound =
    (Returns (), failedWith sampleSprintf 1 "should fail" [] sampleBound) ∧
  failed (failedWith sampleSprintf 1 "should fail" [] sampleBound) 1 = true.
Proof.
  split; [exact sampleBound_bound|].
  destruct (proj2 (proj2 (Require_is_Pass_or_Fail sampleSprintf sampleBound 1 false
                            "should fail" [])) 1%nat sampleBound_bound) as (E & F & _).
  by split.
Defined.

(** [FailNow] on the sample runner (C6). *)
Lemma FailNow_witness :
  bound sampleBound 1 1 ∧
  FailNow sampleSprintf 1 false "must hold" [] sampleBound =
    (Goexit, halted 1 (failedWith sampleSprintf 1 "must hold" [] sampleBound)) ∧
  finished (halted 1 (failedWith sampleSprintf 1 "must hold" [] sampleBound)) 1 = true.
Proof.
  split; [exact sampleBound_bound|].
  destruct (FailNow_halts_on_false sampleSprintf sampleBound 1 1 "must hold" []
              sampleBound_bound) as (_ & _ & E & _ & F & _).
  by split.
Defined.

(** The error assertions on the sample runner (C7). *)
Lemma error_assertions_witness :
  bound sampleBound 1 1 ∧
  (fst (AssertNoErr sampleSprintf 1 (VString "boom") sampleBound) = Returns ()
     ↔ VString "boom" = VNil) ∧
  (fst (AssertErr sampleSprintf 1 (VString "boom") sampleBound) = Returns ()
     ↔ VString "boom" ≠ VNil).
Proof.
  split; [exact sampleBound_bound|].
  destruct (error_assertions_pass_or_halt sampleSprintf sampleBound 1 1 (VString "boom")
              "no error" [] sampleBound_bound)
    as (_ & _ & _ & _ & _ & _ & H1 & H2 & _).
  by split.
Defined.

(** [AssertContains] on the sample runner, with the string of the
    specification and the [[]string] of the package's tests (C8). *)
Lemma AssertContains_witness :
  bound sampleBound 1 1 ∧
  AssertContains sampleSprintf 1 (VString "hello world") (VString "world") [] sampleBound =
    (Returns 1%nat, passed sampleSprintf 1 "Container contains item" [] sampleBound) ∧
  AssertContains sampleSprintf 1
    (VSlice TString (Some [VString "hello"; VString "world"; VString "test"]))
    (VString "hello") ["Slice should contain 'hello'"] sampleBound =
    (Returns 1%nat, passed sampleSprintf 1 "Container contains item" [] sampleBound) ∧
  (contains (VSlice TString (Some [VString "hello"; VString "world"; VString "test"]))
            (VString "hello") = true
   ↔ ∃ v, v ∈ [VString "hello"; VString "world"; VString "test"] ∧
          DeepEqual v (VString "hello") = true).
Proof.
  split; [exact sampleBound_bound|]. split_and!.
  - exact (proj1 (AssertContains_by_container_shape sampleSprintf sampleBound 1 1
                    (VString "hello world") (VString "world") [] sampleBound_bound)).
  - exact (proj1 (AssertContains_by_container_shape sampleSprintf sampleBound 1 1
                    (VSlice TString (Some [VString "hello"; VString "world"; VString "test"]))
                    (VString "hello") ["Slice should contain 'hello'"] sampleBound_bound)).
  - exact (proj1 (proj2 (proj2 (proj2 (proj2 (proj2
      (AssertContains_by_container_shape sampleSprintf sampleBound 1 1
         (VSlice TString (Some [VString "hello"; VString "world"; VString "test"]))
         (VString "hello") [] sampleBound_bound))))))
      TString [VString "hello"; VString "world"; VString "test"] eq_refl).
Defined.

(** The package's example batch with the failing case first: both cases
    are announced and run, the second one after the failure of the first,
    and they are numbered 1 and 2 (C9). *)
Lemma Cases_witness :
  bound sampleBound 1 1 ∧
  endLocally sampleSprintf (λ c sub, exec sampleSprintf 1 (requireEqual c) sub) 1 1
             sampleCasesFailingFirst sampleBound ∧
  ∃ w' segments,
    Cases sampleSprintf 1 sampleCasesFailingFirst
          (λ c sub, exec sampleSprintf 1 (requireEqual c) sub) sampleBound = (Returns (), w') ∧
    trace w' = trace sampleBound ++ concat segments ∧
    length segments = 2%nat ∧
    counter w' 1 = Some (0 + Z.of_nat (length sampleCasesFailingFirst)) ∧
    started (trace w') = ["case2"; "case1"] ∧
    failed w' 1 = true ∧
    logs 1 (trace w') =
      ["Test Case => Sample";
       caseLine sampleSprintf 1 "case2" []; failLine sampleSprintf "input equals want" [];
       caseLine sampleSprintf 2 "case1" []; passLine sampleSprintf "input equals want" []].
Proof.
  assert (endLocally sampleSprintf (λ c sub, exec sampleSprintf 1 (requireEqual c) sub) 1 1
                     sampleCasesFailingFirst sampleBound) as Hend.
  { vm_compute. split; [by left|]. split; [by left | done]. }
  split; [exact sampleBound_bound|]. split; [exact Hend|].
  destruct (Cases_announces_and_runs_in_order sampleSprintf sampleBound 1 1
              sampleCasesFailingFirst requireEqual sampleBound_bound Hend)
    as (w' & segments & E & _ & Htr & _ & Hlen & Hnum).
  destruct (Hnum 0) as [Hcnt _];
    [reflexivity | by vm_compute | by vm_compute | by intros c _ |].
  exists w', segments. split_and!; [done | done | done | done | | |].
  - vm_compute in E. injection E as <-. by vm_compute.
  - vm_compute in E. injection E as <-. by vm_compute.
  - vm_compute in E. injection E as <-. by vm_compute.
Defined.

(** A callback that halts through the runner in the first case: the bound
    test is finished, the batch exits, and the second case is neither
    announced nor run, where the stricter reading asks for every case. *)
Lemma Cases_halting_callback_counterexample :
  let result :=
    Cases sampleSprintf 1 sampleCasesFailingFirst
          (λ c sub, exec sampleSprintf 1 (failNowUnlessEqual c) sub) sampleBound in
  length sampleCasesFailingFirst = 2%nat ∧
  fst result = Goexit ∧
  started (trace (snd result)) = ["case2"] ∧
  counter (snd result) 1 = Some 1 ∧
  finished (snd result) 1 = true ∧
  (∀ sub, EvStart 1 "case1" sub ∉ trace (snd result)).
Proof.
  cbv zeta. split_and!; try by vm_compute.
  intros sub Hin. apply list_elem_of_In in Hin. vm_compute in Hin.
  repeat (destruct Hin as [Hin|Hin]; [discriminate Hin|]). destruct Hin.
Defined.

(** The helpers on the sample runner, among them [Setenv] and [Parallel]
    where the host accepts them (C10). *)
Lemma helpers_witness :
  bound sampleBound 1 1 ∧ counter sampleBound 1 = Some 0 ∧
  intMin ≤ 0 ∧ 0 + 3 ≤ intMax ∧
  counter (snd (StartTimer sampleSprintf 1 sampleBound)) 1 = Some (0 + 1) ∧
  counter (snd (TestInfo sampleSprintf 1 sampleBound)) 1 = Some (0 + 3) ∧
  underParallel sampleBound 1 = false ∧ invalidEnv "TEST_VAR" "test_value" = false ∧
  fst (Setenv sampleSprintf 1 "TEST_VAR" "test_value" sampleBound) = Returns 1%nat ∧
  counter (snd (Setenv sampleSprintf 1 "TEST_VAR" "test_value" sampleBound)) 1 = Some (0 + 1) ∧
  tests sampleBound !! 1%nat = Some sampleT ∧
  t_isParallel sampleT = false ∧ t_isEnvSet sampleT = false ∧
  fst (Parallel sampleSprintf 1 sampleBound) = Returns 1%nat ∧
  counter (snd (Parallel sampleSprintf 1 sampleBound)) 1 = Some (0 + 1).
Proof.
  assert (intMin ≤ 0) as Hlo by (by vm_compute).
  assert (0 + 3 ≤ intMax) as Hhi by (by vm_compute).
  assert (underParallel sampleBound 1 = false) as Hpar by (by vm_compute).
  assert (invalidEnv "TEST_VAR" "test_value" = false) as Hinv by (by vm_compute).
  assert (tests sampleBound !! 1%nat = Some sampleT) as Ht by (by vm_compute).
  destruct (helpers_announce_a_case sampleSprintf sampleBound 1 1 0 sampleBound_bound
              eq_refl Hlo Hhi)
    as ((_ & H1) & _ & _ & _ & _ & _ & (_ & H7) & HSet & _ & HPar & _).
  destruct (HSet "TEST_VAR" "test_value" Hpar Hinv) as [HS1 HS2].
  destruct (HPar sampleT Ht eq_refl eq_refl) as [HP1 HP2].
  split_and!; [exact sampleBound_bound | reflexivity | exact Hlo | exact Hhi | exact H1
              | exact H7 | exact Hpar | exact Hinv | exact HS1 | exact HS2 | exact Ht
              | reflexivity | reflexivity | exact HP1 | exact HP2].
Defined.

(** [Setenv] with a key the system refuses, and a second [Parallel]: the
    host stops the call before [Case] is reached and the counter stays
    where it was, where the stricter reading has every call announce a
    case. *)
Lemma refused_helpers_counterexample :
  let refusedSetenv := Setenv sampleSprintf 1 "" "value" sampleBound in
  let secondParallel :=
    Parallel sampleSprintf 1 (snd (Parallel sampleSprintf 1 sampleBound)) in
  counter sampleBound 1 = Some 0 ∧
  fst refusedSetenv = Goexit ∧
  counter (snd refusedSetenv) 1 = Some 0 ∧
  finished (snd refusedSetenv) 1 = true ∧
  logs 1 (trace (snd refusedSetenv)) =
    ["Test Case => Sample";
     sampleSprintf "cannot set environment variable: %v"
                   [VString "setenv: invalid argument"]] ∧
  counter (snd (Parallel sampleSprintf 1 sampleBound)) 1 = Some 1 ∧
  returned (fst secondParallel) = false ∧
  counter (snd secondParallel) 1 = Some 1.
Proof.
  cbv zeta. split_and!; by vm_compute.
Defined.

(** ** Concrete runs of the further properties *)

(** [New] on the sample test. *)
Lemma New_allocates_witness :
  is_Some (tests sampleWorld !! 1%nat) ∧
  ∃ r w', New 1 "Sample" sampleWorld = (Returns r, w') ∧ r ≠ nil ∧
          runners sampleWorld !! r = None.
Proof.
  assert (is_Some (tests sampleWorld !! 1%nat)) as H by (by eexists).
  split; [exact H|].
  destruct (proj2 (New_allocates_a_fresh_runner sampleSprintf 1 "Sample" sampleWorld) H)
    as (r & w' & E & Hn & Hf & _).
  by exists r, w'.
Defined.

(** [Fatal] on the sample runner. *)
Lemma Fatal_witness :
  bound sampleBound 1 1 ∧
  Fatal sampleSprintf 1 "boom" [] sampleBound =
    (Goexit, halted 1 (logged 1 (failLine sampleSprintf "boom" []) sampleBound)).
Proof.
  split; [exact sampleBound_bound|].
  exact (proj1 (Fatal_halts_like_FailNow sampleSprintf sampleBound 1 1 "boom" []
                  sampleBound_bound)).
Defined.

Lemma AssertTrue_witness :
  bound sampleBound 1 1 ∧
  AssertTrue sampleSprintf 1 true [] sampleBound =
    (Returns 1%nat, passed sampleSprintf 1 "Condition is true" [] sampleBound).
Proof.
  split; [exact sampleBound_bound|].
  exact (proj1 (AssertTrue_and_AssertFalse_verdicts sampleSprintf sampleBound 1 1 true []
                  sampleBound_bound)).
Defined.

Lemma AssertEqual_witness :
  bound sampleBound 1 1 ∧
  (snd (AssertEqual sampleSprintf 1 (VNum TInt 1) (VNum TInt 1) [] sampleBound) =
     passed sampleSprintf 1 "Values are equal" [] sampleBound
   ↔ VNum TInt 1 = VNum TInt 1).
Proof.
  split; [exact sampleBound_bound|].
  exact (proj1 (proj2 (proj2
    (AssertEqual_passes_on_deeply_equal_values sampleSprintf sampleBound 1 1
       (VNum TInt 1) (VNum TInt 1) [] sampleBound_bound)))).
Defined.

Lemma AssertNotContains_witness :
  bound sampleBound 1 1 ∧
  (snd (AssertNotContains sampleSprintf 1 (VString "hello") (VString "xyz") [] sampleBound) =
     passed sampleSprintf 1 "Container does not contain item" [] sampleBound
   ↔ contains (VString "hello") (VString "xyz") = false).
Proof.
  split; [exact sampleBound_bound|].
  exact (proj1 (proj2
    (AssertNotContains_is_the_opposite sampleSprintf sampleBound 1 1
       (VString "hello") (VString "xyz") [] sampleBound_bound))).
Defined.

(** [AssertPanics] on a function that panics, as in the package's tests. *)
Lemma AssertPanics_witness :
  bound sampleBound 1 1 ∧
  AssertPanics sampleSprintf 1 (go_panic (VString "test panic")) [] sampleBound =
    (Returns nil, passed sampleSprintf 1 "Function panicked as expected" [] sampleBound).
Proof.
  split; [exact sampleBound_bound|].
  exact (proj1 (proj1 (proj2
    (AssertPanics_by_outcome_of_the_function sampleSprintf sampleBound 1 1
       (go_panic (VString "test panic")) [] sampleBound sampleBound_bound))
    (VString "test panic") eq_refl eq_refl)).
Defined.

Lemma AssertNotPanics_witness :
  bound sampleBound 1 1 ∧
  AssertNotPanics sampleSprintf 1 (mret ()) [] sampleBound =
    (Returns 1%nat, passed sampleSprintf 1 "Function did not panic" [] sampleBound).
Proof.
  split; [exact sampleBound_bound|].
  exact (proj1
    (AssertNotPanics_by_outcome_of_the_function sampleSprintf sampleBound 1 1
       (mret ()) [] sampleBound sampleBound_bound) eq_refl).
Defined.

(** [Setenv] and then [Getenv] on the nil runner, as in the package's
    tests. *)
Lemma Setenv_witness :
  bound sampleBound 1 1 ∧ underParallel sampleBound 1 = false ∧
  invalidEnv "TEST_VAR" "test_value" = false ∧
  (_ ← Setenv sampleSprintf 1 "TEST_VAR" "test_value"; Getenv nil "TEST_VAR") sampleBound =
    (Returns "test_value",
     snd (Setenv sampleSprintf 1 "TEST_VAR" "test_value" sampleBound)).
Proof.
  assert (underParallel sampleBound 1 = false) as H1 by (by vm_compute).
  assert (invalidEnv "TEST_VAR" "test_value" = false) as H2 by (by vm_compute).
  split_and!; [exact sampleBound_bound | exact H1 | exact H2 |].
  exact (proj1 (proj2 (proj1
    (Setenv_then_Getenv sampleSprintf sampleBound 1 1 "TEST_VAR" "test_value"
       sampleBound_bound) H1 H2)) nil).
Defined.

Lemma Parallel_witness :
  bound sampleBound 1 1 ∧ tests sampleBound !! 1%nat = Some sampleT ∧
  t_isParallel sampleT = false ∧ t_isEnvSet sampleT = false ∧
  fst (Parallel sampleSprintf 1 sampleBound) = Returns 1%nat.
Proof.
  assert (tests sampleBound !! 1%nat = Some sampleT) as H1 by (by vm_compute).
  split_and!; [exact sampleBound_bound | exact H1 | done | done |].
  exact (proj1 (proj1
    (Parallel_and_Setenv_exclude_each_other sampleSprintf sampleBound 1 1 sampleT
       "K" "v" sampleBound_bound H1 eq_refl) eq_refl)).
Defined.

(** The timer on the sample runner, where the sleep to come overruns by 7:
    a sleep of 10 is reported as 17. *)
Lemma StopTimer_witness :
  runners sampleBound !! 1%nat = Some (mkR "Sample" 0 EmptyString 1000 false false 1) ∧
  T (mkR "Sample" 0 EmptyString 1000 false false 1) = 1%nat ∧
  is_Some (tests sampleBound !! 1%nat) ∧
  StopTimer sampleSprintf 1 sampleBound =
    (Returns 1%nat,
     announced sampleSprintf 1 1 "Test completed in %v"
       [Duration (clock sampleBound -
                  startTime (mkR "Sample" 0 EmptyString 1000 false false 1))] sampleBound) ∧
  ∃ n1 n2 elapsed,
    trace (snd ((_ ← StartTimer sampleSprintf 1; _ ← time_Sleep 10;
                 StopTimer sampleSprintf 1) sampleBound)) =
      trace sampleBound ++
        [EvLog 1 (caseLine sampleSprintf n1 "Starting test timer" []);
         EvLog 1 (caseLine sampleSprintf n2 "Test completed in %v" [Duration elapsed])] ∧
    elapsed = 17 ∧ 10 ≤ elapsed.
Proof.
  assert (runners sampleBound !! 1%nat =
            Some (mkR "Sample" 0 EmptyString 1000 false false 1)) as H1 by (by vm_compute).
  assert (is_Some (tests sampleBound !! 1%nat)) as H2 by (by eexists).
  pose proof (StopTimer_reports_the_time_since_StartTimer sampleSprintf sampleBound 1 1 _
                H1 eq_refl H2) as (_ & E & _ & _ & HS).
  destruct (HS 10) as (n1 & n2 & elapsed & _ & Htr & He & _ & Hd).
  split_and!; [exact H1 | reflexivity | exact H2 | exact E |].
  exists n1, n2, elapsed. split_and!; [exact Htr | exact He | exact Hd].
Defined.

Lemma Run_contains_witness :
  bound sampleBound 1 1 ∧
  Run sampleSprintf 1 "sub" (λ tt, T_Fatalf sampleSprintf tt "stop" []) sampleBound =
    (Returns 1%nat,
     ended (nextTest sampleBound)
       (halted (nextTest sampleBound)
          (logged (nextTest sampleBound) (sampleSprintf "stop" [])
                  (entered 1 "sub" sampleBound)))).
Proof.
  split; [exact sampleBound_bound|].
  exact (proj1 (Run_contains_a_halt_of_the_subtest sampleSprintf sampleBound 1 1
                  "sub" "stop" [] sampleBound_bound)).
Defined.

Lemma Run_aborts_witness :
  bound sampleBound 1 1 ∧
  Run sampleSprintf 1 "sub" (λ _, Fatal sampleSprintf 1 "stop" []) sampleBound =
    (Goexit,
     tornDown sampleSprintf (nextTest sampleBound)
       (halted 1 (logged 1 (failLine sampleSprintf "stop" [])
                         (entered 1 "sub" sampleBound)))).
Proof.
  split; [exact sampleBound_bound|].
  exact (proj1 (Run_aborts_when_the_body_halts_through_the_runner sampleSprintf sampleBound
                  1 1 "sub" "stop" [] sampleBound_bound)).
Defined.

Lemma Caser_witness :
  bound sampleBound 1 1 ∧ calm (Do (OPass "ok" []) Done) = true ∧
  Caser sampleSprintf 1 "sub" (λ tt, exec sampleSprintf 1 (Do (OPass "ok" []) Done) tt)
        sampleBound =
    (_ ← Case sampleSprintf 1 "sub" [];
     Run sampleSprintf 1 "sub" (λ tt, exec sampleSprintf 1 (Do (OPass "ok" []) Done) tt))
      sampleBound.
Proof.
  split_and!; [exact sampleBound_bound | done |].
  exact (proj1 (Caser_announces_then_runs_a_subtest sampleSprintf sampleBound 1 1 "sub"
                  (Do (OPass "ok" []) Done) sampleBound_bound eq_refl)).
Defined.

(** Calls on the nil runner: [Case] panics at once, [AssertPanics] after
    the function it was given has logged its line. *)
Lemma missing_runner_witness :
  runners sampleWorld !! nil = None ∧
  Case sampleSprintf nil "first" [] sampleWorld = (Panics nilDeref, sampleWorld) ∧
  T_Logf sampleSprintf 1 "ran" [] sampleWorld =
    (Returns (), logged 1 (sampleSprintf "ran" []) sampleWorld) ∧
  AssertPanics sampleSprintf nil (T_Logf sampleSprintf 1 "ran" []) [] sampleWorld =
    (Panics nilDeref, logged 1 (sampleSprintf "ran" []) sampleWorld).
Proof.
  assert (runners sampleWorld !! nil = None) as H by (by vm_compute).
  assert (T_Logf sampleSprintf 1 "ran" [] sampleWorld =
            (Returns (), logged 1 (sampleSprintf "ran" []) sampleWorld)) as E
    by (by vm_compute).
  pose proof (calls_on_a_missing_runner_panic sampleSprintf sampleWorld nil H) as HT.
  split_and!; [exact H | exact (proj1 HT "first" []) | exact E |].
  assert (∀ (fn : M unit) msg o w1, fn sampleWorld = (o, w1) → runners w1 !! nil = None →
     AssertPanics sampleSprintf nil fn msg sampleWorld =
       (match o with Dies v => Dies v | _ => Panics nilDeref end, w1) ∧
     AssertNotPanics sampleSprintf nil fn msg sampleWorld =
       (match o with Dies v => Dies v | _ => Panics nilDeref end, w1)) as HA.
  { repeat (lazymatch type of HT with
            | (∀ fn : M unit, _) ∧ _ => fail
            | _ ∧ _ => apply proj2 in HT
            end).
    exact (proj1 HT). }
  exact (proj1 (HA _ [] _ _ E H)).
Defined.


Lemma Benchmark_witness :
  bound sampleBound 1 1 ∧
  ∃ w', Benchmark sampleSprintf 1 "bench" () sampleBound = (Returns 1%nat, w') ∧
        bound w' 1 1.
Proof.
  split; [exact sampleBound_bound|].
  destruct (Benchmark_logs_on_the_enclosing_test sampleSprintf sampleBound 1 1 "bench" ()
              sampleBound_bound) as (n & sub & w' & E & _ & _ & _ & _ & _ & _ & Hb).
  by exists w'.
Defined.

Lemma Case_numbers_witness :
  bound sampleBound 1 1 ∧ counter sampleBound 1 = Some 0 ∧
  counter (snd (Case sampleSprintf 1 "first" [] sampleBound)) 1 = Some (wrapInt (0 + 1)).
Proof.
  assert (counter sampleBound 1 = Some 0) as H by (by vm_compute).
  split_and!; [exact sampleBound_bound | exact H |].
  exact (proj1 (proj2 (Case_numbers_from_the_counter sampleSprintf sampleBound 1 1
                         "first" [] 0 sampleBound_bound H))).
Defined.

Lemma reports_witness :
  runners sampleBound !! 1%nat = Some (mkR "Sample" 0 EmptyString 1000 false false 1) ∧
  T (mkR "Sample" 0 EmptyString 1000 false false 1) = 1%nat ∧
  tests sampleBound !! 1%nat = Some sampleT ∧
  GoroutineCount sampleSprintf 1 sampleBound =
    (Returns 1%nat,
     announced sampleSprintf 1 1 "Goroutine count: %d"
       [VNum TInt (numGoroutine sampleBound)] sampleBound).
Proof.
  assert (runners sampleBound !! 1%nat =
            Some (mkR "Sample" 0 EmptyString 1000 false false 1)) as H1 by (by vm_compute).
  assert (tests sampleBound !! 1%nat = Some sampleT) as H2 by (by vm_compute).
  split_and!; [exact H1 | done | exact H2 |].
  exact (proj1 (reports_log_what_the_host_answers sampleSprintf sampleBound 1 1 _ _
                  H1 eq_refl H2)).
Defined.

End Got.
